(** * IncentEdge: the DSIRE change tracker and scan scheduler

    A shallow embedding of [scraper/dsire_api/tracker.py],
    [scraper/dsire_api/scheduler.py] and the parts of
    [scraper/dsire_api/client.py] they rely on.

    Conventions of the embedding:
    - a Python [str] is a [string] whose characters are code points below 256;
    - a payload ([Dict[str, Any]]) is an insertion-ordered association list of
      JSON values; floats are not modelled;
    - the interpreter is Python 3.11: an [int] of more than 4300 decimal
      digits is not converted to text or back ([str], [repr], [json.dumps]
      and [json.loads] raise ValueError), and sqlite3 reports a value it
      cannot bind with ProgrammingError; the interpreter's stack and memory
      are taken to suffice (no RecursionError, no MemoryError);
    - the SQLite file is a record of four tables, each a list of rows in rowid
      order; the wall clock, storage failures and the network are oracles. *)

From Stdlib Require Import ZArith NArith Lia List String Ascii Bool Permutation.
From Stdlib Require Import DecimalString DecimalZ DecimalPos.
From Stdlib Require DecimalFacts.
Import ListNotations.
Set Warnings "-register-all".
Local Open Scope string_scope.
Local Open Scope Z_scope.

(** The double-quote character (code 34). *)
Abbreviation dquote := (Ascii false true false false false true false false).

(** A raised exception: its class and [str(e)]. *)
Record exn : Type := Exception { exn_class : string; exn_str : string }.

(** ** Python values and the builtins the code uses *)

Inductive value : Type :=
| VNone
| VBool (b : bool)
| VInt (z : Z)
| VStr (s : string)
| VList (l : list value)
| VDict (d : list (string * value)).

(** A Python dict with [str] keys, in insertion order. *)
Abbreviation dict := (list (string * value)).

(** [d.get(k)]: the value stored under [k], or nothing. *)
Fixpoint dict_lookup (d : dict) (k : string) : option value :=
  match d with
  | [] => None
  | (k', v) :: d' => if String.eqb k' k then Some v else dict_lookup d' k
  end.

(** [d.get(k, default)]. *)
Definition dict_get (d : dict) (k : string) (default : value) : value :=
  match dict_lookup d k with
  | Some v => v
  | None => default
  end.

(** [d[k] = v]: overwrite in place, or append a new key at the end. *)
Fixpoint dict_set (d : dict) (k : string) (v : value) : dict :=
  match d with
  | [] => [(k, v)]
  | (k', v') :: d' =>
      if String.eqb k' k then (k', v) :: d' else (k', v') :: dict_set d' k v
  end.

(** [d.update(other)]. *)
Definition dict_update (d other : dict) : dict :=
  fold_left (fun acc kv => dict_set acc (fst kv) (snd kv)) other d.

(** Truth value of an object ([if x:]). *)
Definition py_truthy (v : value) : bool :=
  match v with
  | VNone => false
  | VBool b => b
  | VInt z => negb (z =? 0)
  | VStr s => negb (String.eqb s "")
  | VList l => match l with [] => false | _ => true end
  | VDict d => match d with [] => false | _ => true end
  end.

(** [str(n)] of an [int]. *)
Definition str_int (z : Z) : string := NilZero.string_of_int (Z.to_int z).

Definition hex_digit (n : N) : ascii :=
  match n with
  | 0 => "0" | 1 => "1" | 2 => "2" | 3 => "3" | 4 => "4" | 5 => "5"
  | 6 => "6" | 7 => "7" | 8 => "8" | 9 => "9" | 10 => "a" | 11 => "b"
  | 12 => "c" | 13 => "d" | 14 => "e" | _ => "f"
  end%N%char.

(** Two lowercase hexadecimal digits of a byte. *)
Definition hex2 (n : N) : string :=
  String (hex_digit (N.div n 16)) (String (hex_digit (N.modulo n 16)) "").

Definition contains_char (c : ascii) (s : string) : bool :=
  existsb (Ascii.eqb c) (list_ascii_of_string s).

(** [str.isprintable] on one code point below 256. *)
Definition py_printable (n : N) : bool :=
  ((32 <=? n) && (n <=? 126) || (161 <=? n) && negb (n =? 173))%N.

(** One character of [repr(s)], for the chosen quote character. *)
Definition repr_char (quote c : ascii) : string :=
  let n := N_of_ascii c in
  if Ascii.eqb c quote then String "\" (String c "")
  else if Ascii.eqb c "\" then "\\"
  else if (n =? 9)%N then "\t"
  else if (n =? 10)%N then "\n"
  else if (n =? 13)%N then "\r"
  else if py_printable n then String c ""
  else "\x" ++ hex2 n.

Fixpoint repr_chars (quote : ascii) (s : string) : string :=
  match s with
  | EmptyString => ""
  | String c s' => repr_char quote c ++ repr_chars quote s'
  end.

(** [repr(s)] of a [str]: single quotes, unless the text has a single quote
    and no double quote. *)
Definition repr_str (s : string) : string :=
  let quote : ascii :=
    if contains_char "'" s && negb (contains_char dquote s) then dquote
    else "'"%char in
  String quote (repr_chars quote s ++ String quote "").

(** [repr(v)]. *)
Fixpoint py_repr (v : value) : string :=
  match v with
  | VNone => "None"
  | VBool true => "True"
  | VBool false => "False"
  | VInt z => str_int z
  | VStr s => repr_str s
  | VList l => "[" ++ String.concat ", " (map py_repr l) ++ "]"
  | VDict d =>
      "{" ++ String.concat ", "
               (map (fun kv => match kv with
                               | (k, x) => repr_str k ++ ": " ++ py_repr x
                               end) d) ++ "}"
  end.

(** [str(v)], when it returns. *)
Definition py_str (v : value) : string :=
  match v with
  | VStr s => s
  | _ => py_repr v
  end.

(** [sys.int_info.default_max_str_digits]: the most decimal digits an [int]
    may have for a conversion to text or back. *)
Definition int_max_str_digits : nat := 4300.

(** The number of decimal digits of an [int], its sign left out. *)
Definition int_digits (z : Z) : nat := String.length (str_int (Z.abs z)).

(** Whether [str], [repr] and [json.dumps] convert every [int] inside the
    value; they raise [int_to_str_error] at the first they do not. *)
Fixpoint ints_convertible (v : value) : bool :=
  match v with
  | VInt z => (int_digits z <=? int_max_str_digits)%nat
  | VList l => forallb ints_convertible l
  | VDict d =>
      forallb (fun kv => match kv with (_, x) => ints_convertible x end) d
  | _ => true
  end.

Definition int_to_str_error : exn :=
  Exception "ValueError"
    ("Exceeds the limit (4300 digits) for integer string conversion; "
     ++ "use sys.set_int_max_str_digits() to increase the limit").

(** The ValueError of [int(text)] for a text of [n] digits, [n] above the
    limit. *)
Definition str_to_int_error (n : nat) : exn :=
  Exception "ValueError"
    ("Exceeds the limit (4300 digits) for integer string conversion: "
     ++ "value has " ++ str_int (Z.of_nat n)
     ++ " digits; use sys.set_int_max_str_digits() to increase the limit").

(** [type(v).__name__]. *)
Definition type_name (v : value) : string :=
  match v with
  | VNone => "NoneType"
  | VBool _ => "bool"
  | VInt _ => "int"
  | VStr _ => "str"
  | VList _ => "list"
  | VDict _ => "dict"
  end.

(** The AttributeError of [v.get(...)] on a value that is no dict. *)
Definition no_get (v : value) : exn :=
  Exception "AttributeError"
    ("'" ++ type_name v ++ "' object has no attribute 'get'").

(** ** [json.dumps] *)

(** One character of a JSON string literal ([ensure_ascii=True]). *)
Definition json_escape_char (c : ascii) : string :=
  let n := N_of_ascii c in
  if Ascii.eqb c dquote then String "\" (String dquote "")
  else if Ascii.eqb c "\" then "\\"
  else if (n =? 10)%N then "\n"
  else if (n =? 13)%N then "\r"
  else if (n =? 9)%N then "\t"
  else if (n =? 8)%N then "\b"
  else if (n =? 12)%N then "\f"
  else if ((32 <=? n) && (n <=? 126))%N then String c ""
  else "\u00" ++ hex2 n.

Fixpoint json_escape (s : string) : string :=
  match s with
  | EmptyString => ""
  | String c s' => json_escape_char c ++ json_escape s'
  end.

Definition json_quote (s : string) : string :=
  String dquote (json_escape s ++ String dquote "").

(** Insertion of one rendered item into a list ordered by key. *)
Fixpoint insert_by_key {A : Type} (x : string * A) (l : list (string * A))
  : list (string * A) :=
  match l with
  | [] => [x]
  | y :: l' =>
      if String.leb (fst x) (fst y) then x :: y :: l'
      else y :: insert_by_key x l'
  end.

(** [sorted(items)] for items with distinct keys. *)
Fixpoint sort_by_key {A : Type} (l : list (string * A)) : list (string * A) :=
  match l with
  | [] => []
  | x :: l' => insert_by_key x (sort_by_key l')
  end.

Definition json_item (kv : string * string) : string :=
  json_quote (fst kv) ++ ": " ++ snd kv.

(** The text [json.dumps(v, sort_keys=sort_keys, default=str)] returns for a
    JSON value, when it returns; the [default] hook is never reached for
    such values. *)
Fixpoint json_text (sort_keys : bool) (v : value) : string :=
  match v with
  | VNone => "null"
  | VBool true => "true"
  | VBool false => "false"
  | VInt z => str_int z
  | VStr s => json_quote s
  | VList l => "[" ++ String.concat ", " (map (json_text sort_keys) l) ++ "]"
  | VDict d =>
      let rendered :=
        map (fun kv => match kv with
                       | (k, x) => (k, json_text sort_keys x)
                       end) d in
      let items := if sort_keys then sort_by_key rendered else rendered in
      "{" ++ String.concat ", " (map json_item items) ++ "}"
  end.

(** [json.dumps(v, sort_keys=sort_keys, default=str)]: the encoder raises
    ValueError at the first [int] of more than 4300 digits, and returns the
    text when there is none. *)
Definition json_dumps (sort_keys : bool) (v : value) : exn + string :=
  if ints_convertible v then inr (json_text sort_keys v)
  else inl int_to_str_error.

(** ** [hashlib.md5] (RFC 1321) *)

Module Md5.

Definition w32 (x : Z) : Z := x mod 4294967296.

Definition rotl32 (x c : Z) : Z :=
  w32 (Z.lor (Z.shiftl x c) (Z.shiftr x (32 - c))).

Definition not32 (x : Z) : Z := Z.lxor x 4294967295.

Definition K : list Z :=
  [ 0xd76aa478; 0xe8c7b756; 0x242070db; 0xc1bdceee;
    0xf57c0faf; 0x4787c62a; 0xa8304613; 0xfd469501;
    0x698098d8; 0x8b44f7af; 0xffff5bb1; 0x895cd7be;
    0x6b901122; 0xfd987193; 0xa679438e; 0x49b40821;
    0xf61e2562; 0xc040b340; 0x265e5a51; 0xe9b6c7aa;
    0xd62f105d; 0x02441453; 0xd8a1e681; 0xe7d3fbc8;
    0x21e1cde6; 0xc33707d6; 0xf4d50d87; 0x455a14ed;
    0xa9e3e905; 0xfcefa3f8; 0x676f02d9; 0x8d2a4c8a;
    0xfffa3942; 0x8771f681; 0x6d9d6122; 0xfde5380c;
    0xa4beea44; 0x4bdecfa9; 0xf6bb4b60; 0xbebfbc70;
    0x289b7ec6; 0xeaa127fa; 0xd4ef3085; 0x04881d05;
    0xd9d4d039; 0xe6db99e5; 0x1fa27cf8; 0xc4ac5665;
    0xf4292244; 0x432aff97; 0xab9423a7; 0xfc93a039;
    0x655b59c3; 0x8f0ccc92; 0xffeff47d; 0x85845dd1;
    0x6fa87e4f; 0xfe2ce6e0; 0xa3014314; 0x4e0811a1;
    0xf7537e82; 0xbd3af235; 0x2ad7d2bb; 0xeb86d391 ].

Definition S : list Z :=
  [ 7; 12; 17; 22; 7; 12; 17; 22; 7; 12; 17; 22; 7; 12; 17; 22;
    5; 9; 14; 20; 5; 9; 14; 20; 5; 9; 14; 20; 5; 9; 14; 20;
    4; 11; 16; 23; 4; 11; 16; 23; 4; 11; 16; 23; 4; 11; 16; 23;
    6; 10; 15; 21; 6; 10; 15; 21; 6; 10; 15; 21; 6; 10; 15; 21 ].

(** The four chaining words. *)
Record state : Type := mkState { wa : Z; wb : Z; wc : Z; wd : Z }.

Definition init : state :=
  mkState 0x67452301 0xefcdab89 0x98badcfe 0x10325476.

(** One of the 64 operations of a block, on the block's 16 words [m]. *)
Definition step (m : list Z) (st : state) (i : nat) : state :=
  let a := wa st in let b := wb st in let c := wc st in let d := wd st in
  let iz := Z.of_nat i in
  let '(f, g) :=
    if (i <? 16)%nat then
      (Z.lor (Z.land b c) (Z.land (not32 b) d), iz)
    else if (i <? 32)%nat then
      (Z.lor (Z.land d b) (Z.land (not32 d) c), (5 * iz + 1) mod 16)
    else if (i <? 48)%nat then
      (Z.lxor (Z.lxor b c) d, (3 * iz + 5) mod 16)
    else
      (Z.lxor c (Z.lor b (not32 d)), (7 * iz) mod 16) in
  let f' := w32 (f + a + nth i K 0 + nth (Z.to_nat g) m 0) in
  mkState d (w32 (b + rotl32 f' (nth i S 0))) b c.

(** Little-endian 32-bit words of a byte list. *)
Fixpoint words_le (bytes : list Z) (n : nat) : list Z :=
  match n, bytes with
  | Datatypes.S n', b0 :: b1 :: b2 :: b3 :: rest =>
      (b0 + 256 * b1 + 65536 * b2 + 16777216 * b3) :: words_le rest n'
  | _, _ => []
  end.

Definition compress (st : state) (block : list Z) : state :=
  let m := words_le block 16 in
  let st' := fold_left (step m) (seq 0 64) st in
  mkState (w32 (wa st + wa st')) (w32 (wb st + wb st'))
          (w32 (wc st + wc st')) (w32 (wd st + wd st')).

Fixpoint blocks (fuel : nat) (st : state) (bytes : list Z) : state :=
  match fuel, bytes with
  | Datatypes.S fuel', _ :: _ =>
      blocks fuel' (compress st (firstn 64 bytes)) (skipn 64 bytes)
  | _, _ => st
  end.

Definition bytes_le (n : nat) (x : Z) : list Z :=
  map (fun i => (Z.shiftr x (8 * Z.of_nat i)) mod 256) (seq 0 n).

(** The message, one [0x80] byte, zeros up to 56 modulo 64, and the bit length
    on 8 little-endian bytes. *)
Definition pad (msg : list Z) : list Z :=
  let len := Z.of_nat (List.length msg) in
  let zeros := Z.to_nat ((55 - len) mod 64) in
  msg ++ [128] ++ repeat 0 zeros ++ bytes_le 8 ((8 * len) mod 2 ^ 64).

Definition digest_state (msg : list Z) : state :=
  let p := pad msg in
  blocks (List.length p) init p.

Definition hex_bytes (l : list Z) : string :=
  String.concat "" (map (fun b => hex2 (Z.to_N b)) l).

Definition hex_of_state (st : state) : string :=
  hex_bytes (bytes_le 4 (wa st) ++ bytes_le 4 (wb st)
             ++ bytes_le 4 (wc st) ++ bytes_le 4 (wd st)).

Definition hexdigest (msg : list Z) : string := hex_of_state (digest_state msg).

End Md5.

(** [s.encode()]: UTF-8 bytes of a string of code points below 256. *)
Definition utf8_encode (s : string) : list Z :=
  flat_map (fun c =>
              let n := Z.of_N (N_of_ascii c) in
              if n <? 128 then [n]
              else [Z.lor 192 (Z.shiftr n 6); Z.lor 128 (Z.land n 63)])
           (list_ascii_of_string s).

(** ** [json.loads], on the texts [json.dumps] writes

    Whitespace is skipped where the decoder skips it; numbers are integers
    (a fraction or exponent does not decode); a [\u] escape above 255 does
    not decode. *)

Definition is_ws (c : ascii) : bool :=
  let n := N_of_ascii c in
  ((n =? 32) || (n =? 9) || (n =? 10) || (n =? 13))%N.

Fixpoint skip_ws (s : string) : string :=
  match s with
  | String c s' => if is_ws c then skip_ws s' else s
  | EmptyString => s
  end.

Definition is_digit (c : ascii) : bool :=
  let n := N_of_ascii c in ((48 <=? n) && (n <=? 57))%N.

Definition unhex (c : ascii) : option N :=
  let n := N_of_ascii c in
  if ((48 <=? n) && (n <=? 57))%N then Some (n - 48)%N
  else if ((97 <=? n) && (n <=? 102))%N then Some (n - 87)%N
  else if ((65 <=? n) && (n <=? 70))%N then Some (n - 55)%N
  else None.

(** The code point of the four hexadecimal digits of a [\u] escape. *)
Definition unhex4 (h1 h2 h3 h4 : ascii) : option N :=
  match unhex h1, unhex h2, unhex h3, unhex h4 with
  | Some a, Some b, Some c, Some d => Some (4096 * a + 256 * b + 16 * c + d)%N
  | _, _, _, _ => None
  end.

Definition cons_char (c : ascii) (r : option (string * string))
  : option (string * string) :=
  match r with
  | Some (s, rest) => Some (String c s, rest)
  | None => None
  end.

(** The body of a string literal, after its opening quote: the decoded text
    and what follows the closing quote. *)
Fixpoint parse_chars (s : string) : option (string * string) :=
  match s with
  | EmptyString => None
  | String c s' =>
      if Ascii.eqb c dquote then Some ("", s')
      else if Ascii.eqb c "\" then
        match s' with
        | String e s'' =>
            if Ascii.eqb e dquote then cons_char dquote (parse_chars s'')
            else if Ascii.eqb e "\" then cons_char "\" (parse_chars s'')
            else if Ascii.eqb e "/" then cons_char "/" (parse_chars s'')
            else if Ascii.eqb e "b" then cons_char (ascii_of_N 8) (parse_chars s'')
            else if Ascii.eqb e "f" then cons_char (ascii_of_N 12) (parse_chars s'')
            else if Ascii.eqb e "n" then cons_char (ascii_of_N 10) (parse_chars s'')
            else if Ascii.eqb e "r" then cons_char (ascii_of_N 13) (parse_chars s'')
            else if Ascii.eqb e "t" then cons_char (ascii_of_N 9) (parse_chars s'')
            else if Ascii.eqb e "u" then
              match s'' with
              | String h1 (String h2 (String h3 (String h4 r))) =>
                  match unhex4 h1 h2 h3 h4 with
                  | Some n =>
                      if (n <? 256)%N then cons_char (ascii_of_N n) (parse_chars r)
                      else None
                  | None => None
                  end
              | _ => None
              end
            else None
        | EmptyString => None
        end
      else if (N_of_ascii c <? 32)%N then None
      else cons_char c (parse_chars s')
  end.

(** The longest prefix of decimal digits, and the rest. *)
Fixpoint take_digits (s : string) : string * string :=
  match s with
  | String c s' =>
      if is_digit c then
        let (ds, rest) := take_digits s' in (String c ds, rest)
      else ("", s)
  | EmptyString => ("", "")
  end.

(** An integer literal and the rest: an optional minus sign, then either a
    single zero or digits that start with a digit from 1 to 9. *)
Definition parse_number (s : string) : option (Z * string) :=
  let (negative, body) :=
    match s with
    | String c s' => if Ascii.eqb c "-" then (true, s') else (false, s)
    | EmptyString => (false, s)
    end in
  match body with
  | String "0" rest => Some (0, rest)
  | _ =>
      let (ds, rest) := take_digits body in
      match NilZero.uint_of_string ds with
      | Some u =>
          let n := Z.of_uint u in
          Some (if negative then - n else n, rest)
      | None => None
      end
  end.

(** [dict(pairs)]: a repeated key keeps its first position and its last
    value. *)
Definition dict_of_pairs (pairs : list (string * value)) : dict :=
  fold_left (fun acc kv => dict_set acc (fst kv) (snd kv)) pairs [].

Fixpoint parse_value (fuel : nat) (s : string) : option (value * string) :=
  match fuel with
  | O => None
  | S fuel' =>
      match skip_ws s with
      | String "n" (String "u" (String "l" (String "l" r))) => Some (VNone, r)
      | String "t" (String "r" (String "u" (String "e" r))) =>
          Some (VBool true, r)
      | String "f" (String "a" (String "l" (String "s" (String "e" r)))) =>
          Some (VBool false, r)
      | String dquote r =>
          match parse_chars r with
          | Some (str, r') => Some (VStr str, r')
          | None => None
          end
      | String "[" r =>
          match skip_ws r with
          | String "]" r' => Some (VList [], r')
          | _ =>
              match parse_elems fuel' r with
              | Some (l, r') => Some (VList l, r')
              | None => None
              end
          end
      | String "{" r =>
          match skip_ws r with
          | String "}" r' => Some (VDict [], r')
          | _ =>
              match parse_members fuel' r with
              | Some (d, r') => Some (VDict (dict_of_pairs d), r')
              | None => None
              end
          end
      | s' =>
          match parse_number s' with
          | Some (z, r) => Some (VInt z, r)
          | None => None
          end
      end
  end

with parse_elems (fuel : nat) (s : string) : option (list value * string) :=
  match fuel with
  | O => None
  | S fuel' =>
      match parse_value fuel' s with
      | Some (v, r) =>
          match skip_ws r with
          | String "," r' =>
              match parse_elems fuel' r' with
              | Some (l, r'') => Some (v :: l, r'')
              | None => None
              end
          | String "]" r' => Some ([v], r')
          | _ => None
          end
      | None => None
      end
  end

with parse_members (fuel : nat) (s : string)
  : option (list (string * value) * string) :=
  match fuel with
  | O => None
  | S fuel' =>
      match skip_ws s with
      | String dquote r =>
          match parse_chars r with
          | Some (k, r1) =>
              match skip_ws r1 with
              | String ":" r2 =>
                  match parse_value fuel' r2 with
                  | Some (v, r3) =>
                      match skip_ws r3 with
                      | String "," r4 =>
                          match parse_members fuel' r4 with
                          | Some (d, r5) => Some ((k, v) :: d, r5)
                          | None => None
                          end
                      | String "}" r4 => Some ([(k, v)], r4)
                      | _ => None
                      end
                  | None => None
                  end
              | _ => None
              end
          | None => None
          end
      | _ => None
      end
  end.

(** The digits of the first [int] of the value that has more than 4300. *)
Fixpoint first_long_int (v : value) : option nat :=
  match v with
  | VInt z =>
      if (int_digits z <=? int_max_str_digits)%nat then None
      else Some (int_digits z)
  | VList l =>
      fold_right (fun x r => match first_long_int x with
                             | Some n => Some n
                             | None => r
                             end) None l
  | VDict d =>
      fold_right (fun kv r => match kv with
                              | (_, x) => match first_long_int x with
                                          | Some n => Some n
                                          | None => r
                                          end
                              end) None d
  | _ => None
  end.

(** The JSONDecodeError of a text that is not JSON; the position the message
    ends with is left out. *)
Definition json_decode_error : exn :=
  Exception "JSONDecodeError" "Expecting value".

(** [json.loads(s)]: JSONDecodeError for a text that is not JSON, ValueError
    for an integer literal of more than 4300 digits. *)
Definition json_loads (s : string) : exn + value :=
  match parse_value (S (String.length s)) s with
  | Some (v, rest) =>
      match skip_ws rest with
      | EmptyString =>
          match first_long_int v with
          | Some n => inl (str_to_int_error n)
          | None => inr v
          end
      | _ => inl json_decode_error
      end
  | None => inl json_decode_error
  end.

(** ** Exceptions and the effect monad *)

(** A computation over a state [S] that returns or raises; the state it
    leaves is kept in both cases. *)
Definition Eff (S A : Type) : Type := S -> (exn + A) * S.

Definition ret {S A : Type} (a : A) : Eff S A := fun s => (inr a, s).

Definition raise {S A : Type} (e : exn) : Eff S A := fun s => (inl e, s).

Definition bind {S A B : Type} (m : Eff S A) (k : A -> Eff S B) : Eff S B :=
  fun s =>
    match m s with
    | (inr a, s') => k a s'
    | (inl e, s') => (inl e, s')
    end.

Notation "x <- m ;; k" := (bind m (fun x => k))
  (at level 61, m at next level, right associativity).
Notation "m ;;; k" := (bind m (fun _ => k))
  (at level 61, right associativity).

(** [try: m except Exception as e: h e]. *)
Definition try_except {S A : Type} (m : Eff S A) (h : exn -> Eff S A) : Eff S A :=
  fun s =>
    match m s with
    | (inr a, s') => (inr a, s')
    | (inl e, s') => h e s'
    end.

(** [for x in l: body x]. *)
Fixpoint for_each {S A : Type} (l : list A) (body : A -> Eff S unit) : Eff S unit :=
  match l with
  | [] => ret tt
  | x :: l' => body x ;;; for_each l' body
  end.

(** ** The SQLite file *)

Inductive sql_value : Type :=
| SqlNull
| SqlInt (z : Z)
| SqlText (s : string).

(** Binding a Python object to the parameter of a statement at the given
    position, counted from 1. *)
Definition bind_param (position : Z) (v : value) : exn + sql_value :=
  match v with
  | VNone => inr SqlNull
  | VBool b => inr (SqlInt (if b then 1 else 0))
  | VInt z =>
      if (- 9223372036854775808 <=? z) && (z <=? 9223372036854775807)
      then inr (SqlInt z)
      else inl (Exception "OverflowError"
                  "Python int too large to convert to SQLite INTEGER")
  | VStr s => inr (SqlText s)
  | VList _ | VDict _ =>
      inl (Exception "ProgrammingError"
             ("Error binding parameter " ++ str_int position ++ ": type '"
              ++ type_name v ++ "' is not supported"))
  end.

(** What a column of TEXT affinity stores. *)
Definition text_affinity (x : sql_value) : sql_value :=
  match x with
  | SqlInt z => SqlText (str_int z)
  | _ => x
  end.

Module Incentive.
Record row : Type := mk {
  id : Z;
  dsire_id : string;
  name : sql_value;
  state : sql_value;
  program_type : sql_value;
  first_seen_at : Z;
  last_seen_at : Z;
  last_updated_at : option Z;
  data_hash : string;
  is_active : bool;
  created_at : Z }.
End Incentive.

Module Snapshot.
Record row : Type := mk {
  id : Z;
  incentive_id : Z;
  data_json : string;
  data_hash : string;
  scraped_at : Z }.
End Snapshot.

Module Change.
Record row : Type := mk {
  id : Z;
  incentive_id : Z;
  field_name : string;
  old_value : option string;
  new_value : option string;
  detected_at : Z }.
End Change.

Module ScanLog.
Record row : Type := mk {
  id : Z;
  scan_type : string;
  states_scanned : option string;
  total_found : Z;
  new_incentives : Z;
  updated_incentives : Z;
  removed_incentives : Z;
  started_at : Z;
  completed_at : option Z;
  status : string;
  error_message : option string }.
End ScanLog.

(** The four tables, each in rowid order. *)
Record Store : Type := mkStore {
  incentives : list Incentive.row;
  incentive_snapshots : list Snapshot.row;
  incentive_changes : list Change.row;
  scan_logs : list ScanLog.row }.

(** The schema [_init_database] creates: four empty tables. *)
Definition _init_database : Store := mkStore [] [] [] [].

(** The rowid an AUTOINCREMENT table gives its next row (no row is ever
    deleted). *)
Definition next_rowid (ids : list Z) : Z := 1 + fold_right Z.max 0 ids.

(** ** The process environment *)

(** What the code reads from outside: the wall clock in microseconds at its
    k-th reading, whether the k-th storage operation fails, and the text
    [datetime.isoformat] gives a time. *)
Class Oracle : Type := {
  clock_us : nat -> Z;
  storage_fails : nat -> bool;
  isoformat : Z -> string }.

Record World : Type := mkWorld {
  disk : Store;
  clock_reads : nat;
  io_ops : nat }.

(** An open connection: the process state, and the view of the open
    transaction (the file plus the writes not yet committed). *)
Record Conn : Type := mkConn {
  world : World;
  view : Store }.

Definition M : Type -> Type := Eff World.
Definition Tx : Type -> Type := Eff Conn.

Definition bump_io (c : Conn) : Conn :=
  let w := world c in
  mkConn (mkWorld (disk w) (clock_reads w) (S (io_ops w))) (view c).

Definition bump_clock (c : Conn) : Conn :=
  let w := world c in
  mkConn (mkWorld (disk w) (S (clock_reads w)) (io_ops w)) (view c).

Definition connect (w : World) : Conn := mkConn w (disk w).

Definition commit (c : Conn) : Conn :=
  let w := world c in
  mkConn (mkWorld (view c) (clock_reads w) (io_ops w)) (view c).

Definition rollback (c : Conn) : Conn := mkConn (world c) (disk (world c)).

Definition close (c : Conn) : World := world c.

Definition disk_io_error : exn := Exception "OperationalError" "disk I/O error".

Section Environment.

Context {oracle : Oracle}.

(** [datetime.now()], as microseconds. *)
Definition datetime_now : M Z :=
  fun w => (inr (clock_us (clock_reads w)),
            mkWorld (disk w) (S (clock_reads w)) (io_ops w)).

(** [datetime.now()] evaluated while a connection is open. *)
Definition tx_datetime_now : Tx Z :=
  fun c => (inr (clock_us (clock_reads (world c))), bump_clock c).

(** [cursor.execute] of one statement. *)
Definition execute {A : Type} (stmt : Store -> exn + (A * Store)) : Tx A :=
  fun c =>
    if storage_fails (io_ops (world c)) then (inl disk_io_error, bump_io c)
    else
      match stmt (view c) with
      | inl e => (inl e, bump_io c)
      | inr (a, db) => (inr a, mkConn (world (bump_io c)) db)
      end.

(** [cursor.execute] of a statement that evaluates CURRENT_TIMESTAMP, which
    is the wall clock in whole seconds. *)
Definition execute_now {A : Type} (stmt : Z -> Store -> exn + (A * Store)) : Tx A :=
  fun c =>
    if storage_fails (io_ops (world c)) then (inl disk_io_error, bump_io c)
    else
      let ts := clock_us (clock_reads (world c)) / 1000000 in
      match stmt ts (view c) with
      | inl e => (inl e, bump_clock (bump_io c))
      | inr (a, db) => (inr a, mkConn (world (bump_clock (bump_io c))) db)
      end.

(** [with self._get_connection() as conn: body]: commit when the body
    returns, roll back and re-raise when it (or the commit) raises, close in
    both cases. *)
Definition _get_connection {A : Type} (body : Tx A) : M A :=
  fun w =>
    match body (connect w) with
    | (inr a, c) =>
        if storage_fails (io_ops (world c))
        then (inl disk_io_error, close (rollback (bump_io c)))
        else (inr a, close (commit (bump_io c)))
    | (inl e, c) => (inl e, close (rollback c))
    end.

End Environment.

(** ** Statements of the tracker *)

Definition append_incentive (r : Incentive.row) (db : Store) : Store :=
  mkStore (incentives db ++ [r]) (incentive_snapshots db)
    (incentive_changes db) (scan_logs db).

Definition append_snapshot (r : Snapshot.row) (db : Store) : Store :=
  mkStore (incentives db) (incentive_snapshots db ++ [r])
    (incentive_changes db) (scan_logs db).

Definition append_change (r : Change.row) (db : Store) : Store :=
  mkStore (incentives db) (incentive_snapshots db)
    (incentive_changes db ++ [r]) (scan_logs db).

Definition append_scan_log (r : ScanLog.row) (db : Store) : Store :=
  mkStore (incentives db) (incentive_snapshots db)
    (incentive_changes db) (scan_logs db ++ [r]).

Definition map_incentives (f : Incentive.row -> Incentive.row) (db : Store)
  : Store :=
  mkStore (map f (incentives db)) (incentive_snapshots db)
    (incentive_changes db) (scan_logs db).

Definition map_scan_logs (f : ScanLog.row -> ScanLog.row) (db : Store) : Store :=
  mkStore (incentives db) (incentive_snapshots db)
    (incentive_changes db) (map f (scan_logs db)).

(** [SELECT id, data_hash FROM incentives WHERE dsire_id = ?], [fetchone]. *)
Definition select_incentive (key : string) (db : Store) : option Incentive.row :=
  find (fun r => String.eqb (Incentive.dsire_id r) key) (incentives db).

(** The row [INSERT INTO incentives (dsire_id, name, state, program_type,
    first_seen_at, last_seen_at, data_hash)] writes; [created_at] is
    CURRENT_TIMESTAMP and the other columns take their defaults. *)
Definition new_incentive (key : string) (name state program_type : sql_value)
    (now : Z) (hash : string) (ts : Z) (db : Store) : Incentive.row :=
  Incentive.mk (next_rowid (map Incentive.id (incentives db))) key
    (text_affinity name) (text_affinity state) (text_affinity program_type)
    now now None hash true ts.

(** [INSERT INTO incentives ...] with the Python values bound to it; the
    result is [lastrowid]. *)
Definition insert_incentive (key : string) (name state program_type : value)
    (now : Z) (hash : string) (ts : Z) (db : Store) : exn + (Z * Store) :=
  match bind_param 2 name, bind_param 3 state, bind_param 4 program_type with
  | inl e, _, _ => inl e
  | _, inl e, _ => inl e
  | _, _, inl e => inl e
  | inr n, inr s, inr p =>
      match n with
      | SqlNull =>
          inl (Exception "IntegrityError"
                 "NOT NULL constraint failed: incentives.name")
      | _ =>
          match select_incentive key db with
          | Some _ =>
              inl (Exception "IntegrityError"
                     "UNIQUE constraint failed: incentives.dsire_id")
          | None =>
              let r := new_incentive key n s p now hash ts db in
              inr (Incentive.id r, append_incentive r db)
          end
      end
  end.

Definition new_snapshot (incentive_id : Z) (json hash : string) (ts : Z)
    (db : Store) : Snapshot.row :=
  Snapshot.mk (next_rowid (map Snapshot.id (incentive_snapshots db)))
    incentive_id json hash ts.

(** [INSERT INTO incentive_snapshots (incentive_id, data_json, data_hash)];
    [scraped_at] is CURRENT_TIMESTAMP. *)
Definition insert_snapshot (incentive_id : Z) (json hash : string) (ts : Z)
    (db : Store) : exn + (unit * Store) :=
  inr (tt, append_snapshot (new_snapshot incentive_id json hash ts db) db).

Definition touch_last_seen (now incentive_id : Z) (r : Incentive.row)
  : Incentive.row :=
  if Incentive.id r =? incentive_id then
    Incentive.mk (Incentive.id r) (Incentive.dsire_id r) (Incentive.name r)
      (Incentive.state r) (Incentive.program_type r) (Incentive.first_seen_at r)
      now (Incentive.last_updated_at r) (Incentive.data_hash r) true
      (Incentive.created_at r)
  else r.

(** [UPDATE incentives SET last_seen_at = ?, is_active = 1 WHERE id = ?]. *)
Definition update_last_seen (now incentive_id : Z) (db : Store)
  : exn + (unit * Store) :=
  inr (tt, map_incentives (touch_last_seen now incentive_id) db).

Definition touch_hash (hash : string) (now incentive_id : Z) (r : Incentive.row)
  : Incentive.row :=
  if Incentive.id r =? incentive_id then
    Incentive.mk (Incentive.id r) (Incentive.dsire_id r) (Incentive.name r)
      (Incentive.state r) (Incentive.program_type r) (Incentive.first_seen_at r)
      (Incentive.last_seen_at r) (Some now) hash (Incentive.is_active r)
      (Incentive.created_at r)
  else r.

(** [UPDATE incentives SET data_hash = ?, last_updated_at = ? WHERE id = ?]. *)
Definition update_hash (hash : string) (now incentive_id : Z) (db : Store)
  : exn + (unit * Store) :=
  inr (tt, map_incentives (touch_hash hash now incentive_id) db).

(** The first of the rows that carry the greatest [scraped_at]: rows are
    visited in rowid order and a later row replaces the candidate only when
    its [scraped_at] is strictly greater. *)
Fixpoint first_latest (best : option Snapshot.row) (rows : list Snapshot.row)
  : option Snapshot.row :=
  match rows with
  | [] => best
  | r :: rows' =>
      match best with
      | None => first_latest (Some r) rows'
      | Some b =>
          if Snapshot.scraped_at b <? Snapshot.scraped_at r
          then first_latest (Some r) rows'
          else first_latest best rows'
      end
  end.

(** [SELECT data_json FROM incentive_snapshots WHERE incentive_id = ?
    ORDER BY scraped_at DESC LIMIT 1], [fetchone]: rows of equal
    [scraped_at] come back in rowid order. *)
Definition select_latest_snapshot (incentive_id : Z) (db : Store)
  : option Snapshot.row :=
  first_latest None
    (filter (fun r => Snapshot.incentive_id r =? incentive_id)
            (incentive_snapshots db)).

(** [SELECT MAX(id) FROM incentive_snapshots WHERE incentive_id = ?], the
    latest snapshot as [get_new_incentives] joins it. *)
Definition select_max_id_snapshot (incentive_id : Z) (db : Store)
  : option Snapshot.row :=
  fold_left
    (fun best r =>
       if Snapshot.incentive_id r =? incentive_id then
         match best with
         | None => Some r
         | Some b => if Snapshot.id b <? Snapshot.id r then Some r else Some b
         end
       else best)
    (incentive_snapshots db) None.

Definition new_change (incentive_id : Z) (field : string)
    (old new : option string) (ts : Z) (db : Store) : Change.row :=
  Change.mk (next_rowid (map Change.id (incentive_changes db)))
    incentive_id field old new ts.

(** [INSERT INTO incentive_changes (incentive_id, field_name, old_value,
    new_value)]; [detected_at] is CURRENT_TIMESTAMP. *)
Definition insert_change (incentive_id : Z) (field : string)
    (old new : option string) (ts : Z) (db : Store) : exn + (unit * Store) :=
  inr (tt, append_change (new_change incentive_id field old new ts db) db).

Definition new_scan_log (scan_type : string) (states : option string)
    (started : Z) (db : Store) : ScanLog.row :=
  ScanLog.mk (next_rowid (map ScanLog.id (scan_logs db))) scan_type states
    0 0 0 0 started None "running" None.

(** [INSERT INTO scan_logs (scan_type, states_scanned, started_at)]; the
    result is [lastrowid]. *)
Definition insert_scan_log (scan_type : string) (states : option string)
    (started : Z) (db : Store) : exn + (Z * Store) :=
  let r := new_scan_log scan_type states started db in
  inr (ScanLog.id r, append_scan_log r db).

Definition close_scan_log (status : string) (completed : Z)
    (total new_count updated_count removed_count : Z)
    (error_message : option string) (scan_id : Z) (r : ScanLog.row)
  : ScanLog.row :=
  if ScanLog.id r =? scan_id then
    ScanLog.mk (ScanLog.id r) (ScanLog.scan_type r) (ScanLog.states_scanned r)
      total new_count updated_count removed_count (ScanLog.started_at r)
      (Some completed) status error_message
  else r.

(** [UPDATE scan_logs SET status = ?, completed_at = ?, total_found = ?,
    new_incentives = ?, updated_incentives = ?, removed_incentives = ?,
    error_message = ? WHERE id = ?]. *)
Definition update_scan_log (status : string) (completed : Z)
    (total new_count updated_count removed_count : Z)
    (error_message : option string) (scan_id : Z) (db : Store)
  : exn + (unit * Store) :=
  inr (tt, map_scan_logs
             (close_scan_log status completed total new_count updated_count
                removed_count error_message scan_id) db).

Definition set_inactive (keys : list string) (r : Incentive.row) : Incentive.row :=
  if existsb (String.eqb (Incentive.dsire_id r)) keys then
    Incentive.mk (Incentive.id r) (Incentive.dsire_id r) (Incentive.name r)
      (Incentive.state r) (Incentive.program_type r) (Incentive.first_seen_at r)
      (Incentive.last_seen_at r) (Incentive.last_updated_at r)
      (Incentive.data_hash r) false (Incentive.created_at r)
  else r.

(** [UPDATE incentives SET is_active = 0 WHERE dsire_id IN (...)]. *)
Definition deactivate (keys : list string) (db : Store) : exn + (unit * Store) :=
  inr (tt, map_incentives (set_inactive keys) db).

(** ** [IncentiveTracker] *)

Definition tracked_fields : list string :=
  [ "name"; "program_type"; "incentive_amount"; "start_date";
    "end_date"; "description"; "eligible_sectors"; "technologies";
    "implementing_sector"; "contact"; "website" ].

(** [str(d.get(field, '')) if d.get(field) else None]. *)
Definition tracked_value (d : dict) (field : string) : option string :=
  if py_truthy (dict_get d field VNone)
  then Some (py_str (dict_get d field (VStr "")))
  else None.

Definition option_string_eqb (a b : option string) : bool :=
  match a, b with
  | None, None => true
  | Some x, Some y => String.eqb x y
  | _, _ => false
  end.

(** The hash of a payload whose integers [json.dumps] converts: the MD5 of
    the bytes of its text with sorted keys, in hexadecimal. *)
Definition payload_hash (data : dict) : string :=
  Md5.hexdigest (utf8_encode (json_text true (VDict data))).

(** [sorted_data = json.dumps(data, sort_keys=True, default=str)], then
    [hashlib.md5(sorted_data.encode()).hexdigest()]. *)
Definition _compute_hash (data : dict) : exn + string :=
  match json_dumps true (VDict data) with
  | inl e => inl e
  | inr sorted_data => inr (Md5.hexdigest (utf8_encode sorted_data))
  end.

Section Tracker.

Context {oracle : Oracle}.

Definition start_scan (scan_type : string) (states : list string) : M Z :=
  _get_connection
    (now <- tx_datetime_now ;;
     execute (insert_scan_log scan_type
                (match states with
                 | [] => None
                 | _ => Some (json_text false (VList (map VStr states)))
                 end) now)).

Definition end_scan (scan_id : Z) (status : string)
    (total_found new_count updated_count removed_count : Z)
    (error_message : option string) : M unit :=
  _get_connection
    (now <- tx_datetime_now ;;
     execute (update_scan_log status now total_found new_count updated_count
                removed_count error_message scan_id)).

Definition _record_changes (incentive_id : Z) (old_data new_data : dict)
  : Tx unit :=
  for_each tracked_fields
    (fun field =>
       let old_value := tracked_value old_data field in
       let new_value := tracked_value new_data field in
       if negb (option_string_eqb old_value new_value)
       then execute_now (insert_change incentive_id field old_value new_value)
       else ret tt).

(** [record_incentive] from [now = datetime.now()] on. The text of the
    snapshot, [json.dumps(data, default=str)], is that of [json_text]: the
    integers it converts were converted for the hash. The values
    [_record_changes] stringifies are those of [data] and of a decoded
    snapshot, whose integers are within the limit as well. *)
Definition record_hashed (data_hash : string) (dsire_id : string) (data : dict)
  : M (bool * bool) :=
  now <- datetime_now ;;
  _get_connection
    (existing <- execute (fun db => inr (select_incentive dsire_id db, db)) ;;
     match existing with
     | None =>
         incentive_id <-
           execute_now (insert_incentive dsire_id
                          (dict_get data "name" (VStr "Unknown"))
                          (dict_get data "state" (VStr ""))
                          (dict_get data "program_type" (VStr ""))
                          now data_hash) ;;
         execute_now (insert_snapshot incentive_id
                        (json_text false (VDict data)) data_hash) ;;;
         ret (true, false)
     | Some existing =>
         let incentive_id := Incentive.id existing in
         let old_hash := Incentive.data_hash existing in
         execute (update_last_seen now incentive_id) ;;;
         if negb (String.eqb old_hash data_hash) then
           old_snapshot <-
             execute (fun db => inr (select_latest_snapshot incentive_id db, db)) ;;
           match old_snapshot with
           | Some snap =>
               match json_loads (Snapshot.data_json snap) with
               | inr (VDict old_data) =>
                   _record_changes incentive_id old_data data
               | inr old_data => raise (no_get old_data)
               | inl e => raise e
               end
           | None => ret tt
           end ;;;
           execute_now (insert_snapshot incentive_id
                          (json_text false (VDict data)) data_hash) ;;;
           execute (update_hash data_hash now incentive_id) ;;;
           ret (false, true)
         else ret (false, false)
     end).

(** [data_hash = self._compute_hash(data)] comes first: when it raises, the
    clock is not read and no connection is opened. *)
Definition record_incentive (dsire_id : string) (data : dict) : M (bool * bool) :=
  match _compute_hash data with
  | inl e => raise e
  | inr data_hash => record_hashed data_hash dsire_id data
  end.

Definition mark_inactive (dsire_ids : list string) : M unit :=
  match dsire_ids with
  | [] => ret tt
  | _ => _get_connection (execute (deactivate dsire_ids))
  end.

End Tracker.

(** ** [DSIREClient] *)

Definition BASE_URL : string := "https://programs.dsireusa.org".

Definition US_STATES : list string :=
  [ "AL"; "AK"; "AZ"; "AR"; "CA"; "CO"; "CT"; "DE"; "FL"; "GA";
    "HI"; "ID"; "IL"; "IN"; "IA"; "KS"; "KY"; "LA"; "ME"; "MD";
    "MA"; "MI"; "MN"; "MS"; "MO"; "MT"; "NE"; "NV"; "NH"; "NJ";
    "NM"; "NY"; "NC"; "ND"; "OH"; "OK"; "OR"; "PA"; "RI"; "SC";
    "SD"; "TN"; "TX"; "UT"; "VT"; "VA"; "WA"; "WV"; "WI"; "WY";
    "DC"; "PR"; "VI"; "GU"; "AS"; "MP" ].

(** The record [_normalize_program] builds from raw data, stamped with the
    text of the fetch time, when [str] and the f-string of [url] convert the
    id. *)
Definition normalized (data : dict) (scraped_at : string) : dict :=
  let get2 k1 k2 default := dict_get data k1 (dict_get data k2 default) in
  [ ("id", VStr (py_str (get2 "id" "program_id" (VStr ""))));
    ("name", get2 "name" "program_name" (VStr "Unknown Program"));
    ("state", get2 "state" "state_code" (VStr ""));
    ("program_type", get2 "program_type" "type" (VStr "Incentive"));
    ("implementing_sector", get2 "implementing_sector" "sector" (VStr ""));
    ("eligible_sectors", dict_get data "eligible_sectors" (VList []));
    ("technologies", get2 "technologies" "eligible_technologies" (VList []));
    ("incentive_amount", get2 "incentive_amount" "amount" (VStr ""));
    ("start_date", get2 "start_date" "effective_date" (VStr ""));
    ("end_date", get2 "end_date" "expiration_date" (VStr ""));
    ("date_enacted", get2 "date_enacted" "enacted_date" (VStr ""));
    ("description", get2 "description" "summary" (VStr ""));
    ("contact", dict_get data "contact" (VStr ""));
    ("website", dict_get data "website" (get2 "url" "web_site" (VStr "")));
    ("url", dict_get data "url"
              (VStr (BASE_URL ++ "/system/program/detail/"
                       ++ py_str (dict_get data "id" (VStr "")))));
    ("last_updated", get2 "last_updated" "modified_date" (VStr ""));
    ("scraped_at", VStr scraped_at) ].

(** [_normalize_program(data)] at the fetch time whose text is [scraped_at]:
    [str(data.get('id', data.get('program_id', '')))] and the f-string on
    [data.get('id', '')] raise ValueError for an [int] of more than 4300
    digits. *)
Definition _normalize_program (data : dict) (scraped_at : string) : exn + dict :=
  if ints_convertible
       (dict_get data "id" (dict_get data "program_id" (VStr "")))
     && ints_convertible (dict_get data "id" (VStr ""))
  then inr (normalized data scraped_at)
  else inl int_to_str_error.

(** One entry of the listing [_scrape_state_programs] builds. *)
Definition scraped_program (program_id program_name program_url state_code
    scraped_at : string) : dict :=
  [ ("id", VStr program_id); ("name", VStr program_name);
    ("url", VStr program_url); ("state", VStr state_code);
    ("scraped_at", VStr scraped_at) ].

(** The network side of the client: each call may change the network state
    and returns or raises. *)
Class Client (net : Type) : Type := {
  get_programs_by_state : string -> net -> (exn + list value) * net;
  get_program_details : string -> net -> (exn + option dict) * net }.

(** ** [DailyScheduler] and [ScanRunner] *)

Definition STATE_GROUPS : list (string * list string) :=
  [ ("northeast", ["CT"; "ME"; "MA"; "NH"; "RI"; "VT"; "NJ"; "NY"; "PA"]);
    ("southeast", ["DE"; "FL"; "GA"; "MD"; "NC"; "SC"; "VA"; "DC"; "WV"]);
    ("midwest", ["IL"; "IN"; "MI"; "OH"; "WI"; "IA"; "KS"; "MN"; "MO"; "NE";
                 "ND"; "SD"]);
    ("southwest", ["AZ"; "NM"; "OK"; "TX"]);
    ("west", ["CO"; "ID"; "MT"; "NV"; "UT"; "WY"; "AK"; "CA"; "HI"; "OR"; "WA"]);
    ("south", ["AL"; "KY"; "MS"; "TN"; "AR"; "LA"]) ].

Definition PRIORITY_STATES : list string :=
  ["NY"; "CA"; "TX"; "FL"; "PA"; "NJ"; "MA"; "CT"].

(** [datetime.weekday()] of a local time in microseconds since 1970-01-01:
    the proleptic ordinal of the day plus 6, modulo 7 (0 is Monday). *)
Definition weekday (now : Z) : Z :=
  let ordinal := 719163 + now / 86400000000 in
  (ordinal + 6) mod 7.

Definition str_in (x : string) (l : list string) : bool :=
  existsb (String.eqb x) l.

(** The result dictionary of a scan. *)
Record Results : Type := mkResults {
  r_scan_id : Z;
  r_scan_type : option string;
  r_states : list string;
  r_started_at : string;
  r_new_incentives : list value;
  r_updated_incentives : list value;
  r_total_found : Z;
  r_errors : list string;
  r_completed_at : option string;
  r_status : option string;
  r_error : option string }.

Record DailyScheduler : Type := mkScheduler {
  config : dict;
  _callbacks : list (Results -> exn + unit);
  requests_post : string -> Results -> exn + unit }.

(** The state a scan runs in. *)
Record ScanState (net : Type) : Type := mkScan {
  st_world : World;
  st_net : net;
  st_results : Results;
  st_found_ids : list string }.

Arguments mkScan {net}.
Arguments st_world {net}.
Arguments st_net {net}.
Arguments st_results {net}.
Arguments st_found_ids {net}.

Definition enumerate {A : Type} (l : list A) (start : nat) : list (nat * A) :=
  combine (seq start (List.length l)) l.

Definition Z_len {A : Type} (l : list A) : Z := Z.of_nat (List.length l).

Section Scans.

Context {oracle : Oracle} {net : Type} {client : Client net}.

(** A tracker call made by a scan. *)
Definition tracker {A : Type} (m : M A) : Eff (ScanState net) A :=
  fun st =>
    let (r, w) := m (st_world st) in
    (r, mkScan w (st_net st) (st_results st) (st_found_ids st)).

(** A client call made by a scan. *)
Definition call_client {A : Type} (f : net -> (exn + A) * net)
  : Eff (ScanState net) A :=
  fun st =>
    let (r, n) := f (st_net st) in
    (r, mkScan (st_world st) n (st_results st) (st_found_ids st)).

Definition results : Eff (ScanState net) Results :=
  fun st => (inr (st_results st), st).

Definition update_results (f : Results -> Results) : Eff (ScanState net) unit :=
  fun st =>
    (inr tt, mkScan (st_world st) (st_net st) (f (st_results st))
               (st_found_ids st)).

Definition add_found_id (k : string) : Eff (ScanState net) unit :=
  fun st =>
    (inr tt, mkScan (st_world st) (st_net st) (st_results st)
               (if str_in k (st_found_ids st) then st_found_ids st
                else st_found_ids st ++ [k])).

(** [datetime.now().isoformat()]. *)
Definition now_isoformat : Eff (ScanState net) string :=
  now <- tracker datetime_now ;; ret (isoformat now).

Definition append_new (x : value) (r : Results) : Results :=
  mkResults (r_scan_id r) (r_scan_type r) (r_states r) (r_started_at r)
    (r_new_incentives r ++ [x]) (r_updated_incentives r) (r_total_found r)
    (r_errors r) (r_completed_at r) (r_status r) (r_error r).

Definition append_updated (x : value) (r : Results) : Results :=
  mkResults (r_scan_id r) (r_scan_type r) (r_states r) (r_started_at r)
    (r_new_incentives r) (r_updated_incentives r ++ [x]) (r_total_found r)
    (r_errors r) (r_completed_at r) (r_status r) (r_error r).

Definition count_found (r : Results) : Results :=
  mkResults (r_scan_id r) (r_scan_type r) (r_states r) (r_started_at r)
    (r_new_incentives r) (r_updated_incentives r) (r_total_found r + 1)
    (r_errors r) (r_completed_at r) (r_status r) (r_error r).

Definition append_error (msg : string) (r : Results) : Results :=
  mkResults (r_scan_id r) (r_scan_type r) (r_states r) (r_started_at r)
    (r_new_incentives r) (r_updated_incentives r) (r_total_found r)
    (r_errors r ++ [msg]) (r_completed_at r) (r_status r) (r_error r).

Definition set_completed (at_ : string) (status : option string) (r : Results)
  : Results :=
  mkResults (r_scan_id r) (r_scan_type r) (r_states r) (r_started_at r)
    (r_new_incentives r) (r_updated_incentives r) (r_total_found r)
    (r_errors r) (Some at_) status (r_error r).

Definition set_failed (msg : string) (r : Results) : Results :=
  mkResults (r_scan_id r) (r_scan_type r) (r_states r) (r_started_at r)
    (r_new_incentives r) (r_updated_incentives r) (r_total_found r)
    (r_errors r) (r_completed_at r) (Some "failed") (Some msg).

(** [str(program.get('id', ''))]. *)
Definition program_id (program : value) : Eff (ScanState net) (string * dict) :=
  match program with
  | VDict d =>
      let id := dict_get d "id" (VStr "") in
      if ints_convertible id then ret (py_str id, d)
      else raise int_to_str_error
  | _ => raise (no_get program)
  end.

(** [details = self.client.get_program_details(dsire_id)], then
    [program.update(details)] when [details] is truthy. *)
Definition with_details (dsire_id : string) (program : dict)
  : Eff (ScanState net) dict :=
  details <- call_client (get_program_details dsire_id) ;;
  match details with
  | Some d => ret (dict_update program d)
  | None => ret program
  end.

(** *** [DailyScheduler] *)

Definition _get_states_for_today (self : DailyScheduler) : M (list string) :=
  today <- datetime_now ;;
  let states := PRIORITY_STATES in
  let group_names := map fst STATE_GROUPS in
  let day_of_week := weekday today in
  if (day_of_week =? 6)
     || py_truthy (dict_get (config self) "scan_all_states" VNone)
  then ret US_STATES
  else
    let group_index := day_of_week mod Z_len group_names in
    match nth_error group_names (Z.to_nat group_index) with
    | None => raise (Exception "IndexError" "list index out of range")
    | Some group_name =>
        match find (fun g => String.eqb (fst g) group_name) STATE_GROUPS with
        | None => raise (Exception "KeyError" group_name)
        | Some (_, group_states) =>
            ret (fold_left
                   (fun states state =>
                      if str_in state states then states else (states ++ [state])%list)
                   group_states states)
        end
    end.

Definition _notify_callbacks (self : DailyScheduler) (r : Results)
  : Eff (ScanState net) unit :=
  for_each (_callbacks self)
    (fun callback =>
       try_except
         (match callback r with
          | inl e => raise e
          | inr tt => ret tt
          end)
         (fun _ => ret tt)).

Definition _send_notifications (self : DailyScheduler) (r : Results)
  : Eff (ScanState net) unit :=
  match dict_get (config self) "notification_webhook" VNone with
  | VStr webhook_url =>
      if negb (String.eqb webhook_url "")
      then
        try_except
          (match requests_post self webhook_url r with
           | inl e => raise e
           | inr tt => ret tt
           end)
          (fun _ => ret tt)
      else ret tt
  | _ => ret tt
  end.

(** The body of [for program in programs] in [run_scan]. *)
Definition run_scan_program (self : DailyScheduler) (state : string)
    (program : value) : Eff (ScanState net) unit :=
  p <- program_id program ;;
  let (dsire_id, program) := p in
  if String.eqb dsire_id "" then ret tt
  else
    add_found_id dsire_id ;;;
    program <-
      (if py_truthy (dict_get (config self) "include_details" VNone)
       then with_details dsire_id program
       else ret program) ;;
    flags <- tracker (record_incentive dsire_id program) ;;
    let (is_new, is_updated) := flags in
    (if is_new then
       discovered_at <- now_isoformat ;;
       update_results
         (append_new
            (VDict [ ("dsire_id", VStr dsire_id);
                     ("name", dict_get program "name" (VStr "Unknown"));
                     ("state", VStr state);
                     ("program_type", dict_get program "program_type" (VStr ""));
                     ("discovered_at", VStr discovered_at) ]))
     else ret tt) ;;;
    (if is_updated then
       update_results
         (append_updated
            (VDict [ ("dsire_id", VStr dsire_id);
                     ("name", dict_get program "name" (VStr "Unknown"));
                     ("state", VStr state) ]))
     else ret tt) ;;;
    update_results count_found.

(** The inner [try] block of [run_scan], for one state. *)
Definition run_scan_fetch (self : DailyScheduler) (state : string)
  : Eff (ScanState net) unit :=
  programs <- call_client (get_programs_by_state state) ;;
  for_each programs (run_scan_program self state).

(** The body of [for idx, state in enumerate(states, 1)] in [run_scan]. *)
Definition run_scan_state (self : DailyScheduler) (state : string)
  : Eff (ScanState net) unit :=
  try_except
    (run_scan_fetch self state)
    (fun e =>
       let error_msg := "Error scanning " ++ state ++ ": " ++ exn_str e in
       update_results (append_error error_msg)).

(** The [try] block of [run_scan] and its handler. *)
Definition run_scan_body (self : DailyScheduler) (scan_id : Z)
    (states : list string) : Eff (ScanState net) unit :=
  try_except
    (for_each states (run_scan_state self) ;;;
     r <- results ;;
     tracker (end_scan scan_id "completed" (r_total_found r)
                (Z_len (r_new_incentives r)) (Z_len (r_updated_incentives r))
                0 None) ;;;
     completed_at <- now_isoformat ;;
     update_results (set_completed completed_at (Some "completed")) ;;;
     r <- results ;;
     match r_new_incentives r, r_updated_incentives r with
     | [], [] => ret tt
     | _, _ => _notify_callbacks self r ;;; _send_notifications self r
     end)
    (fun e =>
       let error_msg := exn_str e in
       tracker (end_scan scan_id "failed" 0 0 0 0 (Some error_msg)) ;;;
       update_results (set_failed error_msg)).

Definition run_scan (self : DailyScheduler) (states : list string)
    (scan_type : string) : Eff (World * net) Results :=
  fun wn =>
    let (w, n) := wn in
    let (r, w) :=
      match states with
      | [] => _get_states_for_today self w
      | _ => (inr states, w)
      end in
    match r with
    | inl e => (inl e, (w, n))
    | inr states =>
        match start_scan scan_type states w with
        | (inl e, w) => (inl e, (w, n))
        | (inr scan_id, w) =>
            let (started_at, w) := datetime_now w in
            let started_at :=
              match started_at with
              | inr t => isoformat t
              | inl _ => ""
              end in
            let st :=
              mkScan w n
                (mkResults scan_id (Some scan_type) states started_at [] [] 0 []
                   None None None) [] in
            match run_scan_body self scan_id states st with
            | (inl e, st) => (inl e, (st_world st, st_net st))
            | (inr _, st) => (inr (st_results st), (st_world st, st_net st))
            end
        end
    end.

(** *** [ScanRunner] *)

(** The body of [for program in programs] in [scan_states]. *)
Definition scan_states_program (include_details : bool) (program : value)
  : Eff (ScanState net) unit :=
  p <- program_id program ;;
  let (dsire_id, program) := p in
  if String.eqb dsire_id "" then ret tt
  else
    program <-
      (if include_details then with_details dsire_id program
       else ret program) ;;
    flags <- tracker (record_incentive dsire_id program) ;;
    let (is_new, is_updated) := flags in
    (if is_new then update_results (append_new (VDict program)) else ret tt) ;;;
    (if is_updated then update_results (append_updated (VDict program))
     else ret tt) ;;;
    update_results count_found.

(** The [try] block of [scan_states], for one state. *)
Definition scan_states_fetch (include_details : bool) (state : string)
  : Eff (ScanState net) unit :=
  programs <- call_client (get_programs_by_state state) ;;
  for_each programs (scan_states_program include_details).

(** The body of [for idx, state in enumerate(states, 1)] in [scan_states]. *)
Definition scan_states_state (include_details : bool)
    (progress_callback : option (string -> nat -> nat -> exn + unit))
    (total : nat) (idx_state : nat * string) : Eff (ScanState net) unit :=
  let (idx, state) := idx_state in
  match progress_callback with
  | Some callback =>
      match callback ("Scanning " ++ state) idx total with
      | inl e => raise e
      | inr _ => ret tt
      end
  | None => ret tt
  end ;;;
  try_except
    (scan_states_fetch include_details state)
    (fun e => update_results (append_error (state ++ ": " ++ exn_str e))).

Definition scan_states (states : list string) (include_details : bool)
    (progress_callback : option (string -> nat -> nat -> exn + unit))
  : Eff (World * net) Results :=
  fun wn =>
    let (w, n) := wn in
    match start_scan "manual" states w with
    | (inl e, w) => (inl e, (w, n))
    | (inr scan_id, w) =>
        let (started_at, w) := datetime_now w in
        let started_at :=
          match started_at with
          | inr t => isoformat t
          | inl _ => ""
          end in
        let st :=
          mkScan w n
            (mkResults scan_id None states started_at [] [] 0 [] None None None)
            [] in
        let body :=
          for_each (enumerate states 1)
            (scan_states_state include_details progress_callback
               (List.length states)) ;;;
          r <- results ;;
          tracker (end_scan scan_id "completed" (r_total_found r)
                     (Z_len (r_new_incentives r))
                     (Z_len (r_updated_incentives r)) 0 None) ;;;
          completed_at <- now_isoformat ;;
          update_results (set_completed completed_at None) in
        match body st with
        | (inl e, st) => (inl e, (st_world st, st_net st))
        | (inr _, st) => (inr (st_results st), (st_world st, st_net st))
        end
    end.

End Scans.

(** ** Vocabulary of the statements *)

(** An environment in which no storage operation fails. *)
Definition storage_never_fails (oracle : Oracle) : Prop :=
  forall k, storage_fails k = false.

(** What one change event records: field, old text, new text. *)
Definition change_spec : Type := (string * option string * option string)%type.

(** The fields of [fields], in order, whose tracked texts differ between the
    two payloads, each with both texts. *)
Definition changed_among (fields : list string) (old_data new_data : dict)
  : list change_spec :=
  flat_map
    (fun field =>
       let old_value := tracked_value old_data field in
       let new_value := tracked_value new_data field in
       if option_string_eqb old_value new_value then []
       else [(field, old_value, new_value)])
    fields.

Definition changed_fields (old_data new_data : dict) : list change_spec :=
  changed_among tracked_fields old_data new_data.

Definition spec_of_change (r : Change.row) : change_spec :=
  (Change.field_name r, Change.old_value r, Change.new_value r).

(** The rows written for a list of changes, the first of them at the k-th
    clock reading, on top of the rows of [table]. *)
Fixpoint change_rows {oracle : Oracle} (incentive_id : Z)
    (changes : list change_spec) (k : nat) (table : list Change.row)
  : list Change.row :=
  match changes with
  | [] => []
  | (field, old, new) :: changes' =>
      let r := Change.mk (next_rowid (map Change.id table)) incentive_id field
                 old new (clock_us k / 1000000) in
      r :: change_rows incentive_id changes' (S k) (table ++ [r])
  end.

(** The payload an update is compared with: the decoded latest snapshot of
    the entity, if it has one. *)
Definition diff_base (incentive_id : Z) (db : Store) : exn + option dict :=
  match select_latest_snapshot incentive_id db with
  | None => inr None
  | Some snap =>
      match json_loads (Snapshot.data_json snap) with
      | inr (VDict old_data) => inr (Some old_data)
      | inr old_data => inl (no_get old_data)
      | inl e => inl e
      end
  end.

(** The changes an update records against its base. *)
Definition changes_against (base : option dict) (new_data : dict)
  : list change_spec :=
  match base with
  | Some old_data => changed_fields old_data new_data
  | None => []
  end.

(** The file after the first observation of an entity. *)
Definition store_after_insert {oracle : Oracle} (key : string)
    (name state program_type : sql_value) (data : dict) (w : World) : Store :=
  let hash := payload_hash data in
  let now := clock_us (clock_reads w) in
  let r := new_incentive key name state program_type now hash
             (clock_us (1 + clock_reads w) / 1000000) (disk w) in
  let db := append_incentive r (disk w) in
  append_snapshot
    (new_snapshot (Incentive.id r) (json_text false (VDict data)) hash
       (clock_us (2 + clock_reads w) / 1000000) db) db.

(** The file after an observation whose hash is the stored one. *)
Definition store_after_unchanged {oracle : Oracle} (incentive_id : Z) (w : World)
  : Store :=
  map_incentives (touch_last_seen (clock_us (clock_reads w)) incentive_id) (disk w).

(** The file after an observation whose hash differs from the stored one. *)
Definition store_after_update {oracle : Oracle} (incentive_id : Z)
    (changes : list change_spec) (data : dict) (w : World) : Store :=
  let hash := payload_hash data in
  let now := clock_us (clock_reads w) in
  let n := List.length changes in
  let db := disk w in
  let snapshot :=
    Snapshot.mk (next_rowid (map Snapshot.id (incentive_snapshots db)))
      incentive_id (json_text false (VDict data)) hash
      (clock_us (n + (1 + clock_reads w)) / 1000000) in
  mkStore
    (map (touch_hash hash now incentive_id)
       (map (touch_last_seen now incentive_id) (incentives db)))
    (incentive_snapshots db ++ [snapshot])
    (incentive_changes db
     ++ change_rows incentive_id changes (1 + clock_reads w)
          (incentive_changes db))
    (scan_logs db).

(** The change rows of one field. *)
Definition rows_for (field : string) (rows : list Change.row) : list Change.row :=
  filter (fun r => String.eqb (Change.field_name r) field) rows.

(** Whether a tracked entity is stored under the key. *)
Definition tracked (key : string) (db : Store) : Prop :=
  select_incentive key db <> None.

(** The row of a scan run. *)
Definition scan_log (scan_id : Z) (db : Store) : option ScanLog.row :=
  find (fun r => ScanLog.id r =? scan_id) (scan_logs db).

(** The test both scan loops apply before [continue]: the record is a dict
    and [str(program.get('id', ''))] is empty. *)
Definition skipped (program : value) : bool :=
  match program with
  | VDict d => String.eqb (py_str (dict_get d "id" (VStr ""))) ""
  | _ => false
  end.

(** Every scope of the list is fetched and processed without an exception,
    one after the other from the given state. *)
Fixpoint scopes_succeed {S : Type} (fetch : string -> Eff S unit)
    (states : list string) (st : S) : Prop :=
  match states with
  | [] => True
  | state :: states' =>
      exists st', fetch state st = (inr tt, st')
                  /\ scopes_succeed fetch states' st'
  end.

(** A progress callback that never raises (or none). *)
Definition quiet (progress_callback : option (string -> nat -> nat -> exn + unit))
  : Prop :=
  match progress_callback with
  | Some callback => forall msg idx total, callback msg idx total = inr tt
  | None => True
  end.

(** The shape both scans share: fetch the records of a scope and run the
    loop body on each; catch what this raises and append a scope-tagged
    message to the errors; do so for each scope in turn. *)
Definition scope_fetch {net : Type} {client : Client net}
    (body : string -> value -> Eff (ScanState net) unit) (state : string)
  : Eff (ScanState net) unit :=
  bind (call_client (get_programs_by_state state))
       (fun programs => for_each programs (body state)).

Definition scope_step {net : Type} {client : Client net}
    (body : string -> value -> Eff (ScanState net) unit)
    (message : string -> exn -> string) (state : string)
  : Eff (ScanState net) unit :=
  try_except (scope_fetch body state)
    (fun e => update_results (append_error (message state e))).

Definition scan_scopes {net : Type} {client : Client net}
    (body : string -> value -> Eff (ScanState net) unit)
    (message : string -> exn -> string) (states : list string)
  : Eff (ScanState net) unit :=
  for_each states (scope_step body message).

(** The error entries of the two scans. *)
Definition run_scan_error (state : string) (e : exn) : string :=
  "Error scanning " ++ state ++ ": " ++ exn_str e.

Definition scan_states_error (state : string) (e : exn) : string :=
  state ++ ": " ++ exn_str e.

(** The scan state after a scope whose fetch raised [e] and left the
    network in [n]. *)
Definition after_failed_fetch {net : Type} (message : string) (n : net)
    (st : ScanState net) : ScanState net :=
  mkScan (st_world st) n (append_error message (st_results st))
    (st_found_ids st).

(** The state in which a scan enters its loop over the scopes, once
    [start_scan] has returned [scan_id] and left the process in [w]: the
    clock is read for [started_at] and nothing is found yet. *)
Definition entering {oracle : Oracle} {net : Type} (scan_type : option string)
    (scan_id : Z) (states : list string) (w : World) (n : net)
  : ScanState net :=
  let (started_at, w) := datetime_now w in
  let started_at :=
    match started_at with
    | inr t => isoformat t
    | inl _ => ""
    end in
  mkScan w n
    (mkResults scan_id scan_type states started_at [] [] 0 [] None None None)
    [].

(** The row of a run after the one UPDATE that closes it. *)
Definition closed_row (status : string) (error_message : option string)
    (completed total new_count updated_count : Z) (opened : ScanLog.row)
  : ScanLog.row :=
  ScanLog.mk (ScanLog.id opened) (ScanLog.scan_type opened)
    (ScanLog.states_scanned opened) total new_count updated_count 0
    (ScanLog.started_at opened) (Some completed) status error_message.

(** The [end_scan] by which a scan that leaves its loop in [st] closes its
    run as completed, with the counts of its results. *)
Definition closing {oracle : Oracle} {net : Type} (scan_id : Z)
    (st : ScanState net) : (exn + unit) * World :=
  let r := st_results st in
  end_scan scan_id "completed" (r_total_found r) (Z_len (r_new_incentives r))
    (Z_len (r_updated_incentives r)) 0 None (st_world st).

(** The row of a run closed as completed by a scan that left its loop in
    [st]. *)
Definition completed_row {oracle : Oracle} {net : Type} (st : ScanState net)
    (opened : ScanLog.row) : ScanLog.row :=
  let r := st_results st in
  closed_row "completed" None (clock_us (clock_reads (st_world st)))
    (r_total_found r) (Z_len (r_new_incentives r))
    (Z_len (r_updated_incentives r)) opened.

(** The records of a fetched list that have an id. *)
Definition with_id (programs : list value) : list dict :=
  flat_map (fun program =>
              match program with
              | VDict d => if skipped program then [] else [d]
              | _ => []
              end) programs.

(** The payload a scan records for a fetched record: the record itself, or,
    when details are fetched, the record updated with them. *)
Definition payload_of (include_details : bool) (record payload : dict) : Prop :=
  payload = record
  \/ (include_details = true
      /\ exists details, payload = dict_update record details).

(** The process goes from [w] to [w'] by one returning [record_incentive]
    call for each of the records, in order, under the id of the record and
    with its payload, and by nothing else but the clock reading that follows
    the observation of a new entity in a scan that announces it. *)
Inductive observed {oracle : Oracle} (announce include_details : bool)
  : list dict -> World -> World -> Prop :=
| observed_none w : observed announce include_details [] w w
| observed_next record records payload flags w w1 w' :
    payload_of include_details record payload ->
    record_incentive (py_str (dict_get record "id" (VStr ""))) payload w
    = (inr flags, w1) ->
    observed announce include_details records
      (if announce && fst flags then snd (datetime_now w1) else w1) w' ->
    observed announce include_details (record :: records) w w'.

(** The records with an id that the client returns for the scopes, fetched
    in turn as the scan proceeds from [st]. *)
Fixpoint fetched {oracle : Oracle} {net : Type} {client : Client net}
    (body : string -> value -> Eff (ScanState net) unit)
    (message : string -> exn -> string) (states : list string)
    (st : ScanState net) : list dict :=
  match states with
  | [] => []
  | state :: states' =>
      (match get_programs_by_state state (st_net st) with
       | (inr programs, _) => with_id programs
       | (inl _, _) => []
       end ++ fetched body message states'
                (snd (scope_step body message state st)))%list
  end.

(** A scan tolerates a scope whose fetch raises: when the scopes before and
    after it succeed, the scan returns its results; their errors are exactly
    the entry of the failing scope; every record with an id of the other
    scopes has been observed, in order, and nothing else has changed the
    entities, snapshots and changes; the records are counted; and the run
    is closed as completed with their count. *)
Definition tolerates_failing_scope {oracle : Oracle} {net : Type}
    {client : Client net}
    (body : string -> value -> Eff (ScanState net) unit)
    (message : string -> exn -> string)
    (announce include_details : bool)
    (scan_type : string) (label status : option string)
    (scan : list string -> Eff (World * net) Results) : Prop :=
  forall before failing later w n scan_id w1 e n1,
    let states := (before ++ failing :: later)%list in
    start_scan scan_type states w = (inr scan_id, w1) ->
    let st0 := entering label scan_id states w1 n in
    scopes_succeed (scope_fetch body) before st0 ->
    let st1 := snd (scan_scopes body message before st0) in
    get_programs_by_state failing (st_net st1) = (inl e, n1) ->
    let st2 := after_failed_fetch (message failing e) n1 st1 in
    scopes_succeed (scope_fetch body) later st2 ->
    let records :=
      (fetched body message before st0 ++ fetched body message later st2)%list in
    exists res w' n' loop_end row,
      scan states (w, n) = (inr res, (w', n'))
      /\ r_errors res = [message failing e]
      /\ r_status res = status
      /\ r_total_found res = Z_len records
      /\ observed announce include_details records (st_world st0) loop_end
      /\ incentives (disk w') = incentives (disk loop_end)
      /\ incentive_snapshots (disk w') = incentive_snapshots (disk loop_end)
      /\ incentive_changes (disk w') = incentive_changes (disk loop_end)
      /\ scan_log scan_id (disk w') = Some row
      /\ ScanLog.status row = "completed"
      /\ ScanLog.total_found row = Z_len records.

(** Whether the INSERT of a new entity accepts the payload: [name], [state]
    and [program_type] bind, and [name] is not NULL. *)
Definition insertable (data : dict) : bool :=
  match bind_param 2 (dict_get data "name" (VStr "Unknown")),
        bind_param 3 (dict_get data "state" (VStr "")),
        bind_param 4 (dict_get data "program_type" (VStr "")) with
  | inr SqlNull, _, _ => false
  | inr _, inr _, inr _ => true
  | _, _, _ => false
  end.

(** No text occurs twice in the list. *)
Fixpoint str_nodup (l : list string) : bool :=
  match l with
  | [] => true
  | x :: l' => negb (str_in x l') && str_nodup l'
  end.

(** *** Preservation along transactions and scans *)

(** A transaction body that only works through the connection's view: the
    file itself is not written while the body runs. *)
Definition keeps_file {A : Type} (m : Tx A) : Prop :=
  forall c r c', m c = (r, c') -> disk (world c') = disk (world c).

(** Entities stay tracked and the scan log is not written. *)
Definition store_grows (db db' : Store) : Prop :=
  (forall key, tracked key db -> tracked key db')
  /\ scan_logs db' = scan_logs db.

(** Every run of [m] relates the state it starts from to the state it
    leaves, whether it returns or raises. *)
Definition within {net : Type} (R : ScanState net -> ScanState net -> Prop)
    {A : Type} (m : Eff (ScanState net) A) : Prop :=
  forall st r st', m st = (r, st') -> R st st'.

(** The store only grows along a scan. *)
Definition scan_grows {net : Type} (st st' : ScanState net) : Prop :=
  store_grows (disk (st_world st)) (disk (st_world st')).

(** The scan appends no error. *)
Definition same_errors {net : Type} (st st' : ScanState net) : Prop :=
  r_errors (st_results st') = r_errors (st_results st).

(** *** Payloads *)

(** Payloads equal in every field except [scraped_at]. *)
Definition same_but_scraped_at (p1 p2 : dict) : Prop :=
  forall field, field <> "scraped_at" ->
    dict_lookup p1 field = dict_lookup p2 field.

(** *** JSON values *)

(** A JSON value as Python holds it: no dict has a key twice. *)
Fixpoint well_formed (v : value) : Prop :=
  match v with
  | VList l =>
      (fix all (l : list value) : Prop :=
         match l with
         | [] => True
         | x :: l' => well_formed x /\ all l'
         end) l
  | VDict d =>
      NoDup (map fst d)
      /\ (fix all (d : list (string * value)) : Prop :=
            match d with
            | [] => True
            | kx :: d' => well_formed (snd kx) /\ all d'
            end) d
  | _ => True
  end.

(** The number of nodes of a value, items of lists and dicts counted. *)
Fixpoint value_size (v : value) : nat :=
  match v with
  | VList l =>
      S ((fix sum (l : list value) : nat :=
            match l with
            | [] => O
            | x :: l' => S (value_size x + sum l')
            end) l)
  | VDict d =>
      S ((fix sum (d : list (string * value)) : nat :=
            match d with
            | [] => O
            | kx :: d' => S (value_size (snd kx) + sum d')
            end) d)
  | _ => 1%nat
  end.

(** The text does not go on with a decimal digit. *)
Definition no_digit_head (s : string) : Prop :=
  match s with
  | String c _ => is_digit c = false
  | EmptyString => True
  end.


(** ** Sample environments *)

(** No storage failure; the clock advances five seconds per reading. *)
Definition slow_clock : Oracle :=
  {| clock_us := fun k => 5000000 * Z.of_nat k;
     storage_fails := fun _ => false;
     isoformat := str_int |}.

(** No storage failure; the clock advances a tenth of a second per
    reading. *)
Definition fast_clock : Oracle :=
  {| clock_us := fun k => 100000 * Z.of_nat k;
     storage_fails := fun _ => false;
     isoformat := str_int |}.

(** A process that has just created its database. *)
Definition fresh_world : World := mkWorld _init_database 0 0.

(** The process after one more observation. *)
Definition after {oracle : Oracle} (key : string) (data : dict) (w : World)
  : World :=
  snd (record_incentive key data w).

Definition payload_100 : dict :=
  [("name", VStr "X"); ("incentive_amount", VStr "$100")].

Definition payload_200 : dict :=
  [("name", VStr "X"); ("incentive_amount", VStr "$200")].

Definition amount_100 : dict := [("name", VStr "X"); ("amount", VStr "$100")].

Definition amount_200 : dict := [("name", VStr "X"); ("amount", VStr "$200")].

Definition payload_ab : dict := [("a", VInt 1); ("b", VInt 2)].

Definition payload_ba : dict := [("b", VInt 2); ("a", VInt 1)].

(** The process after a first observation of entity "7", five seconds per
    clock reading. *)
Definition world_100 : World :=
  Eval vm_compute in @after slow_clock "7" payload_100 fresh_world.

Definition no_incentive : Incentive.row :=
  Incentive.mk 0 "" SqlNull SqlNull SqlNull 0 0 None "" false 0.

(** The entity row of "7" in [world_100]. *)
Definition entity_100 : Incentive.row :=
  Eval vm_compute in
    match select_incentive "7" (disk world_100) with
    | Some e => e
    | None => no_incentive
    end.

Definition no_snapshot : Snapshot.row := Snapshot.mk 0 0 "" "" 0.

(** The snapshot of "7" in [world_100]. *)
Definition snapshot_100 : Snapshot.row :=
  Eval vm_compute in
    match select_max_id_snapshot 1 (disk world_100) with
    | Some s => s
    | None => no_snapshot
    end.

(** Payloads whose [eligible_sectors] differ, both being falsy. *)
Definition sectors_list : dict :=
  [("name", VStr "X"); ("eligible_sectors", VList [])].

Definition sectors_text : dict :=
  [("name", VStr "X"); ("eligible_sectors", VStr "")].

(** Payloads that differ in two tracked fields. *)
Definition two_fields_old : dict :=
  [("name", VStr "X"); ("contact", VStr "a")].

Definition two_fields_new : dict :=
  [("name", VStr "Y"); ("contact", VStr "b")].

Definition null_name : dict := [("name", VNone)].

(** A payload with an integer of 4301 digits. *)
Definition long_amount : dict :=
  [("name", VStr "X"); ("incentive_amount", VInt (10 ^ 4300))].

(** A network on which the listing of scope "B" cannot be fetched and every
    other scope lists one program. *)
Definition flaky_client : Client unit :=
  {| get_programs_by_state := fun state n =>
       if String.eqb state "B"
       then (inl (Exception "ConnectionError" "connection refused"), n)
       else (inr [VDict [("id", VStr (state ++ "-1")); ("name", VStr "Program")]],
             n);
     get_program_details := fun _ n => (inr None, n) |}.

(** Storage that fails once, at its seventh operation: with one scope of
    one program this is the UPDATE by which a scan closes its run. *)
Definition failing_close : Oracle :=
  {| clock_us := fun k => 5000000 * Z.of_nat k;
     storage_fails := fun k => Nat.eqb k 6;
     isoformat := str_int |}.

Definition plain_scheduler : DailyScheduler :=
  mkScheduler [] [] (fun _ _ => inr tt).

(** The record the client builds for one upstream program, fetched at the
    time whose text is [scraped_at]. *)
Definition stamped (scraped_at : string) : dict :=
  normalized [("id", VStr "7"); ("name", VStr "X")] scraped_at.

Definition monday : string := "2026-01-05T06:00:00.000000".

Definition tuesday : string := "2026-01-06T06:00:00.000000".









(** ** Vocabulary of the further properties *)

(** *** Reachable stores *)

(** One call of a writing operation of the tracker, whatever its outcome. *)
Inductive tracker_step {oracle : Oracle} : World -> World -> Prop :=
| step_record_incentive key data w r w' :
    record_incentive key data w = (r, w') -> tracker_step w w'
| step_mark_inactive dsire_ids w r w' :
    mark_inactive dsire_ids w = (r, w') -> tracker_step w w'
| step_start_scan scan_type states w r w' :
    start_scan scan_type states w = (r, w') -> tracker_step w w'
| step_end_scan scan_id status total new_count updated_count removed_count
    error_message w r w' :
    end_scan scan_id status total new_count updated_count removed_count
      error_message w = (r, w') ->
    tracker_step w w'.

(** Any number of such calls. *)
Inductive tracker_steps {oracle : Oracle} : World -> World -> Prop :=
| steps_none w : tracker_steps w w
| steps_more w1 w2 w3 :
    tracker_steps w1 w2 -> tracker_step w2 w3 -> tracker_steps w1 w3.

(** What a process reaches from the database [_init_database] creates. *)
Definition reachable {oracle : Oracle} (w : World) : Prop :=
  exists k io, tracker_steps (mkWorld _init_database k io) w.

(** The ways one call changes the file. *)
Inductive store_change {oracle : Oracle} (w : World) : Store -> Prop :=
| change_none : store_change w (disk w)
| change_insert key name state program_type data :
    select_incentive key (disk w) = None ->
    store_change w (store_after_insert key name state program_type data w)
| change_unchanged key e :
    select_incentive key (disk w) = Some e ->
    store_change w (store_after_unchanged (Incentive.id e) w)
| change_update key e base data :
    select_incentive key (disk w) = Some e ->
    store_change w
      (store_after_update (Incentive.id e) (changes_against base data) data w)
| change_inactive keys :
    store_change w (map_incentives (set_inactive keys) (disk w))
| change_scan_opened scan_type states started :
    store_change w
      (append_scan_log (new_scan_log scan_type states started (disk w)) (disk w))
| change_scan_closed status t a b c d err scan_id :
    store_change w
      (map_scan_logs (close_scan_log status t a b c d err scan_id) (disk w)).

(** Every entity carries the hash of its snapshot of greatest id, the
    snapshot [get_new_incentives] joins. *)
Definition hash_of_newest_snapshot (db : Store) : Prop :=
  forall e, In e (incentives db) ->
    exists s, select_max_id_snapshot (Incentive.id e) db = Some s
              /\ Snapshot.data_hash s = Incentive.data_hash e.

(** Every snapshot belongs to an entity. *)
Definition snapshots_owned (db : Store) : Prop :=
  forall s, In s (incentive_snapshots db) ->
    exists e, In e (incentives db) /\ Incentive.id e = Snapshot.incentive_id s.

(** Every change row belongs to an entity, names a tracked field and holds
    two different texts. *)
Definition changes_well_formed (db : Store) : Prop :=
  forall c, In c (incentive_changes db) ->
    (exists e, In e (incentives db) /\ Incentive.id e = Change.incentive_id c)
    /\ In (Change.field_name c) tracked_fields
    /\ Change.old_value c <> Change.new_value c.

Definition store_invariant (db : Store) : Prop :=
  NoDup (map Incentive.dsire_id (incentives db))
  /\ NoDup (map Incentive.id (incentives db))
  /\ hash_of_newest_snapshot db
  /\ snapshots_owned db
  /\ changes_well_formed db.

(** The columns of an entity row that no statement writes after the INSERT. *)
Definition same_identity (e e' : Incentive.row) : Prop :=
  Incentive.id e' = Incentive.id e
  /\ Incentive.dsire_id e' = Incentive.dsire_id e
  /\ Incentive.name e' = Incentive.name e
  /\ Incentive.state e' = Incentive.state e
  /\ Incentive.program_type e' = Incentive.program_type e
  /\ Incentive.first_seen_at e' = Incentive.first_seen_at e
  /\ Incentive.created_at e' = Incentive.created_at e.

(** The tables of [db'] extend those of [db]: no entity, snapshot, change
    row or scan run of [db] is removed, and no snapshot or change row is
    rewritten. *)
Definition store_extends (db db' : Store) : Prop :=
  (exists rows, incentive_snapshots db'
                = (incentive_snapshots db ++ rows)%list)
  /\ (exists rows, incentive_changes db'
                   = (incentive_changes db ++ rows)%list)
  /\ (exists keys, map Incentive.dsire_id (incentives db')
                   = (map Incentive.dsire_id (incentives db) ++ keys)%list)
  /\ (exists ids, map ScanLog.id (scan_logs db')
                  = (map ScanLog.id (scan_logs db) ++ ids)%list).

(** The process after an update of entity "7". *)
Definition world_200 : World :=
  Eval vm_compute in @after slow_clock "7" payload_200 world_100.

(** The process after entity "7" has been marked inactive. *)
Definition world_inactive : World :=
  Eval vm_compute in snd (@mark_inactive slow_clock ["7"] world_100).

(** The counters of a scan: the records counted as new or updated are among
    the records counted as found. *)
Definition counts_bounded (r : Results) : Prop :=
  Z_len (r_new_incentives r) + Z_len (r_updated_incentives r)
  <= r_total_found r.

(** The scan keeps its counters bounded. *)
Definition keeps_counts {net : Type} (st st' : ScanState net) : Prop :=
  counts_bounded (st_results st) -> counts_bounded (st_results st').

(** The scan leaves its result dictionary as it is. *)
Definition same_results {net : Type} (st st' : ScanState net) : Prop :=
  st_results st' = st_results st.

(** A clock that reads Thursday, 1 January 1970. *)
Definition thursday_clock : Oracle :=
  {| clock_us := fun _ => 0;
     storage_fails := fun _ => false;
     isoformat := str_int |}.


(** ** Facts *)

Example md5_empty : Md5.hexdigest (utf8_encode "") = "d41d8cd98f00b204e9800998ecf8427e".
Proof. vm_compute. reflexivity. Qed.

Example md5_abc : Md5.hexdigest (utf8_encode "abc") = "900150983cd24fb0d6963f7d28e17f72".
Proof. vm_compute. reflexivity. Qed.


(** *** The effect monad *)

Lemma bind_inr {S A B : Type} (m : Eff S A) (k : A -> Eff S B) s b s'' :
  bind m k s = (inr b, s'') ->
  exists a s', m s = (inr a, s') /\ k a s' = (inr b, s'').
Proof.
  unfold bind. destruct (m s) as [[e | a] s']; intros H.
  - discriminate.
  - exists a, s'. split; [reflexivity | exact H].
Qed.

Lemma bind_inl {S A B : Type} (m : Eff S A) (k : A -> Eff S B) s e s'' :
  bind m k s = (inl e, s'') ->
  m s = (inl e, s'') \/ exists a s', m s = (inr a, s') /\ k a s' = (inl e, s'').
Proof.
  unfold bind. destruct (m s) as [[e' | a] s']; intros H.
  - left. injection H as -> ->. reflexivity.
  - right. exists a, s'. split; [reflexivity | exact H].
Qed.

Lemma bind_step {S A B : Type} (m : Eff S A) (k : A -> Eff S B) s a s' :
  m s = (inr a, s') -> bind m k s = k a s'.
Proof. intros H. unfold bind. rewrite H. reflexivity. Qed.

Lemma bind_raise {S A B : Type} (m : Eff S A) (k : A -> Eff S B) s e s' :
  m s = (inl e, s') -> bind m k s = (inl e, s').
Proof. intros H. unfold bind. rewrite H. reflexivity. Qed.

Lemma for_each_app {S A : Type} (l1 l2 : list A) (body : A -> Eff S unit) s :
  for_each (l1 ++ l2) body s =
  bind (for_each l1 body) (fun _ => for_each l2 body) s.
Proof.
  revert s. induction l1 as [| x l1 IH]; intros s; simpl.
  - reflexivity.
  - unfold bind in *. destruct (body x s) as [[e | []] s1].
    + reflexivity.
    + apply IH.
Qed.

(** *** Connections and transactions *)

Section ConnectionFacts.

Context {oracle : Oracle}.

Lemma keeps_file_ret {A : Type} (a : A) : keeps_file (ret a).
Proof. intros c r c' H. injection H as _ <-. reflexivity. Qed.

Lemma keeps_file_raise {A : Type} (e : exn) : keeps_file (@raise Conn A e).
Proof. intros c r c' H. injection H as _ <-. reflexivity. Qed.

Lemma keeps_file_bind {A B : Type} (m : Tx A) (k : A -> Tx B) :
  keeps_file m -> (forall a, keeps_file (k a)) -> keeps_file (bind m k).
Proof.
  intros Hm Hk c r c'. unfold bind.
  destruct (m c) as [[e | a] c1] eqn:E; intros H.
  - injection H as _ <-. exact (Hm _ _ _ E).
  - rewrite (Hk a _ _ _ H). exact (Hm _ _ _ E).
Qed.

Lemma keeps_file_for_each {A : Type} (l : list A) (body : A -> Tx unit) :
  (forall x, keeps_file (body x)) -> keeps_file (for_each l body).
Proof.
  intros Hb. induction l as [| x l IH]; simpl.
  - apply keeps_file_ret.
  - apply keeps_file_bind; [apply Hb | intros _; exact IH].
Qed.

Lemma keeps_file_now : keeps_file tx_datetime_now.
Proof. intros c r c' H. injection H as _ <-. reflexivity. Qed.

Lemma keeps_file_execute {A : Type} (stmt : Store -> exn + (A * Store)) :
  keeps_file (execute stmt).
Proof.
  intros c r c'. unfold execute.
  destruct (storage_fails (io_ops (world c))).
  - intros H. injection H as _ <-. reflexivity.
  - destruct (stmt (view c)) as [e | [a db]]; intros H;
      injection H as _ <-; reflexivity.
Qed.

Lemma keeps_file_execute_now {A : Type} (stmt : Z -> Store -> exn + (A * Store)) :
  keeps_file (execute_now stmt).
Proof.
  intros c r c'. unfold execute_now.
  destruct (storage_fails (io_ops (world c))).
  - intros H. injection H as _ <-. reflexivity.
  - destruct (stmt _ (view c)) as [e | [a db]]; intros H;
      injection H as _ <-; reflexivity.
Qed.

(** A raising [with] block leaves the file as it was. *)
Lemma get_connection_raise {A : Type} (body : Tx A) w e w' :
  keeps_file body ->
  _get_connection body w = (inl e, w') -> disk w' = disk w.
Proof.
  intros Hk. unfold _get_connection.
  destruct (body (connect w)) as [[e' | a] c] eqn:Hb.
  - intros H. injection H as _ <-. exact (Hk _ _ _ Hb).
  - destruct (storage_fails (io_ops (world c))); intros H.
    + injection H as _ <-. exact (Hk _ _ _ Hb).
    + discriminate.
Qed.

(** A returning [with] block publishes the view its body built. *)
Lemma get_connection_return {A : Type} (body : Tx A) w a w' :
  _get_connection body w = (inr a, w') ->
  exists c, body (connect w) = (inr a, c) /\ disk w' = view c
            /\ clock_reads w' = clock_reads (world c).
Proof.
  unfold _get_connection.
  destruct (body (connect w)) as [[e' | a'] c] eqn:Hb.
  - discriminate.
  - destruct (storage_fails (io_ops (world c))); intros H.
    + discriminate.
    + injection H as -> <-. exists c. repeat split.
Qed.

End ConnectionFacts.

(** *** Running [record_incentive] when storage does not fail *)

Ltac tx_simpl :=
  cbn [world view io_ops clock_reads disk connect bump_io bump_clock close
       commit rollback].

Ltac tx_simpl_in H :=
  cbn [world view io_ops clock_reads disk connect bump_io bump_clock close
       commit rollback] in H.

Section TrackerRuns.

Context {oracle : Oracle}.
Hypothesis no_fault : storage_never_fails oracle.

Lemma record_changes_among_run incentive_id old_data new_data fields c :
  for_each fields
    (fun field =>
       let old_value := tracked_value old_data field in
       let new_value := tracked_value new_data field in
       if negb (option_string_eqb old_value new_value)
       then execute_now (insert_change incentive_id field old_value new_value)
       else ret tt) c =
  let changes := changed_among fields old_data new_data in
  let n := List.length changes in
  let db := view c in
  (inr tt,
   mkConn (mkWorld (disk (world c)) (n + clock_reads (world c))
             (n + io_ops (world c)))
     (mkStore (incentives db) (incentive_snapshots db)
        (incentive_changes db
         ++ change_rows incentive_id changes (clock_reads (world c))
              (incentive_changes db))
        (scan_logs db))).
Proof.
  revert c. induction fields as [| f fields IH]; intros [[d cr io] [i s ch l]].
  - simpl. unfold ret. rewrite app_nil_r. reflexivity.
  - cbn [for_each changed_among flat_map].
    fold (changed_among fields old_data new_data).
    destruct (option_string_eqb (tracked_value old_data f)
                (tracked_value new_data f)) eqn:E; cbn [negb].
    + unfold bind at 1. unfold ret at 1. rewrite IH. reflexivity.
    + unfold bind at 1. unfold execute_now at 1. cbn [world view io_ops].
      rewrite no_fault. cbn [insert_change]. rewrite IH.
      cbn [app List.length change_rows view world disk clock_reads io_ops
           bump_clock bump_io append_change new_change incentives
           incentive_snapshots incentive_changes scan_logs].
      rewrite <- app_assoc. cbn [app]. rewrite !Nat.add_succ_r. reflexivity.
Qed.

Lemma record_changes_run incentive_id old_data new_data c :
  _record_changes incentive_id old_data new_data c =
  let changes := changed_fields old_data new_data in
  let n := List.length changes in
  let db := view c in
  (inr tt,
   mkConn (mkWorld (disk (world c)) (n + clock_reads (world c))
             (n + io_ops (world c)))
     (mkStore (incentives db) (incentive_snapshots db)
        (incentive_changes db
         ++ change_rows incentive_id changes (clock_reads (world c))
              (incentive_changes db))
        (scan_logs db))).
Proof. apply record_changes_among_run. Qed.


Ltac run_execute :=
  unfold bind at 1; unfold execute at 1; tx_simpl; rewrite no_fault.

Ltac run_execute_now :=
  unfold bind at 1; unfold execute_now at 1; tx_simpl; rewrite no_fault.

(** The first observation of an entity. *)
Lemma record_hashed_new key data w name state program_type :
  select_incentive key (disk w) = None ->
  bind_param 2 (dict_get data "name" (VStr "Unknown")) = inr name ->
  name <> SqlNull ->
  bind_param 3 (dict_get data "state" (VStr "")) = inr state ->
  bind_param 4 (dict_get data "program_type" (VStr "")) = inr program_type ->
  record_hashed (payload_hash data) key data w =
  (inr (true, false),
   mkWorld (store_after_insert key name state program_type data w)
     (3 + clock_reads w) (4 + io_ops w)).
Proof.
  intros Hsel Hn Hnn Hs Hp. destruct w as [db cr io].
  unfold record_hashed. unfold bind at 1. unfold datetime_now at 1.
  cbn [disk clock_reads io_ops]. unfold _get_connection.
  run_execute. cbn [disk] in Hsel. rewrite Hsel.
  run_execute_now. unfold insert_incentive. rewrite Hn, Hs, Hp, Hsel.
  destruct name as [| z | t]; [contradiction | |].
  all: run_execute_now; cbn [insert_snapshot]; unfold bind, ret; tx_simpl.
  all: rewrite no_fault; reflexivity.
Qed.

(** An observation whose hash is the stored one. *)
Lemma record_hashed_same_hash key data w e :
  select_incentive key (disk w) = Some e ->
  Incentive.data_hash e = payload_hash data ->
  record_hashed (payload_hash data) key data w =
  (inr (false, false),
   mkWorld (store_after_unchanged (Incentive.id e) w)
     (1 + clock_reads w) (3 + io_ops w)).
Proof.
  intros Hsel Hh. destruct w as [db cr io].
  unfold record_hashed. unfold bind at 1. unfold datetime_now at 1.
  cbn [disk clock_reads io_ops]. unfold _get_connection.
  run_execute. cbn [disk] in Hsel. rewrite Hsel.
  run_execute. cbn [update_last_seen]. rewrite Hh, String.eqb_refl.
  cbn [negb]. unfold ret. tx_simpl. rewrite no_fault. reflexivity.
Qed.

(** An observation whose hash differs from the stored one. *)
Lemma record_hashed_new_hash key data w e base :
  select_incentive key (disk w) = Some e ->
  Incentive.data_hash e <> payload_hash data ->
  diff_base (Incentive.id e) (disk w) = inr base ->
  let changes := changes_against base data in
  let n := List.length changes in
  record_hashed (payload_hash data) key data w =
  (inr (false, true),
   mkWorld (store_after_update (Incentive.id e) changes data w)
     (n + (2 + clock_reads w)) (n + (6 + io_ops w))).
Proof.
  intros Hsel Hh Hbase. destruct w as [db cr io].
  unfold record_hashed. unfold bind at 1. unfold datetime_now at 1.
  cbn [disk clock_reads io_ops]. unfold _get_connection.
  run_execute. cbn [disk] in Hsel, Hbase. rewrite Hsel.
  run_execute. cbn [update_last_seen].
  apply String.eqb_neq in Hh. rewrite Hh. cbn [negb].
  run_execute.
  unfold diff_base in Hbase.
  change (select_latest_snapshot (Incentive.id e)
            (map_incentives
               (touch_last_seen (clock_us cr) (Incentive.id e)) db))
    with (select_latest_snapshot (Incentive.id e) db).
  destruct (select_latest_snapshot (Incentive.id e) db) as [snap |].
  - destruct (json_loads (Snapshot.data_json snap)) as [err | [| | | | | old]];
      try discriminate.
    injection Hbase as <-.
    unfold bind at 1. rewrite record_changes_run.
    cbn [changes_against world view io_ops clock_reads disk incentives
         incentive_snapshots incentive_changes scan_logs map_incentives].
    run_execute_now. cbn [insert_snapshot]. run_execute. cbn [update_hash].
    unfold ret. tx_simpl. rewrite no_fault.
    unfold store_after_update, close, commit, append_snapshot, new_snapshot,
      map_incentives.
    cbn [world view io_ops clock_reads disk incentives incentive_snapshots
         incentive_changes scan_logs bump_io Nat.add].
    rewrite !Nat.add_succ_r. reflexivity.
  - injection Hbase as <-.
    unfold bind at 1. unfold ret at 1.
    run_execute_now. cbn [insert_snapshot]. run_execute. cbn [update_hash].
    unfold ret. tx_simpl. rewrite no_fault.
    unfold store_after_update, close, commit, append_snapshot, new_snapshot,
      map_incentives.
    cbn [changes_against List.length change_rows world view io_ops clock_reads
         disk incentives incentive_snapshots incentive_changes scan_logs
         bump_io Nat.add].
    rewrite app_nil_r. reflexivity.
Qed.

End TrackerRuns.

(** *** Sorting by key *)

Lemma ascii_compare_lt_trans a b c :
  Ascii.compare a b = Lt -> Ascii.compare b c = Lt -> Ascii.compare a c = Lt.
Proof.
  unfold Ascii.compare. rewrite !N.compare_lt_iff. intros. lia.
Qed.

Lemma compare_lt_trans s1 : forall s2 s3,
  String.compare s1 s2 = Lt -> String.compare s2 s3 = Lt ->
  String.compare s1 s3 = Lt.
Proof.
  induction s1 as [| a s1 IH]; intros [| b s2] [| c s3]; simpl;
    try congruence.
  destruct (Ascii.compare a b) eqn:Eab; try discriminate;
    destruct (Ascii.compare b c) eqn:Ebc; try discriminate; intros H1 H2.
  - apply Ascii.compare_eq_iff in Eab, Ebc. subst.
    assert (Ascii.compare c c = Eq) as ->.
    { unfold Ascii.compare. apply N.compare_refl. }
    eapply IH; eassumption.
  - apply Ascii.compare_eq_iff in Eab. subst. rewrite Ebc. reflexivity.
  - apply Ascii.compare_eq_iff in Ebc. subst. rewrite Eab. reflexivity.
  - rewrite (ascii_compare_lt_trans _ _ _ Eab Ebc). reflexivity.
Qed.

Lemma leb_trans s1 s2 s3 :
  String.leb s1 s2 = true -> String.leb s2 s3 = true -> String.leb s1 s3 = true.
Proof.
  unfold String.leb.
  destruct (String.compare s1 s2) eqn:E12; try discriminate;
    destruct (String.compare s2 s3) eqn:E23; try discriminate; intros _ _.
  - apply String.compare_eq_iff in E12. subst. rewrite E23. reflexivity.
  - apply String.compare_eq_iff in E12. subst. rewrite E23. reflexivity.
  - apply String.compare_eq_iff in E23. subst. rewrite E12. reflexivity.
  - rewrite (compare_lt_trans _ _ _ E12 E23). reflexivity.
Qed.

Lemma leb_false_flip s1 s2 : String.leb s1 s2 = false -> String.leb s2 s1 = true.
Proof.
  intros H. destruct (String.leb_total s1 s2) as [E | E]; congruence.
Qed.

(** Two insertions of items with different keys commute. *)
Lemma insert_by_key_comm {A : Type} (x y : string * A) (l : list (string * A)) :
  fst x <> fst y ->
  insert_by_key x (insert_by_key y l) = insert_by_key y (insert_by_key x l).
Proof.
  intros Hxy.
  assert (Hex : String.leb (fst x) (fst y) = negb (String.leb (fst y) (fst x))).
  { destruct (String.leb (fst x) (fst y)) eqn:E1,
             (String.leb (fst y) (fst x)) eqn:E2; try reflexivity.
    - exfalso. apply Hxy. apply String.leb_antisym; assumption.
    - apply leb_false_flip in E1. congruence. }
  induction l as [| c l IH]; simpl.
  - rewrite Hex. destruct (String.leb (fst y) (fst x)); reflexivity.
  - destruct (String.leb (fst x) (fst c)) eqn:Exc,
             (String.leb (fst y) (fst c)) eqn:Eyc; simpl.
    + rewrite Hex. destruct (String.leb (fst y) (fst x)); simpl;
        rewrite ?Exc, ?Eyc; reflexivity.
    + rewrite Exc.
      destruct (String.leb (fst y) (fst x)) eqn:Eyx.
      * rewrite (leb_trans _ _ _ Eyx Exc) in Eyc. discriminate.
      * rewrite Eyc. reflexivity.
    + rewrite Eyc.
      destruct (String.leb (fst x) (fst y)) eqn:Exy'.
      * rewrite (leb_trans _ _ _ Exy' Eyc) in Exc. discriminate.
      * rewrite Exc. reflexivity.
    + rewrite Exc, Eyc, IH. reflexivity.
Qed.

(** Sorting does not depend on the order of items with distinct keys. *)
Lemma sort_by_key_permutation {A : Type} (l1 l2 : list (string * A)) :
  Permutation l1 l2 -> NoDup (map fst l1) -> sort_by_key l1 = sort_by_key l2.
Proof.
  induction 1 as [| x l1 l2 HP IH | x y l | l1 l2 l3 HP1 IH1 HP2 IH2];
    intros Hnd; simpl.
  - reflexivity.
  - inversion Hnd; subst. rewrite IH by assumption. reflexivity.
  - apply insert_by_key_comm. inversion Hnd as [| ? ? Hin _]; subst.
    intros E. apply Hin. left. symmetry. exact E.
  - rewrite IH1 by assumption. apply IH2.
    eapply Permutation_NoDup; [| exact Hnd].
    apply Permutation_map. exact HP1.
Qed.

Lemma dict_lookup_in (d : dict) k v :
  dict_lookup d k = Some v -> In (k, v) d.
Proof.
  induction d as [| [k' v'] d IH]; simpl; [discriminate |].
  destruct (String.eqb k' k) eqn:E.
  - apply String.eqb_eq in E. intros H. injection H as <-. subst. now left.
  - intros H. right. exact (IH H).
Qed.

Lemma in_dict_lookup (d : dict) k v :
  NoDup (map fst d) -> In (k, v) d -> dict_lookup d k = Some v.
Proof.
  induction d as [| [k' v'] d IH]; simpl; [contradiction |].
  intros Hnd [H | H].
  - injection H as -> ->. rewrite String.eqb_refl. reflexivity.
  - inversion Hnd as [| ? ? Hni Hnd']; subst.
    destruct (String.eqb k' k) eqn:E.
    + apply String.eqb_eq in E. subst. exfalso. apply Hni.
      apply (in_map fst) in H. exact H.
    + exact (IH Hnd' H).
Qed.

(** Dicts with the same entries are permutations of each other. *)
Lemma same_entries_permutation (d1 d2 : dict) :
  NoDup (map fst d1) -> NoDup (map fst d2) ->
  (forall k, dict_lookup d1 k = dict_lookup d2 k) ->
  Permutation d1 d2.
Proof.
  intros H1 H2 Heq.
  apply NoDup_Permutation.
  - eapply NoDup_map_inv. exact H1.
  - eapply NoDup_map_inv. exact H2.
  - intros [k v]. split; intros H.
    + apply dict_lookup_in. rewrite <- Heq. apply in_dict_lookup; assumption.
    + apply dict_lookup_in. rewrite Heq. apply in_dict_lookup; assumption.
Qed.

Lemma compute_hash_same_entries (d1 d2 : dict) :
  NoDup (map fst d1) -> NoDup (map fst d2) ->
  (forall k, dict_lookup d1 k = dict_lookup d2 k) ->
  payload_hash d1 = payload_hash d2.
Proof.
  intros H1 H2 Heq. unfold payload_hash. do 2 f_equal.
  cbn [json_text]. do 4 f_equal.
  apply sort_by_key_permutation.
  - apply Permutation_map. apply same_entries_permutation; assumption.
  - rewrite map_map.
    erewrite map_ext; [exact H1 |]. intros [k v]. reflexivity.
Qed.

(** *** What a returning [record_incentive] has done, whatever the storage *)

Section TrackerReturns.

Context {oracle : Oracle}.

Ltac fault_cases H :=
  match type of H with
  | context [if storage_fails ?k then _ else _] =>
      let E := fresh "Hok" in
      destruct (storage_fails k) eqn:E; [ try (discriminate H) | idtac ]
  end.

Ltac back_execute H :=
  unfold bind at 1 in H; unfold execute at 1 in H; tx_simpl_in H;
  fault_cases H.

Ltac back_execute_now H :=
  unfold bind at 1 in H; unfold execute_now at 1 in H; tx_simpl_in H;
  fault_cases H.

Lemma record_changes_among_return incentive_id old_data new_data fields c r c' :
  for_each fields
    (fun field =>
       let old_value := tracked_value old_data field in
       let new_value := tracked_value new_data field in
       if negb (option_string_eqb old_value new_value)
       then execute_now (insert_change incentive_id field old_value new_value)
       else ret tt) c = (inr r, c') ->
  let changes := changed_among fields old_data new_data in
  let n := List.length changes in
  let db := view c in
  c' = mkConn (mkWorld (disk (world c)) (n + clock_reads (world c))
                 (n + io_ops (world c)))
         (mkStore (incentives db) (incentive_snapshots db)
            (incentive_changes db
             ++ change_rows incentive_id changes (clock_reads (world c))
                  (incentive_changes db))
            (scan_logs db)).
Proof.
  revert c. induction fields as [| f fields IH]; intros [[d cr io] [i s ch l]].
  - simpl. unfold ret. intros H. injection H as _ <-.
    rewrite app_nil_r. reflexivity.
  - cbn [for_each changed_among flat_map].
    fold (changed_among fields old_data new_data).
    destruct (option_string_eqb (tracked_value old_data f)
                (tracked_value new_data f)) eqn:E; cbn [negb].
    + unfold bind at 1. unfold ret at 1. intros H. apply IH in H. exact H.
    + intros H. back_execute_now H. cbn [insert_change] in H.
      apply IH in H. rewrite H.
      cbn [app List.length change_rows view world disk clock_reads io_ops
           bump_clock bump_io append_change new_change incentives
           incentive_snapshots incentive_changes scan_logs].
      rewrite <- app_assoc. cbn [app]. rewrite !Nat.add_succ_r. reflexivity.
Qed.

(** The three ways [record_incentive] returns. *)
Lemma record_hashed_return key data w r w' :
  record_hashed (payload_hash data) key data w = (inr r, w') ->
  (select_incentive key (disk w) = None /\ r = (true, false)
   /\ exists name state program_type,
        bind_param 2 (dict_get data "name" (VStr "Unknown")) = inr name
        /\ name <> SqlNull
        /\ disk w' = store_after_insert key name state program_type data w
        /\ clock_reads w' = (3 + clock_reads w)%nat)
  \/ (exists e,
        select_incentive key (disk w) = Some e
        /\ Incentive.data_hash e = payload_hash data
        /\ r = (false, false)
        /\ disk w' = store_after_unchanged (Incentive.id e) w
        /\ clock_reads w' = (1 + clock_reads w)%nat)
  \/ (exists e base,
        select_incentive key (disk w) = Some e
        /\ Incentive.data_hash e <> payload_hash data
        /\ diff_base (Incentive.id e) (disk w) = inr base
        /\ r = (false, true)
        /\ disk w' = store_after_update (Incentive.id e)
                       (changes_against base data) data w
        /\ clock_reads w' =
           (List.length (changes_against base data) + (2 + clock_reads w))%nat).
Proof.
  destruct w as [db cr io].
  unfold record_hashed. unfold bind at 1. unfold datetime_now at 1.
  cbn [disk clock_reads io_ops]. unfold _get_connection. intros H.
  back_execute H.
  destruct (select_incentive key db) as [e |] eqn:Hsel.
  - right. back_execute H. cbn [update_last_seen] in H.
    destruct (String.eqb (Incentive.data_hash e) (payload_hash data)) eqn:Hh;
      cbn [negb] in H.
    + left. exists e. apply String.eqb_eq in Hh.
      unfold ret in H. tx_simpl_in H. fault_cases H.
      injection H as <- <-.
      split; [reflexivity |]. split; [exact Hh |].
      split; [reflexivity |]. split; reflexivity.
    + right. apply String.eqb_neq in Hh.
      back_execute H.
      change (select_latest_snapshot (Incentive.id e)
                (map_incentives
                   (touch_last_seen (clock_us cr) (Incentive.id e)) db))
        with (select_latest_snapshot (Incentive.id e) db) in H.
      assert (Hbase : exists base, diff_base (Incentive.id e) db = inr base
                /\ (match select_latest_snapshot (Incentive.id e) db with
                    | Some snap =>
                        match json_loads (Snapshot.data_json snap) with
                        | inr (VDict old_data) =>
                            _record_changes (Incentive.id e) old_data data
                        | inr old_data => raise (no_get old_data)
                        | inl ex => raise ex
                        end
                    | None => ret tt
                    end) =
                   (match base with
                    | Some old_data =>
                        _record_changes (Incentive.id e) old_data data
                    | None => ret tt
                    end)).
      { unfold diff_base.
        destruct (select_latest_snapshot (Incentive.id e) db) as [snap |].
        - destruct (json_loads (Snapshot.data_json snap))
            as [ex | [| | | | | old]]; try (exfalso; discriminate H).
          exists (Some old). split; reflexivity.
        - exists None. split; reflexivity. }
      destruct Hbase as (base & Hbase & Heq).
      rewrite Heq in H. clear Heq.
      exists e, base.
      unfold bind at 1 in H.
      destruct base as [old |].
      * destruct (_record_changes (Incentive.id e) old data _)
          as [[ex | []] c1] eqn:Hrc; [discriminate H |].
        apply record_changes_among_return in Hrc. subst c1.
        cbn [world view io_ops clock_reads disk incentives incentive_snapshots
             incentive_changes scan_logs map_incentives] in H.
        back_execute_now H. cbn [insert_snapshot] in H.
        back_execute H. cbn [update_hash] in H.
        unfold ret in H. tx_simpl_in H. fault_cases H.
        injection H as <- <-.
        split; [reflexivity |]. split; [exact Hh |]. split; [exact Hbase |].
        split; [reflexivity |]. split.
        -- unfold store_after_update, append_snapshot, new_snapshot,
             map_incentives, changes_against, changed_fields.
           cbn [world view io_ops clock_reads disk incentives
                incentive_snapshots incentive_changes scan_logs bump_io Nat.add].
           rewrite !Nat.add_succ_r. reflexivity.
        -- cbn [clock_reads changes_against Nat.add]. unfold changed_fields.
           rewrite !Nat.add_succ_r. reflexivity.
      * unfold ret at 1 in H.
        back_execute_now H. cbn [insert_snapshot] in H.
        back_execute H. cbn [update_hash] in H.
        unfold ret in H. tx_simpl_in H. fault_cases H.
        injection H as <- <-.
        split; [reflexivity |]. split; [exact Hh |]. split; [exact Hbase |].
        split; [reflexivity |]. split; [| reflexivity].
        unfold store_after_update, append_snapshot, new_snapshot,
          map_incentives.
        cbn [changes_against List.length change_rows world view io_ops
             clock_reads disk incentives incentive_snapshots incentive_changes
             scan_logs bump_io Nat.add].
        rewrite app_nil_r. reflexivity.
  - left. back_execute_now H. unfold insert_incentive in H.
    destruct (bind_param 2 (dict_get data "name" (VStr "Unknown")))
      as [ex | name] eqn:Hn; [discriminate H |].
    destruct (bind_param 3 (dict_get data "state" (VStr "")))
      as [ex | state] eqn:Hs; [discriminate H |].
    destruct (bind_param 4 (dict_get data "program_type" (VStr "")))
      as [ex | program_type] eqn:Hp; [discriminate H |].
    rewrite Hsel in H.
    assert (Hnn : name <> SqlNull).
    { intros ->. discriminate H. }
    split; [reflexivity |].
    destruct name as [| z | t]; [contradiction | |].
    all: back_execute_now H; cbn [insert_snapshot] in H.
    all: unfold bind, ret in H; tx_simpl_in H; fault_cases H.
    all: injection H as <- <-; split; [reflexivity |].
    all: eexists _, state, program_type.
    all: split; [reflexivity |]; split; [exact Hnn |].
    all: split; reflexivity.
Qed.

End TrackerReturns.

(** *** Atomicity *)

Section Atomicity.

Context {oracle : Oracle}.

Ltac keeps_file_tac :=
  repeat first
    [ apply keeps_file_ret
    | apply keeps_file_raise
    | apply keeps_file_execute
    | apply keeps_file_execute_now
    | apply keeps_file_now
    | apply keeps_file_for_each; intros; cbv zeta
    | apply keeps_file_bind; [| intros]
    | match goal with
      | |- keeps_file (if ?b then _ else _) => destruct b
      | |- keeps_file (match ?x with Some _ => _ | None => _ end) => destruct x
      | |- keeps_file (match ?x with inl _ => _ | inr _ => _ end) => destruct x
      | |- keeps_file (match ?x with VDict _ => _ | _ => _ end) => destruct x
      | |- keeps_file (_record_changes _ _ _) => unfold _record_changes
      end ].

Lemma keeps_file_record_changes incentive_id old_data new_data :
  keeps_file (_record_changes incentive_id old_data new_data).
Proof. unfold _record_changes. keeps_file_tac. Qed.

Lemma record_hashed_raise key data w e w' :
  record_hashed (payload_hash data) key data w = (inl e, w') -> disk w' = disk w.
Proof.
  unfold record_hashed. unfold bind at 1. unfold datetime_now at 1.
  intros H. apply get_connection_raise in H; [exact H |].
  keeps_file_tac.
Qed.

Lemma start_scan_raise scan_type states w e w' :
  start_scan scan_type states w = (inl e, w') -> disk w' = disk w.
Proof.
  unfold start_scan. intros H.
  apply get_connection_raise in H; [exact H |]. keeps_file_tac.
Qed.

Lemma end_scan_raise scan_id status total new_count updated_count removed_count
    error_message w e w' :
  end_scan scan_id status total new_count updated_count removed_count
    error_message w = (inl e, w') ->
  disk w' = disk w.
Proof.
  unfold end_scan. intros H.
  apply get_connection_raise in H; [exact H |]. keeps_file_tac.
Qed.

End Atomicity.

(** *** [record_incentive] and its hash *)

Lemma compute_hash_cases data :
  _compute_hash data
  = if ints_convertible (VDict data) then inr (payload_hash data)
    else inl int_to_str_error.
Proof.
  unfold _compute_hash, json_dumps, payload_hash.
  destruct (ints_convertible (VDict data)); reflexivity.
Qed.

Lemma compute_hash_inr data h :
  _compute_hash data = inr h <->
  ints_convertible (VDict data) = true /\ h = payload_hash data.
Proof.
  rewrite compute_hash_cases. destruct (ints_convertible (VDict data)); split.
  - intros H. injection H as <-. split; reflexivity.
  - intros [_ ->]. reflexivity.
  - discriminate.
  - intros [H _]. discriminate H.
Qed.

Lemma compute_hash_inl data e :
  _compute_hash data = inl e <->
  ints_convertible (VDict data) = false /\ e = int_to_str_error.
Proof.
  rewrite compute_hash_cases. destruct (ints_convertible (VDict data)); split.
  - discriminate.
  - intros [H _]. discriminate H.
  - intros H. injection H as <-. split; reflexivity.
  - intros [_ ->]. reflexivity.
Qed.

(** [json.dumps] converts the integers of a payload whatever the order of
    the keys: it returns without [sort_keys] when it has returned for the
    hash. *)
Lemma json_dumps_hashed sort_keys data h :
  _compute_hash data = inr h ->
  json_dumps sort_keys (VDict data) = inr (json_text sort_keys (VDict data)).
Proof.
  intros H. apply compute_hash_inr in H. destruct H as [H _].
  unfold json_dumps. rewrite H. reflexivity.
Qed.

Section TrackerHash.

Context {oracle : Oracle}.

Lemma record_incentive_hashed key data :
  ints_convertible (VDict data) = true ->
  record_incentive key data = record_hashed (payload_hash data) key data.
Proof.
  intros H. unfold record_incentive. rewrite compute_hash_cases, H.
  reflexivity.
Qed.

Lemma record_incentive_unhashed key data w :
  ints_convertible (VDict data) = false ->
  record_incentive key data w = (inl int_to_str_error, w).
Proof.
  intros H. unfold record_incentive. rewrite compute_hash_cases, H.
  reflexivity.
Qed.

Lemma record_incentive_hash_returns key data w r w' :
  record_incentive key data w = (inr r, w') ->
  _compute_hash data = inr (payload_hash data).
Proof.
  intros H. rewrite compute_hash_cases.
  destruct (ints_convertible (VDict data)) eqn:E; [reflexivity |].
  rewrite (record_incentive_unhashed key data w E) in H. discriminate H.
Qed.

Lemma record_incentive_new (no_fault : storage_never_fails oracle) key data w
    name state program_type :
  ints_convertible (VDict data) = true ->
  select_incentive key (disk w) = None ->
  bind_param 2 (dict_get data "name" (VStr "Unknown")) = inr name ->
  name <> SqlNull ->
  bind_param 3 (dict_get data "state" (VStr "")) = inr state ->
  bind_param 4 (dict_get data "program_type" (VStr "")) = inr program_type ->
  record_incentive key data w =
  (inr (true, false),
   mkWorld (store_after_insert key name state program_type data w)
     (3 + clock_reads w) (4 + io_ops w)).
Proof.
  intros Hints. rewrite (record_incentive_hashed key data Hints).
  apply record_hashed_new. exact no_fault.
Qed.

Lemma record_incentive_same_hash (no_fault : storage_never_fails oracle) key
    data w e :
  select_incentive key (disk w) = Some e ->
  _compute_hash data = inr (Incentive.data_hash e) ->
  record_incentive key data w =
  (inr (false, false),
   mkWorld (store_after_unchanged (Incentive.id e) w)
     (1 + clock_reads w) (3 + io_ops w)).
Proof.
  intros Hsel Hh. apply compute_hash_inr in Hh. destruct Hh as [Hints Hh].
  rewrite (record_incentive_hashed key data Hints).
  apply record_hashed_same_hash; assumption.
Qed.

Lemma record_incentive_new_hash (no_fault : storage_never_fails oracle) key
    data w e base :
  ints_convertible (VDict data) = true ->
  select_incentive key (disk w) = Some e ->
  Incentive.data_hash e <> payload_hash data ->
  diff_base (Incentive.id e) (disk w) = inr base ->
  let changes := changes_against base data in
  let n := List.length changes in
  record_incentive key data w =
  (inr (false, true),
   mkWorld (store_after_update (Incentive.id e) changes data w)
     (n + (2 + clock_reads w)) (n + (6 + io_ops w))).
Proof.
  intros Hints. rewrite (record_incentive_hashed key data Hints).
  apply record_hashed_new_hash. exact no_fault.
Qed.

Lemma record_incentive_return key data w r w' :
  record_incentive key data w = (inr r, w') ->
  (select_incentive key (disk w) = None
   /\ r = (true, false)
   /\ exists name state program_type,
        bind_param 2 (dict_get data "name" (VStr "Unknown")) = inr name
        /\ name <> SqlNull
        /\ disk w' = store_after_insert key name state program_type data w
        /\ clock_reads w' = (3 + clock_reads w)%nat)
  \/ (exists e,
        select_incentive key (disk w) = Some e
        /\ Incentive.data_hash e = payload_hash data
        /\ r = (false, false)
        /\ disk w' = store_after_unchanged (Incentive.id e) w
        /\ clock_reads w' = (1 + clock_reads w)%nat)
  \/ (exists e base,
        select_incentive key (disk w) = Some e
        /\ Incentive.data_hash e <> payload_hash data
        /\ diff_base (Incentive.id e) (disk w) = inr base
        /\ r = (false, true)
        /\ disk w' = store_after_update (Incentive.id e)
                       (changes_against base data) data w
        /\ clock_reads w' = (List.length (changes_against base data)
                             + (2 + clock_reads w))%nat).
Proof.
  intros H.
  destruct (ints_convertible (VDict data)) eqn:E.
  - rewrite (record_incentive_hashed key data E) in H.
    apply record_hashed_return. exact H.
  - rewrite (record_incentive_unhashed key data w E) in H. discriminate H.
Qed.

Lemma record_incentive_raise key data w e w' :
  record_incentive key data w = (inl e, w') -> disk w' = disk w.
Proof.
  intros H.
  destruct (ints_convertible (VDict data)) eqn:E.
  - rewrite (record_incentive_hashed key data E) in H.
    eapply record_hashed_raise. exact H.
  - rewrite (record_incentive_unhashed key data w E) in H.
    injection H as _ <-. reflexivity.
Qed.

End TrackerHash.

(** *** The entity row after an observation *)

Lemma find_map_same {A : Type} (p : A -> bool) (f : A -> A) (l : list A) :
  (forall x, p (f x) = p x) -> find p (map f l) = option_map f (find p l).
Proof.
  intros Hp. induction l as [| x l IH]; simpl; [reflexivity |].
  rewrite Hp. destruct (p x); [reflexivity | exact IH].
Qed.

Lemma find_app_none {A : Type} (p : A -> bool) (l l' : list A) :
  find p l = None -> find p (l ++ l') = find p l'.
Proof.
  induction l as [| x l IH]; simpl; [reflexivity |].
  destruct (p x); [discriminate | exact IH].
Qed.

Lemma find_app_some {A : Type} (p : A -> bool) (l l' : list A) x :
  find p l = Some x -> find p (l ++ l') = Some x.
Proof.
  induction l as [| y l IH]; simpl; [discriminate |].
  destruct (p y); [trivial | exact IH].
Qed.

Lemma touch_last_seen_key now incentive_id r :
  Incentive.dsire_id (touch_last_seen now incentive_id r) = Incentive.dsire_id r.
Proof. unfold touch_last_seen. destruct (_ =? _); reflexivity. Qed.

Lemma touch_hash_key hash now incentive_id r :
  Incentive.dsire_id (touch_hash hash now incentive_id r) = Incentive.dsire_id r.
Proof. unfold touch_hash. destruct (_ =? _); reflexivity. Qed.

Lemma touch_last_seen_id now incentive_id r :
  Incentive.id (touch_last_seen now incentive_id r) = Incentive.id r.
Proof. unfold touch_last_seen. destruct (_ =? _); reflexivity. Qed.

Lemma touch_hash_id hash now incentive_id r :
  Incentive.id (touch_hash hash now incentive_id r) = Incentive.id r.
Proof. unfold touch_hash. destruct (_ =? _); reflexivity. Qed.

Section EntityAfter.

Context {oracle : Oracle}.

Lemma select_after_insert key name state program_type data w :
  select_incentive key (disk w) = None ->
  select_incentive key (store_after_insert key name state program_type data w)
  = Some (new_incentive key name state program_type (clock_us (clock_reads w))
            (payload_hash data) (clock_us (1 + clock_reads w) / 1000000)
            (disk w)).
Proof.
  intros H. unfold select_incentive, store_after_insert in *.
  cbn [incentives append_snapshot append_incentive].
  rewrite (find_app_none _ _ _ H). cbn [find new_incentive Incentive.dsire_id].
  rewrite String.eqb_refl. reflexivity.
Qed.

Lemma select_after_unchanged key w e :
  select_incentive key (disk w) = Some e ->
  select_incentive key (store_after_unchanged (Incentive.id e) w)
  = Some (touch_last_seen (clock_us (clock_reads w)) (Incentive.id e) e).
Proof.
  intros H. unfold select_incentive, store_after_unchanged in *.
  cbn [incentives map_incentives].
  rewrite find_map_same.
  - rewrite H. reflexivity.
  - intros x. rewrite touch_last_seen_key. reflexivity.
Qed.

Lemma select_after_update key w e changes data :
  select_incentive key (disk w) = Some e ->
  select_incentive key (store_after_update (Incentive.id e) changes data w)
  = Some (touch_hash (payload_hash data) (clock_us (clock_reads w))
            (Incentive.id e)
            (touch_last_seen (clock_us (clock_reads w)) (Incentive.id e) e)).
Proof.
  intros H. unfold select_incentive, store_after_update in *.
  cbn [incentives]. rewrite map_map.
  rewrite (find_map_same _ (fun x => touch_hash _ _ _ (touch_last_seen _ _ x))).
  - rewrite H. reflexivity.
  - intros x. rewrite touch_hash_key, touch_last_seen_key. reflexivity.
Qed.

(** After a returning call the entity is stored under its key, with the
    hash of the payload, seen at the time of the call, and active. *)
Lemma record_incentive_tracked key data w r w' :
  record_incentive key data w = (inr r, w') ->
  exists e,
    select_incentive key (disk w') = Some e
    /\ Incentive.data_hash e = payload_hash data
    /\ Incentive.last_seen_at e = clock_us (clock_reads w)
    /\ Incentive.is_active e = true.
Proof.
  intros H. apply record_incentive_return in H.
  destruct H as [(Hsel & _ & n & s & p & _ & _ & Hd & _)
               | [(e & Hsel & Hh & _ & Hd & _)
                 | (e & base & Hsel & _ & _ & _ & Hd & _)]]; rewrite Hd.
  - rewrite (select_after_insert _ _ _ _ _ _ Hsel). eexists. split; [reflexivity |].
    cbn [Incentive.data_hash Incentive.last_seen_at Incentive.is_active new_incentive]. repeat split.
  - rewrite (select_after_unchanged _ _ _ Hsel). eexists. split; [reflexivity |].
    unfold touch_last_seen. rewrite Z.eqb_refl. cbn [Incentive.data_hash Incentive.last_seen_at Incentive.is_active new_incentive]. repeat split. exact Hh.
  - rewrite (select_after_update _ _ _ _ _ Hsel). eexists. split; [reflexivity |].
    unfold touch_hash. rewrite touch_last_seen_id, Z.eqb_refl.
    unfold touch_last_seen. rewrite Z.eqb_refl. cbn [Incentive.data_hash Incentive.last_seen_at Incentive.is_active new_incentive]. repeat split.
Qed.

Lemma change_rows_specs incentive_id changes : forall k table,
  map spec_of_change (change_rows incentive_id changes k table) = changes.
Proof.
  induction changes as [| [[f o] n] changes IH]; intros k table; simpl.
  - reflexivity.
  - rewrite IH. reflexivity.
Qed.

Lemma change_rows_incentive incentive_id changes : forall k table,
  Forall (fun r => Change.incentive_id r = incentive_id)
    (change_rows incentive_id changes k table).
Proof.
  induction changes as [| [[f o] n] changes IH]; intros k table; simpl.
  - constructor.
  - constructor; [reflexivity | apply IH].
Qed.

Lemma change_rows_detected_at incentive_id changes : forall k table,
  Forall (fun r => exists j, (k <= j < k + List.length changes)%nat
                             /\ Change.detected_at r = clock_us j / 1000000)
    (change_rows incentive_id changes k table).
Proof.
  induction changes as [| [[f o] n] changes IH]; intros k table; simpl.
  - constructor.
  - constructor.
    + exists k. split; [lia | reflexivity].
    + eapply Forall_impl; [| apply IH].
      intros r (j & Hj & E). exists j. split; [lia | exact E].
Qed.

End EntityAfter.

(** *** Change events of an update *)

Lemma option_string_eqb_eq a b : option_string_eqb a b = true <-> a = b.
Proof.
  destruct a as [x |], b as [y |]; simpl; split; intros H;
    try discriminate; try reflexivity.
  - apply String.eqb_eq in H. subst. reflexivity.
  - injection H as ->. apply String.eqb_refl.
Qed.

Lemma filter_map_comm {A B : Type} (p : B -> bool) (f : A -> B) (l : list A) :
  filter p (map f l) = map f (filter (fun x => p (f x)) l).
Proof.
  induction l as [| x l IH]; simpl; [reflexivity |].
  destruct (p (f x)); simpl; rewrite IH; reflexivity.
Qed.

Lemma changed_among_none fields old_data new_data field :
  ~ In field fields ->
  filter (fun c : change_spec => String.eqb (fst (fst c)) field)
    (changed_among fields old_data new_data) = [].
Proof.
  induction fields as [| f fields IH]; intros Hni; [reflexivity |].
  cbn [changed_among flat_map]. fold (changed_among fields old_data new_data).
  unfold change_spec in *.
  rewrite filter_app, IH by (intros H; apply Hni; now right).
  rewrite app_nil_r.
  destruct (option_string_eqb _ _); cbn [filter fst]; [reflexivity |].
  destruct (String.eqb f field) eqn:E; [| reflexivity].
  apply String.eqb_eq in E. exfalso. apply Hni. now left.
Qed.

(** Among the recorded changes a field occurs once when it is tracked and
    its two texts differ, and not at all otherwise. *)
Lemma changed_among_for fields old_data new_data field :
  NoDup fields ->
  filter (fun c : change_spec => String.eqb (fst (fst c)) field)
    (changed_among fields old_data new_data) =
  if str_in field fields
     && negb (option_string_eqb (tracked_value old_data field)
                (tracked_value new_data field))
  then [(field, tracked_value old_data field, tracked_value new_data field)]
  else [].
Proof.
  induction fields as [| f fields IH]; intros Hnd; [reflexivity |].
  inversion Hnd as [| ? ? Hni Hnd']; subst.
  cbn [changed_among flat_map str_in existsb].
  fold (changed_among fields old_data new_data). fold (str_in field fields).
  unfold change_spec in *. rewrite filter_app.
  destruct (String.eqb field f) eqn:E.
  - apply String.eqb_eq in E. subst f.
    rewrite changed_among_none by exact Hni. rewrite app_nil_r. cbn [orb andb].
    destruct (option_string_eqb _ _); cbn [negb filter fst].
    + reflexivity.
    + rewrite String.eqb_refl. reflexivity.
  - rewrite IH by exact Hnd'. cbn [orb].
    replace (filter _ (if option_string_eqb (tracked_value old_data f)
                            (tracked_value new_data f) then [] else _))
      with (@nil change_spec); [reflexivity |].
    destruct (option_string_eqb (tracked_value old_data f) _);
      cbn [filter fst]; [reflexivity |].
    rewrite String.eqb_sym, E. reflexivity.
Qed.

Lemma tracked_fields_nodup : NoDup tracked_fields.
Proof.
  unfold tracked_fields.
  repeat (constructor; [simpl; intuition discriminate |]). constructor.
Qed.

Lemma str_in_true x l : str_in x l = true <-> In x l.
Proof.
  unfold str_in. rewrite existsb_exists. split.
  - intros (y & Hy & E). apply String.eqb_eq in E. subst. exact Hy.
  - intros H. exists x. split; [exact H | apply String.eqb_refl].
Qed.

Lemma str_nodup_true l : str_nodup l = true -> NoDup l.
Proof.
  induction l as [| x l IH]; cbn [str_nodup]; intros H; [constructor |].
  apply andb_true_iff in H. destruct H as [Hx Hl].
  constructor; [| apply IH; exact Hl].
  intros Hin. apply str_in_true in Hin. rewrite Hin in Hx. discriminate.
Qed.

Lemma rows_for_specs field rows :
  map spec_of_change (rows_for field rows) =
  filter (fun c : change_spec => String.eqb (fst (fst c)) field)
    (map spec_of_change rows).
Proof. unfold rows_for. rewrite filter_map_comm. reflexivity. Qed.

(** C1 (as amended): an update of a tracked entity whose newest snapshot is
    the one the query for the latest snapshot returns (no older snapshot of
    the entity shares its capture second) and decodes to a payload returns
    (False, True) and appends, for each tracked field, exactly one change
    row when the texts compared for it ([str] of the value, or the None
    sentinel when the value is absent or falsy) differ between that previous
    snapshot and the new payload, and no row when they are equal or the field
    is not tracked; the row carries both texts, and every row's
    [detected_at] is the clock second of its own INSERT, so the rows share
    it when the clock second does not change during the call. *)
Theorem record_incentive_change_events {oracle : Oracle} key data w e h
    previous old_data :
  storage_never_fails oracle ->
  select_incentive key (disk w) = Some e ->
  _compute_hash data = inr h ->
  Incentive.data_hash e <> h ->
  select_max_id_snapshot (Incentive.id e) (disk w) = Some previous ->
  select_latest_snapshot (Incentive.id e) (disk w) = Some previous ->
  json_loads (Snapshot.data_json previous) = inr (VDict old_data) ->
  exists w' rows,
    record_incentive key data w = (inr (false, true), w')
    /\ incentive_changes (disk w') = (incentive_changes (disk w) ++ rows)%list
    /\ Forall (fun r => Change.incentive_id r = Incentive.id e) rows
    /\ (forall field,
          In field tracked_fields ->
          tracked_value old_data field <> tracked_value data field ->
          exists r, rows_for field rows = [r]
                    /\ Change.old_value r = tracked_value old_data field
                    /\ Change.new_value r = tracked_value data field)
    /\ (forall field,
          ~ In field tracked_fields
          \/ tracked_value old_data field = tracked_value data field ->
          rows_for field rows = [])
    /\ (forall t,
          (forall k, (clock_reads w <= k < clock_reads w')%nat ->
                     clock_us k / 1000000 = t) ->
          Forall (fun r => Change.detected_at r = t) rows).
Proof.
  intros Hnf Hsel Hhash Hh _ Hlatest Hjson.
  apply compute_hash_inr in Hhash. destruct Hhash as [Hints ->].
  assert (Hbase : diff_base (Incentive.id e) (disk w) = inr (Some old_data)).
  { unfold diff_base. rewrite Hlatest, Hjson. reflexivity. }
  pose proof (record_incentive_new_hash Hnf key data w e (Some old_data)
                Hints Hsel Hh Hbase) as Hrun.
  cbn zeta in Hrun. cbn [changes_against] in Hrun.
  eexists. exists (change_rows (Incentive.id e) (changed_fields old_data data)
                     (1 + clock_reads w) (incentive_changes (disk w))).
  split; [exact Hrun |].
  split; [reflexivity |].
  split; [apply change_rows_incentive |].
  assert (Hfor : forall field,
             map spec_of_change
               (rows_for field
                  (change_rows (Incentive.id e) (changed_fields old_data data)
                     (1 + clock_reads w) (incentive_changes (disk w)))) =
             if str_in field tracked_fields
                && negb (option_string_eqb (tracked_value old_data field)
                           (tracked_value data field))
             then [(field, tracked_value old_data field,
                    tracked_value data field)]
             else []).
  { intros field. rewrite rows_for_specs, change_rows_specs.
    apply changed_among_for. exact tracked_fields_nodup. }
  split; [| split].
  - intros field Hin Hne. specialize (Hfor field).
    apply str_in_true in Hin. rewrite Hin in Hfor.
    destruct (option_string_eqb (tracked_value old_data field)
                (tracked_value data field)) eqn:E.
    + apply option_string_eqb_eq in E. contradiction.
    + cbn [andb negb] in Hfor.
      destruct (rows_for field _) as [| r [| r' rest]]; try discriminate.
      exists r. split; [reflexivity |].
      cbn [map] in Hfor. unfold spec_of_change in Hfor.
      injection Hfor as _ Ho Hn. split; assumption.
  - intros field Hcase. specialize (Hfor field).
    assert (Hc : str_in field tracked_fields
                 && negb (option_string_eqb (tracked_value old_data field)
                            (tracked_value data field)) = false).
    { destruct Hcase as [Hni | Heq].
      - destruct (str_in field tracked_fields) eqn:E; [| reflexivity].
        apply str_in_true in E. contradiction.
      - apply option_string_eqb_eq in Heq. rewrite Heq.
        apply andb_false_r. }
    rewrite Hc in Hfor. destruct (rows_for field _); [reflexivity | discriminate].
  - intros t Ht. cbn [clock_reads] in Ht.
    eapply Forall_impl; [| apply change_rows_detected_at].
    intros r (j & Hj & E). rewrite E. apply Ht. lia.
Qed.

Lemma record_incentive_change_events_witness :
  storage_never_fails slow_clock
  /\ select_incentive "7" (disk world_100) = Some entity_100
  /\ _compute_hash payload_200 = inr (payload_hash payload_200)
  /\ Incentive.data_hash entity_100 <> payload_hash payload_200
  /\ select_max_id_snapshot (Incentive.id entity_100) (disk world_100)
     = Some snapshot_100
  /\ select_latest_snapshot (Incentive.id entity_100) (disk world_100)
     = Some snapshot_100
  /\ json_loads (Snapshot.data_json snapshot_100) = inr (VDict payload_100)
  /\ exists w' rows,
       @record_incentive slow_clock "7" payload_200 world_100
       = (inr (false, true), w')
       /\ incentive_changes (disk w')
          = (incentive_changes (disk world_100) ++ rows)%list
       /\ (exists r, rows_for "incentive_amount" rows = [r]
                     /\ Change.old_value r = Some "$100"
                     /\ Change.new_value r = Some "$200")
       /\ rows_for "name" rows = [].
Proof.
  assert (H1 : storage_never_fails slow_clock) by (intros k; reflexivity).
  assert (H2 : select_incentive "7" (disk world_100) = Some entity_100)
    by (vm_compute; reflexivity).
  assert (H3 : _compute_hash payload_200 = inr (payload_hash payload_200))
    by (vm_compute; reflexivity).
  assert (H4 : Incentive.data_hash entity_100 <> payload_hash payload_200)
    by (vm_compute; discriminate).
  assert (H5 : select_max_id_snapshot (Incentive.id entity_100) (disk world_100)
               = Some snapshot_100) by (vm_compute; reflexivity).
  assert (H6 : select_latest_snapshot (Incentive.id entity_100) (disk world_100)
               = Some snapshot_100) by (vm_compute; reflexivity).
  assert (H7 : json_loads (Snapshot.data_json snapshot_100)
               = inr (VDict payload_100)) by (vm_compute; reflexivity).
  repeat (split; [assumption |]).
  destruct (@record_incentive_change_events slow_clock "7" payload_200
              world_100 entity_100 _ snapshot_100 payload_100
              H1 H2 H3 H4 H5 H6 H7)
    as (w' & rows & Hrun & Hrows & _ & Hone & Hnone & _).
  exists w', rows. split; [exact Hrun |]. split; [exact Hrows |]. split.
  - apply (Hone "incentive_amount").
    + simpl. tauto.
    + vm_compute. discriminate.
  - apply Hnone. right. vm_compute. reflexivity.
Defined.

(** The change-detection scenario with the tracked key [incentive_amount]:
    the second call returns (False, True) and writes one change row. *)
Example change_detection_incentive_amount :
  let (r, w) := @record_incentive slow_clock "7" payload_200 world_100 in
  r = inr (false, true)
  /\ incentive_changes (disk w)
     = [Change.mk 1 1 "incentive_amount" (Some "$100") (Some "$200") 20].
Proof. vm_compute. split; reflexivity. Qed.

(** C1 (as stated) fails: with the key [amount] of the claim's example the
    second call returns (False, True) and writes no change row; two payloads
    whose [eligible_sectors] differ ([[]] and the empty text) yield no row;
    and the two rows of one update carry different [detected_at] when the
    clock second changes between their INSERTs. *)
Lemma change_events_counterexample :
  (let (r, w) := @record_incentive slow_clock "7" amount_200
                   (@after slow_clock "7" amount_100 fresh_world) in
   r = inr (false, true) /\ incentive_changes (disk w) = [])
  /\ (dict_lookup sectors_list "eligible_sectors"
      <> dict_lookup sectors_text "eligible_sectors"
      /\ let (r, w) := @record_incentive slow_clock "7" sectors_text
                         (@after slow_clock "7" sectors_list fresh_world) in
         r = inr (false, true) /\ incentive_changes (disk w) = [])
  /\ (let (r, w) := @record_incentive slow_clock "7" two_fields_new
                      (@after slow_clock "7" two_fields_old fresh_world) in
      r = inr (false, true)
      /\ map Change.detected_at (incentive_changes (disk w)) = [20; 25]).
Proof.
  split; [| split].
  - vm_compute. split; reflexivity.
  - split; [vm_compute; discriminate |]. vm_compute. split; reflexivity.
  - vm_compute. split; reflexivity.
Qed.

(** *** Recording the same payload twice *)

Lemma insertable_binds data :
  insertable data = true ->
  exists name state program_type,
    bind_param 2 (dict_get data "name" (VStr "Unknown")) = inr name
    /\ name <> SqlNull
    /\ bind_param 3 (dict_get data "state" (VStr "")) = inr state
    /\ bind_param 4 (dict_get data "program_type" (VStr "")) = inr program_type.
Proof.
  unfold insertable.
  destruct (bind_param 2 (dict_get data "name" (VStr "Unknown"))) as [e | n];
    [discriminate |].
  destruct (bind_param 3 (dict_get data "state" (VStr ""))) as [e | s];
    [destruct n; discriminate |].
  destruct (bind_param 4 (dict_get data "program_type" (VStr ""))) as [e | p];
    [destruct n; discriminate |].
  intros H. exists n, s, p.
  repeat split; try reflexivity. intros ->. discriminate.
Qed.

(** C2 (as amended): for an id not yet tracked and a payload that
    [_compute_hash] hashes (no integer of more than 4300 digits) and the
    INSERT accepts ([name], [state] and [program_type] bind and [name] is
    not null), two calls in succession with that payload return
    (True, False) and then (False, False), and the second call adds no
    snapshot row and no change row. *)
Theorem record_incentive_twice {oracle : Oracle} key data w h :
  storage_never_fails oracle ->
  select_incentive key (disk w) = None ->
  _compute_hash data = inr h ->
  insertable data = true ->
  exists w1 w2,
    record_incentive key data w = (inr (true, false), w1)
    /\ record_incentive key data w1 = (inr (false, false), w2)
    /\ incentive_snapshots (disk w2) = incentive_snapshots (disk w1)
    /\ incentive_changes (disk w2) = incentive_changes (disk w1).
Proof.
  intros Hnf Hsel Hhash Hins.
  destruct (proj1 (compute_hash_inr data h) Hhash) as [Hints ->].
  destruct (insertable_binds data Hins) as (n & s & p & Hn & Hnn & Hs & Hp).
  pose proof (record_incentive_new Hnf key data w n s p Hints Hsel Hn Hnn Hs Hp)
    as Hfirst.
  set (w1 := mkWorld (store_after_insert key n s p data w)
               (3 + clock_reads w) (4 + io_ops w)) in *.
  pose proof (select_after_insert key n s p data w Hsel) as Hsel1.
  change (store_after_insert key n s p data w) with (disk w1) in Hsel1.
  exists w1. eexists. split; [exact Hfirst |]. split.
  - exact (record_incentive_same_hash Hnf key data w1 _ Hsel1 Hhash).
  - split; reflexivity.
Qed.

Lemma record_incentive_twice_witness :
  storage_never_fails slow_clock
  /\ select_incentive "7" (disk fresh_world) = None
  /\ _compute_hash payload_100 = inr (payload_hash payload_100)
  /\ insertable payload_100 = true
  /\ exists w1 w2,
       @record_incentive slow_clock "7" payload_100 fresh_world
       = (inr (true, false), w1)
       /\ @record_incentive slow_clock "7" payload_100 w1
          = (inr (false, false), w2)
       /\ incentive_snapshots (disk w2) = incentive_snapshots (disk w1)
       /\ incentive_changes (disk w2) = incentive_changes (disk w1).
Proof.
  assert (H1 : storage_never_fails slow_clock) by (intros k; reflexivity).
  assert (H2 : select_incentive "7" (disk fresh_world) = None) by reflexivity.
  assert (H3 : _compute_hash payload_100 = inr (payload_hash payload_100))
    by (vm_compute; reflexivity).
  assert (H4 : insertable payload_100 = true) by reflexivity.
  repeat (split; [assumption |]).
  exact (@record_incentive_twice slow_clock "7" payload_100 fresh_world _
           H1 H2 H3 H4).
Defined.

(** C2 (as stated) fails: for a payload whose [name] is null the first call
    raises at the INSERT and nothing is recorded; for a payload that holds
    the integer 10^4300 it raises in [_compute_hash], before the clock is
    read and the database opened. *)
Lemma record_incentive_twice_counterexample :
  select_incentive "7" (disk fresh_world) = None
  /\ @record_incentive slow_clock "7" null_name fresh_world
     = (inl (Exception "IntegrityError"
               "NOT NULL constraint failed: incentives.name"),
        mkWorld _init_database 2 2)
  /\ insertable long_amount = true
  /\ @record_incentive slow_clock "7" long_amount fresh_world
     = (inl int_to_str_error, fresh_world).
Proof.
  split; [vm_compute; reflexivity |].
  split; [vm_compute; reflexivity |].
  split; [reflexivity |].
  apply record_incentive_unhashed. vm_compute. reflexivity.
Qed.

(** *** One call is one transaction *)

(** C3: a raising [record_incentive] leaves the file exactly as it was; a
    returning one has published all its writes together: the entity row
    (hash of the payload, seen now, active), the snapshot when the entity is
    new or updated, and the change rows of an update. *)
Theorem record_incentive_atomic {oracle : Oracle} key data w :
  match record_incentive key data w with
  | (inl _, w') => disk w' = disk w
  | (inr (is_new, is_updated), w') =>
      exists e,
        select_incentive key (disk w') = Some e
        /\ _compute_hash data = inr (Incentive.data_hash e)
        /\ Incentive.last_seen_at e = clock_us (clock_reads w)
        /\ Incentive.is_active e = true
        /\ (if is_new || is_updated
            then exists snap,
                incentive_snapshots (disk w')
                = (incentive_snapshots (disk w) ++ [snap])%list
                /\ Snapshot.incentive_id snap = Incentive.id e
                /\ json_dumps false (VDict data)
                   = inr (Snapshot.data_json snap)
                /\ _compute_hash data = inr (Snapshot.data_hash snap)
            else incentive_snapshots (disk w') = incentive_snapshots (disk w))
        /\ (if is_updated
            then exists base rows,
                diff_base (Incentive.id e) (disk w) = inr base
                /\ incentive_changes (disk w')
                   = (incentive_changes (disk w) ++ rows)%list
                /\ map spec_of_change rows = changes_against base data
            else incentive_changes (disk w') = incentive_changes (disk w))
  end.
Proof.
  destruct (record_incentive key data w) as [[ex | [is_new is_updated]] w']
    eqn:H.
  - exact (record_incentive_raise _ _ _ _ _ H).
  - destruct (record_incentive_tracked _ _ _ _ _ H) as (e & He & Hh & Hs & Ha).
    pose proof (record_incentive_hash_returns _ _ _ _ _ H) as Hhash.
    pose proof (json_dumps_hashed false _ _ Hhash) as Hjson.
    exists e. split; [assumption |]. split; [rewrite Hh; exact Hhash |].
    repeat (split; [assumption |]).
    apply record_incentive_return in H.
    destruct H as [(Hsel & Hr & n & s & p & _ & _ & Hd & _)
                 | [(e0 & Hsel & Hh0 & Hr & Hd & _)
                   | (e0 & base & Hsel & _ & Hbase & Hr & Hd & _)]];
      injection Hr as -> ->; cbn [orb]; rewrite Hd in *.
    + rewrite (select_after_insert _ _ _ _ _ _ Hsel) in He.
      injection He as <-. split; [| reflexivity].
      eexists. split; [reflexivity |].
        split; [reflexivity | split; [exact Hjson | exact Hhash]].
    + split; reflexivity.
    + rewrite (select_after_update _ _ _ _ _ Hsel) in He.
      injection He as <-. rewrite touch_hash_id, touch_last_seen_id. split.
      * eexists. split; [reflexivity |].
        split; [reflexivity | split; [exact Hjson | exact Hhash]].
      * exists base. eexists. split; [exact Hbase |].
        split; [reflexivity |]. apply change_rows_specs.
Qed.

(** *** Hash and key order *)

Lemma forallb_permutation {A : Type} (f : A -> bool) (l1 l2 : list A) :
  Permutation l1 l2 -> forallb f l1 = forallb f l2.
Proof.
  induction 1 as [| x l1 l2 HP IH | x y l | l1 l2 l3 HP1 IH1 HP2 IH2]; simpl.
  - reflexivity.
  - rewrite IH. reflexivity.
  - destruct (f x), (f y); reflexivity.
  - congruence.
Qed.

(** [_compute_hash] has the same outcome, digest or ValueError, on payloads
    with the same entries. *)
Lemma compute_hash_outcome_same_entries (d1 d2 : dict) :
  NoDup (map fst d1) -> NoDup (map fst d2) ->
  (forall k, dict_lookup d1 k = dict_lookup d2 k) ->
  _compute_hash d1 = _compute_hash d2.
Proof.
  intros H1 H2 Heq. rewrite !compute_hash_cases.
  rewrite (compute_hash_same_entries d1 d2 H1 H2 Heq).
  cbn [ints_convertible].
  rewrite (forallb_permutation _ d1 d2
             (same_entries_permutation d1 d2 H1 H2 Heq)).
  reflexivity.
Qed.

(** C5: payloads with the same entries in any order have the same hash, and
    recording the second after the first returns (False, False) and adds no
    snapshot and no change row. *)
Theorem compute_hash_key_order {oracle : Oracle} (d1 d2 : dict) :
  NoDup (map fst d1) -> NoDup (map fst d2) ->
  (forall k, dict_lookup d1 k = dict_lookup d2 k) ->
  _compute_hash d1 = _compute_hash d2
  /\ forall key w r w1,
       storage_never_fails oracle ->
       record_incentive key d1 w = (inr r, w1) ->
       exists w2,
         record_incentive key d2 w1 = (inr (false, false), w2)
         /\ incentive_snapshots (disk w2) = incentive_snapshots (disk w1)
         /\ incentive_changes (disk w2) = incentive_changes (disk w1).
Proof.
  intros H1 H2 Heq.
  pose proof (compute_hash_outcome_same_entries d1 d2 H1 H2 Heq) as Hh.
  split; [exact Hh |].
  intros key w r w1 Hnf Hrun.
  destruct (record_incentive_tracked _ _ _ _ _ Hrun) as (e & He & Hhe & _).
  pose proof (record_incentive_hash_returns _ _ _ _ _ Hrun) as Hret.
  rewrite <- Hhe, Hh in Hret.
  eexists. split.
  - exact (record_incentive_same_hash Hnf key d2 w1 e He Hret).
  - split; reflexivity.
Qed.

Lemma compute_hash_key_order_witness :
  NoDup (map fst payload_ab) /\ NoDup (map fst payload_ba)
  /\ (forall k, dict_lookup payload_ab k = dict_lookup payload_ba k)
  /\ _compute_hash payload_ab = _compute_hash payload_ba
  /\ exists w2,
       @record_incentive slow_clock "7" payload_ba
         (@after slow_clock "7" payload_ab fresh_world)
       = (inr (false, false), w2).
Proof.
  assert (H1 : NoDup (map fst payload_ab)).
  { repeat (constructor; [simpl; intuition discriminate |]). constructor. }
  assert (H2 : NoDup (map fst payload_ba)).
  { repeat (constructor; [simpl; intuition discriminate |]). constructor. }
  assert (H3 : forall k, dict_lookup payload_ab k = dict_lookup payload_ba k).
  { intros k. unfold payload_ab, payload_ba, dict_lookup.
    destruct (String.eqb "a" k) eqn:Ea, (String.eqb "b" k) eqn:Eb;
      try reflexivity.
    apply String.eqb_eq in Ea, Eb. subst. discriminate. }
  repeat (split; [assumption |]).
  destruct (@compute_hash_key_order slow_clock payload_ab payload_ba H1 H2 H3)
    as (Hh & Hrec).
  split; [exact Hh |].
  destruct (Hrec "7" fresh_world (true, false)
              (@after slow_clock "7" payload_ab fresh_world))
    as (w2 & Hrun & _).
  - intros k. reflexivity.
  - vm_compute. reflexivity.
  - exists w2. exact Hrun.
Defined.

(** *** Scope rotation *)

Lemma forallb_str_in_incl (l1 l2 : list string) :
  forallb (fun x => str_in x l2) l1 = true -> incl l1 l2.
Proof.
  rewrite forallb_forall. intros H x Hx. apply str_in_true. exact (H x Hx).
Qed.

Lemma weekday_range now : 0 <= weekday now < 7.
Proof. unfold weekday. apply Z.mod_pos_bound. lia. Qed.

(** C8: whatever the day, [_get_states_for_today] returns a list that
    contains every priority state; on weekday 6 (Sunday), or when
    [scan_all_states] is configured, it returns exactly [US_STATES]. *)
Theorem get_states_for_today_scope {oracle : Oracle} (self : DailyScheduler)
    (w : World) :
  exists states w',
    _get_states_for_today self w = (inr states, w')
    /\ incl PRIORITY_STATES states
    /\ (weekday (clock_us (clock_reads w)) = 6
        \/ py_truthy (dict_get (config self) "scan_all_states" VNone) = true ->
        states = US_STATES).
Proof.
  unfold _get_states_for_today. unfold bind, datetime_now.
  pose proof (weekday_range (clock_us (clock_reads w))) as Hr.
  remember (weekday (clock_us (clock_reads w))) as d eqn:Ed. clear Ed.
  destruct (py_truthy (dict_get (config self) "scan_all_states" VNone)).
  - rewrite orb_true_r. unfold ret. eexists. eexists.
    split; [reflexivity |]. split; [| reflexivity].
    apply forallb_str_in_incl. vm_compute. reflexivity.
  - rewrite orb_false_r.
    assert (Hd : d = 0 \/ d = 1 \/ d = 2 \/ d = 3 \/ d = 4 \/ d = 5 \/ d = 6)
      by lia.
    destruct Hd as [-> | [-> | [-> | [-> | [-> | [-> | ->]]]]]];
      cbn; unfold ret; eexists; eexists;
      (split; [reflexivity |]);
      (split; [apply forallb_str_in_incl; vm_compute; reflexivity |]);
      intros [H | H]; try discriminate H; reflexivity.
Qed.

(** *** Records without an id *)


Lemma str_int_nonempty z : str_int z <> "".
Proof.
  unfold str_int.
  destruct z as [| p | p]; cbn; try discriminate;
    pose proof (DecimalPos.Unsigned.to_uint_nonnil p) as Hn;
    destruct (Pos.to_uint p); try discriminate; congruence.
Qed.

(** Only the empty text stringifies to the empty text. *)
Lemma py_str_empty v : py_str v = "" -> v = VStr "".
Proof.
  destruct v as [| [] | z | s | l | d]; cbn; try discriminate.
  - intros H. exfalso. exact (str_int_nonempty z H).
  - intros ->. reflexivity.
Qed.

Lemma skipped_convertible (d : dict) :
  skipped (VDict d) = true -> ints_convertible (dict_get d "id" (VStr "")) = true.
Proof.
  cbn [skipped]. intros H. apply String.eqb_eq in H.
  rewrite (py_str_empty _ H). reflexivity.
Qed.

Section SkippedRecordsLoop.

Context {oracle : Oracle} {net : Type} {client : Client net}.


Lemma skipped_empty_id (d : dict) :
  dict_lookup d "id" = Some (VStr "") -> skipped (VDict d) = true.
Proof. intros H. unfold skipped, dict_get. rewrite H. reflexivity. Qed.

Lemma run_scan_program_skipped (self : DailyScheduler) state program
    (st : ScanState net) :
  skipped program = true ->
  run_scan_program self state program st = (inr tt, st).
Proof.
  destruct program as [| | | | | d]; try discriminate.
  intros H. pose proof (skipped_convertible d H) as Hc. cbn [skipped] in H.
  unfold run_scan_program. cbn [program_id]. rewrite Hc.
  unfold bind at 1. unfold ret at 1. rewrite H. reflexivity.
Qed.

Lemma scan_states_program_skipped include_details program
    (st : ScanState net) :
  skipped program = true ->
  scan_states_program include_details program st = (inr tt, st).
Proof.
  destruct program as [| | | | | d]; try discriminate.
  intros H. pose proof (skipped_convertible d H) as Hc. cbn [skipped] in H.
  unfold scan_states_program. cbn [program_id]. rewrite Hc.
  unfold bind at 1. unfold ret at 1. rewrite H. reflexivity.
Qed.


End SkippedRecordsLoop.


(** *** What a scan leaves in place *)

Lemma store_grows_refl db : store_grows db db.
Proof. split; [auto | reflexivity]. Qed.

Lemma store_grows_trans db1 db2 db3 :
  store_grows db1 db2 -> store_grows db2 db3 -> store_grows db1 db3.
Proof.
  intros [H1 L1] [H2 L2]. split; [auto | congruence].
Qed.

Lemma tracked_map_incentives key f db :
  (forall r, Incentive.dsire_id (f r) = Incentive.dsire_id r) ->
  tracked key db -> tracked key (map_incentives f db).
Proof.
  unfold tracked, select_incentive. cbn [incentives map_incentives].
  intros Hf H. rewrite find_map_same.
  - destruct (find _ (incentives db)); [discriminate | contradiction].
  - intros x. rewrite Hf. reflexivity.
Qed.

Section WorldSteps.

Context {oracle : Oracle}.

Lemma record_incentive_grows key data w r w' :
  record_incentive key data w = (r, w') -> store_grows (disk w) (disk w').
Proof.
  destruct r as [e | r]; intros H.
  - rewrite (record_incentive_raise _ _ _ _ _ H). apply store_grows_refl.
  - apply record_incentive_return in H.
    destruct H as [(_ & _ & n & s & p & _ & _ & Hd & _)
                 | [(e0 & _ & _ & _ & Hd & _)
                   | (e0 & base & _ & _ & _ & _ & Hd & _)]]; rewrite Hd.
    + split; [| reflexivity]. intros k. unfold tracked, select_incentive.
      cbn [store_after_insert incentives append_snapshot append_incentive].
      destruct (find _ (incentives (disk w))) as [x |] eqn:E;
        [| contradiction].
      intros _. rewrite (find_app_some _ _ _ _ E). discriminate.
    + split; [| reflexivity]. intros k. apply tracked_map_incentives.
      intros x. apply touch_last_seen_key.
    + split; [| reflexivity]. intros k Hk.
      unfold tracked, select_incentive in *.
      cbn [store_after_update incentives]. rewrite map_map.
      rewrite (find_map_same _
                 (fun x => touch_hash _ _ _ (touch_last_seen _ _ x))).
      * destruct (find _ (incentives (disk w))); [discriminate | contradiction].
      * intros x. rewrite touch_hash_key, touch_last_seen_key. reflexivity.
Qed.

Lemma datetime_now_disk w r w' : datetime_now w = (r, w') -> disk w' = disk w.
Proof. unfold datetime_now. intros H. injection H as _ <-. reflexivity. Qed.

End WorldSteps.

Section ScanSteps.

Context {oracle : Oracle} {net : Type} {client : Client net}.

Section Preorder.

Variable R : ScanState net -> ScanState net -> Prop.
Hypothesis R_refl : forall st, R st st.
Hypothesis R_trans : forall st1 st2 st3, R st1 st2 -> R st2 st3 -> R st1 st3.

Lemma within_ret {A : Type} (a : A) : within R (ret a).
Proof. intros st r st' H. injection H as _ <-. apply R_refl. Qed.

Lemma within_raise {A : Type} (e : exn) : within R (@raise _ A e).
Proof. intros st r st' H. injection H as _ <-. apply R_refl. Qed.

Lemma within_results : within R results.
Proof. intros st r st' H. injection H as _ <-. apply R_refl. Qed.

Lemma within_bind {A B : Type} (m : Eff (ScanState net) A)
    (k : A -> Eff (ScanState net) B) :
  within R m -> (forall a, within R (k a)) -> within R (bind m k).
Proof.
  intros Hm Hk st r st'. unfold bind.
  destruct (m st) as [[e | a] st1] eqn:E; intros H.
  - injection H as _ <-. exact (Hm _ _ _ E).
  - eapply R_trans; [exact (Hm _ _ _ E) | exact (Hk a _ _ _ H)].
Qed.

Lemma within_try_except {A : Type} (m : Eff (ScanState net) A)
    (h : exn -> Eff (ScanState net) A) :
  within R m -> (forall e, within R (h e)) -> within R (try_except m h).
Proof.
  intros Hm Hh st r st'. unfold try_except.
  destruct (m st) as [[e | a] st1] eqn:E; intros H.
  - eapply R_trans; [exact (Hm _ _ _ E) | exact (Hh e _ _ _ H)].
  - injection H as _ <-. exact (Hm _ _ _ E).
Qed.

Lemma within_for_each {A : Type} (l : list A)
    (body : A -> Eff (ScanState net) unit) :
  (forall x, within R (body x)) -> within R (for_each l body).
Proof.
  intros Hb. induction l as [| x l IH]; cbn [for_each].
  - apply within_ret.
  - apply within_bind; [apply Hb | intros _; exact IH].
Qed.

End Preorder.

Lemma scan_grows_refl (st : ScanState net) : scan_grows st st.
Proof. apply store_grows_refl. Qed.

Lemma scan_grows_trans (st1 st2 st3 : ScanState net) :
  scan_grows st1 st2 -> scan_grows st2 st3 -> scan_grows st1 st3.
Proof. apply store_grows_trans. Qed.

Lemma same_errors_refl (st : ScanState net) : same_errors st st.
Proof. reflexivity. Qed.

Lemma same_errors_trans (st1 st2 st3 : ScanState net) :
  same_errors st1 st2 -> same_errors st2 st3 -> same_errors st1 st3.
Proof. unfold same_errors. congruence. Qed.

Lemma grows_call_client {A : Type} (f : net -> (exn + A) * net) :
  within (net := net) scan_grows (call_client f).
Proof.
  intros st r st'. unfold call_client. destruct (f (st_net st)).
  intros H. injection H as _ <-. apply store_grows_refl.
Qed.

Lemma errors_call_client {A : Type} (f : net -> (exn + A) * net) :
  within (net := net) same_errors (call_client f).
Proof.
  intros st r st'. unfold call_client. destruct (f (st_net st)).
  intros H. injection H as _ <-. reflexivity.
Qed.

Lemma grows_update_results f :
  within (net := net) scan_grows (update_results f).
Proof. intros st r st' H. injection H as _ <-. apply store_grows_refl. Qed.

Lemma errors_update_results f :
  (forall r, r_errors (f r) = r_errors r) ->
  within (net := net) same_errors (update_results f).
Proof. intros Hf st r st' H. injection H as _ <-. apply Hf. Qed.

Lemma grows_add_found_id k : within (net := net) scan_grows (add_found_id k).
Proof. intros st r st' H. injection H as _ <-. apply store_grows_refl. Qed.

Lemma errors_add_found_id k : within (net := net) same_errors (add_found_id k).
Proof. intros st r st' H. injection H as _ <-. reflexivity. Qed.

Lemma errors_tracker {A : Type} (m : M A) :
  within (net := net) same_errors (tracker m).
Proof.
  intros st r st'. unfold tracker. destruct (m (st_world st)).
  intros H. injection H as _ <-. reflexivity.
Qed.

Lemma grows_tracker {A : Type} (m : M A) :
  (forall w r w', m w = (r, w') -> store_grows (disk w) (disk w')) ->
  within (net := net) scan_grows (tracker m).
Proof.
  intros Hm st r st'. unfold tracker.
  destruct (m (st_world st)) as [r0 w'] eqn:E.
  intros H. injection H as _ <-. exact (Hm _ _ _ E).
Qed.

Lemma grows_now_isoformat : within (net := net) scan_grows now_isoformat.
Proof.
  unfold now_isoformat.
  apply within_bind; [apply scan_grows_trans | |].
  - apply grows_tracker. intros w r w' H.
    rewrite (datetime_now_disk _ _ _ H). apply store_grows_refl.
  - intros a. apply within_ret. apply scan_grows_refl.
Qed.

Lemma errors_now_isoformat : within (net := net) same_errors now_isoformat.
Proof.
  unfold now_isoformat.
  apply within_bind; [apply same_errors_trans | |].
  - apply errors_tracker.
  - intros a. apply within_ret. apply same_errors_refl.
Qed.

End ScanSteps.

(** *** The loop bodies of the two scans *)

Ltac grows_tac :=
  repeat first
    [ apply within_ret; apply scan_grows_refl
    | apply within_raise; apply scan_grows_refl
    | apply within_results; apply scan_grows_refl
    | apply grows_call_client
    | apply grows_update_results
    | apply grows_add_found_id
    | apply grows_now_isoformat
    | apply grows_tracker; apply record_incentive_grows
    | apply within_bind; [apply scan_grows_trans | | intros]
    | match goal with
      | |- within _ (if ?b then _ else _) => destruct b
      | |- within _ (match ?x with Some _ => _ | None => _ end) => destruct x
      | |- within _ (match ?x with VDict _ => _ | _ => _ end) => destruct x
      | |- within _ (let (_, _) := ?x in _) => destruct x
      end ].

Ltac errors_tac :=
  repeat first
    [ apply within_ret; apply same_errors_refl
    | apply within_raise; apply same_errors_refl
    | apply within_results; apply same_errors_refl
    | apply errors_call_client
    | apply errors_update_results; intros; reflexivity
    | apply errors_add_found_id
    | apply errors_now_isoformat
    | apply errors_tracker
    | apply within_bind; [apply same_errors_trans | | intros]
    | match goal with
      | |- within _ (if ?b then _ else _) => destruct b
      | |- within _ (match ?x with Some _ => _ | None => _ end) => destruct x
      | |- within _ (match ?x with VDict _ => _ | _ => _ end) => destruct x
      | |- within _ (let (_, _) := ?x in _) => destruct x
      end ].

Section ScanBodies.

Context {oracle : Oracle} {net : Type} {client : Client net}.

Lemma grows_with_details key program :
  within scan_grows (with_details key program).
Proof. unfold with_details. grows_tac. Qed.

Lemma errors_with_details key program :
  within same_errors (with_details key program).
Proof. unfold with_details. errors_tac. Qed.

Lemma grows_run_scan_program self state program :
  within scan_grows (run_scan_program self state program).
Proof.
  unfold run_scan_program, program_id.
  destruct program; grows_tac; apply grows_with_details.
Qed.

Lemma errors_run_scan_program self state program :
  within same_errors (run_scan_program self state program).
Proof.
  unfold run_scan_program, program_id.
  destruct program; errors_tac; apply errors_with_details.
Qed.

Lemma grows_scan_states_program include_details program :
  within scan_grows (scan_states_program include_details program).
Proof.
  unfold scan_states_program, program_id.
  destruct program; grows_tac; apply grows_with_details.
Qed.

Lemma errors_scan_states_program include_details program :
  within same_errors (scan_states_program include_details program).
Proof.
  unfold scan_states_program, program_id.
  destruct program; errors_tac; apply errors_with_details.
Qed.

End ScanBodies.

Section Observations.

Context {oracle : Oracle}.

Lemma observed_app announce include_details records1 :
  forall records2 w1 w2 w3,
    observed announce include_details records1 w1 w2 ->
    observed announce include_details records2 w2 w3 ->
    observed announce include_details (records1 ++ records2) w1 w3.
Proof.
  induction records1 as [| r records1 IH]; intros records2 w1 w2 w3 H1 H2.
  - inversion H1; subst. exact H2.
  - inversion H1 as [| ? ? payload flags ? wa ? Hp Hrec Hrest]; subst.
    cbn [app]. eapply observed_next; [exact Hp | exact Hrec |].
    eapply IH; [exact Hrest | exact H2].
Qed.

Lemma Z_len_app {A : Type} (l1 l2 : list A) :
  Z_len (l1 ++ l2) = Z_len l1 + Z_len l2.
Proof. unfold Z_len. rewrite length_app. lia. Qed.

End Observations.

Section RecordObserved.

Context {oracle : Oracle} {net : Type} {client : Client net}.

Lemma with_details_payload key d (st st' : ScanState net) prog :
  with_details key d st = (inr prog, st') ->
  st_world st' = st_world st
  /\ st_results st' = st_results st
  /\ payload_of true d prog.
Proof.
  unfold with_details, bind, call_client.
  destruct (get_program_details key (st_net st)) as [[e | [details |]] n1];
    intros H; try discriminate H; injection H as <- <-; cbn.
  - repeat split. right. split; [reflexivity |]. exists details. reflexivity.
  - repeat split. left. reflexivity.
Qed.

(** What [run_scan] does with one fetched record that has an id. *)
Lemma run_scan_program_observes self state d (st st' : ScanState net) :
  skipped (VDict d) = false ->
  run_scan_program self state (VDict d) st = (inr tt, st') ->
  exists payload flags w1,
    payload_of (py_truthy (dict_get (config self) "include_details" VNone))
      d payload
    /\ record_incentive (py_str (dict_get d "id" (VStr ""))) payload
         (st_world st) = (inr flags, w1)
    /\ st_world st' = (if true && fst flags then snd (datetime_now w1) else w1)
    /\ r_total_found (st_results st') = r_total_found (st_results st) + 1
    /\ r_errors (st_results st') = r_errors (st_results st).
Proof.
  intros Hs H. unfold run_scan_program in H. cbn [program_id] in H.
  destruct (ints_convertible (dict_get d "id" (VStr "")));
    [| unfold bind, raise in H; discriminate H].
  unfold bind at 1 in H. unfold ret at 1 in H.
  cbn [skipped] in Hs. rewrite Hs in H.
  apply bind_inr in H. destruct H as (u & st1 & Hadd & H).
  unfold add_found_id in Hadd. injection Hadd as _ <-.
  apply bind_inr in H. destruct H as (prog & st2 & Hprog & H).
  assert (Hp : st_world st2 = st_world st
               /\ st_results st2 = st_results st
               /\ payload_of
                    (py_truthy (dict_get (config self) "include_details" VNone))
                    d prog).
  { destruct (py_truthy (dict_get (config self) "include_details" VNone)).
    - apply with_details_payload in Hprog. exact Hprog.
    - injection Hprog as <- <-. repeat split. left. reflexivity. }
  destruct Hp as (Hw2 & Hr2 & Hp).
  apply bind_inr in H. destruct H as (flags & st3 & Hrec & H).
  unfold tracker in Hrec. rewrite Hw2 in Hrec.
  destruct (record_incentive (py_str (dict_get d "id" (VStr ""))) prog
              (st_world st)) as [r w1] eqn:Erec.
  injection Hrec as -> <-.
  exists prog, flags, w1. split; [exact Hp |]. split; [exact Erec |].
  destruct flags as [[] []];
    unfold bind, now_isoformat, tracker, datetime_now, update_results, ret in H;
    cbn in H; injection H as <-; cbn; rewrite Hr2; repeat split.
Qed.

(** What [scan_states] does with one fetched record that has an id. *)
Lemma scan_states_program_observes include_details d (st st' : ScanState net) :
  skipped (VDict d) = false ->
  scan_states_program include_details (VDict d) st = (inr tt, st') ->
  exists payload flags w1,
    payload_of include_details d payload
    /\ record_incentive (py_str (dict_get d "id" (VStr ""))) payload
         (st_world st) = (inr flags, w1)
    /\ st_world st' = (if false && fst flags then snd (datetime_now w1) else w1)
    /\ r_total_found (st_results st') = r_total_found (st_results st) + 1
    /\ r_errors (st_results st') = r_errors (st_results st).
Proof.
  intros Hs H. unfold scan_states_program in H. cbn [program_id] in H.
  destruct (ints_convertible (dict_get d "id" (VStr "")));
    [| unfold bind, raise in H; discriminate H].
  unfold bind at 1 in H. unfold ret at 1 in H.
  cbn [skipped] in Hs. rewrite Hs in H.
  apply bind_inr in H. destruct H as (prog & st2 & Hprog & H).
  assert (Hp : st_world st2 = st_world st
               /\ st_results st2 = st_results st
               /\ payload_of include_details d prog).
  { destruct include_details.
    - apply with_details_payload in Hprog. exact Hprog.
    - injection Hprog as <- <-. repeat split. left. reflexivity. }
  destruct Hp as (Hw2 & Hr2 & Hp).
  apply bind_inr in H. destruct H as (flags & st3 & Hrec & H).
  unfold tracker in Hrec. rewrite Hw2 in Hrec.
  destruct (record_incentive (py_str (dict_get d "id" (VStr ""))) prog
              (st_world st)) as [r w1] eqn:Erec.
  injection Hrec as -> <-.
  exists prog, flags, w1. split; [exact Hp |]. split; [exact Erec |].
  destruct flags as [[] []];
    unfold bind, update_results, ret in H;
    cbn in H; injection H as <-; cbn; rewrite Hr2; repeat split.
Qed.

(** Both loop bodies raise on a record that is no dict. *)
Lemma run_scan_program_dict self state program (st st' : ScanState net) :
  run_scan_program self state program st = (inr tt, st') ->
  exists d, program = VDict d.
Proof.
  destruct program as [| b | z | s | l | d]; try discriminate.
  intros _. exists d. reflexivity.
Qed.

Lemma scan_states_program_dict include_details program (st st' : ScanState net) :
  scan_states_program include_details program st = (inr tt, st') ->
  exists d, program = VDict d.
Proof.
  destruct program as [| b | z | s | l | d]; try discriminate.
  intros _. exists d. reflexivity.
Qed.

End RecordObserved.

(** *** Scanning scope after scope *)

Section ScopeLoop.

Context {oracle : Oracle} {net : Type} {client : Client net}.

Variable body : string -> value -> Eff (ScanState net) unit.
Variable message : string -> exn -> string.

Hypothesis body_grows : forall state program, within scan_grows (body state program).
Hypothesis body_errors : forall state program, within same_errors (body state program).
Lemma grows_scope_fetch state : within scan_grows (scope_fetch body state).
Proof.
  unfold scope_fetch. apply within_bind; [apply scan_grows_trans | |].
  - apply grows_call_client.
  - intros programs.
    apply within_for_each;
      [apply scan_grows_refl | apply scan_grows_trans | apply body_grows].
Qed.

Lemma errors_scope_fetch state : within same_errors (scope_fetch body state).
Proof.
  unfold scope_fetch. apply within_bind; [apply same_errors_trans | |].
  - apply errors_call_client.
  - intros programs.
    apply within_for_each;
      [apply same_errors_refl | apply same_errors_trans | apply body_errors].
Qed.

Lemma grows_scope_step state : within scan_grows (scope_step body message state).
Proof.
  unfold scope_step. apply within_try_except; [apply scan_grows_trans | |].
  - apply grows_scope_fetch.
  - intros e. apply grows_update_results.
Qed.

Lemma grows_scan_scopes states : within scan_grows (scan_scopes body message states).
Proof.
  unfold scan_scopes.
  apply within_for_each;
    [apply scan_grows_refl | apply scan_grows_trans | apply grows_scope_step].
Qed.

Lemma scope_step_ok state st st' :
  scope_fetch body state st = (inr tt, st') ->
  scope_step body message state st = (inr tt, st').
Proof. intros H. unfold scope_step, try_except. rewrite H. reflexivity. Qed.

Lemma scope_step_failed state st e st' :
  scope_fetch body state st = (inl e, st') ->
  scope_step body message state st =
  (inr tt, mkScan (st_world st') (st_net st')
             (append_error (message state e) (st_results st'))
             (st_found_ids st')).
Proof. intros H. unfold scope_step, try_except. rewrite H. reflexivity. Qed.

(** One scope never aborts the loop. *)
Lemma scope_step_returns state st :
  fst (scope_step body message state st) = inr tt.
Proof.
  unfold scope_step, try_except.
  destruct (scope_fetch body state st) as [[e | []] st']; reflexivity.
Qed.

Lemma scan_scopes_returns states : forall st,
  fst (scan_scopes body message states st) = inr tt.
Proof.
  unfold scan_scopes. induction states as [| s states IH]; intros st.
  - reflexivity.
  - cbn [for_each]. unfold bind.
    pose proof (scope_step_returns s st) as H.
    destruct (scope_step body message s st) as [[e | []] st1];
      [discriminate H | apply IH].
Qed.

Lemma scan_scopes_run states st :
  scan_scopes body message states st
  = (inr tt, snd (scan_scopes body message states st)).
Proof.
  pose proof (scan_scopes_returns states st) as H.
  destruct (scan_scopes body message states st) as [r st']. cbn in *.
  rewrite H. reflexivity.
Qed.

Lemma scan_scopes_cons state states st :
  snd (scan_scopes body message (state :: states) st)
  = snd (scan_scopes body message states
           (snd (scope_step body message state st))).
Proof.
  unfold scan_scopes. cbn [for_each]. unfold bind.
  pose proof (scope_step_returns state st) as H.
  destruct (scope_step body message state st) as [[e | []] st1];
    [discriminate H | reflexivity].
Qed.

Lemma scan_scopes_app states1 states2 : forall st,
  snd (scan_scopes body message (states1 ++ states2) st)
  = snd (scan_scopes body message states2
           (snd (scan_scopes body message states1 st))).
Proof.
  induction states1 as [| s states1 IH]; intros st.
  - reflexivity.
  - cbn [app]. rewrite !scan_scopes_cons. apply IH.
Qed.

Lemma scopes_succeed_cons state states st :
  scopes_succeed (scope_fetch body) (state :: states) st ->
  scope_fetch body state st = (inr tt, snd (scope_step body message state st))
  /\ scopes_succeed (scope_fetch body) states
       (snd (scope_step body message state st)).
Proof.
  cbn [scopes_succeed]. intros (st' & Hf & Hrest).
  rewrite (scope_step_ok _ _ _ Hf). cbn [snd]. split; assumption.
Qed.

Lemma scopes_succeed_app states1 states2 : forall st,
  scopes_succeed (scope_fetch body) (states1 ++ states2) st ->
  scopes_succeed (scope_fetch body) states2
    (snd (scan_scopes body message states1 st)).
Proof.
  induction states1 as [| s states1 IH]; intros st H.
  - exact H.
  - cbn [app] in H. apply scopes_succeed_cons in H. destruct H as [_ H].
    rewrite scan_scopes_cons. apply IH. exact H.
Qed.

(** Scopes that succeed add no error. *)
Lemma scopes_succeed_errors states : forall st,
  scopes_succeed (scope_fetch body) states st ->
  same_errors st (snd (scan_scopes body message states st)).
Proof.
  induction states as [| s states IH]; intros st H.
  - reflexivity.
  - apply scopes_succeed_cons in H. destruct H as [Hf H].
    rewrite scan_scopes_cons.
    eapply same_errors_trans; [| apply IH; exact H].
    exact (errors_scope_fetch _ _ _ _ Hf).
Qed.

(** A raising fetch raises out of the [try] block. *)
Lemma scope_fetch_raises state st e n :
  get_programs_by_state state (st_net st) = (inl e, n) ->
  scope_fetch body state st
  = (inl e, mkScan (st_world st) n (st_results st) (st_found_ids st)).
Proof.
  intros H. unfold scope_fetch, bind, call_client. rewrite H. reflexivity.
Qed.

End ScopeLoop.

Section ScopesObserved.

Context {oracle : Oracle} {net : Type} {client : Client net}.

Variable body : string -> value -> Eff (ScanState net) unit.
Variable message : string -> exn -> string.
Variables announce include_details : bool.

Hypothesis body_skips :
  forall state program st,
    skipped program = true -> body state program st = (inr tt, st).
Hypothesis body_dicts :
  forall state program st st',
    body state program st = (inr tt, st') -> exists d, program = VDict d.
Hypothesis body_observes :
  forall state d st st',
    skipped (VDict d) = false ->
    body state (VDict d) st = (inr tt, st') ->
    exists payload flags w1,
      payload_of include_details d payload
      /\ record_incentive (py_str (dict_get d "id" (VStr ""))) payload
           (st_world st) = (inr flags, w1)
      /\ st_world st'
         = (if announce && fst flags then snd (datetime_now w1) else w1)
      /\ r_total_found (st_results st') = r_total_found (st_results st) + 1
      /\ r_errors (st_results st') = r_errors (st_results st).

(** A loop over fetched records that returns has observed each record with
    an id, in order, and counted it. *)
Lemma for_each_observed state programs : forall st st',
  for_each programs (body state) st = (inr tt, st') ->
  observed announce include_details (with_id programs)
    (st_world st) (st_world st')
  /\ r_total_found (st_results st')
     = r_total_found (st_results st) + Z_len (with_id programs)
  /\ r_errors (st_results st') = r_errors (st_results st).
Proof.
  induction programs as [| p programs IH]; intros st st' H.
  - injection H as <-. cbn. split; [constructor | split; [lia | reflexivity]].
  - cbn [for_each] in H. apply bind_inr in H.
    destruct H as ([] & st1 & Hp & Hrest).
    destruct (body_dicts _ _ _ _ Hp) as (d & ->).
    destruct (IH _ _ Hrest) as (Hobs & Hcount & Herr).
    unfold with_id. cbn [flat_map]. fold (with_id programs).
    destruct (skipped (VDict d)) eqn:Hs.
    + rewrite (body_skips _ _ _ Hs) in Hp. injection Hp as <-.
      cbn [app]. split; [exact Hobs | split; [exact Hcount | exact Herr]].
    + destruct (body_observes _ _ _ _ Hs Hp)
        as (payload & flags & w1 & Hpay & Hrec & Hw & Ht & He).
      cbn [app]. split; [| split].
      * eapply observed_next; [exact Hpay | exact Hrec |].
        rewrite <- Hw. exact Hobs.
      * rewrite Hcount, Ht. unfold Z_len. cbn [List.length]. lia.
      * rewrite Herr. exact He.
Qed.

(** A scope whose [try] block returns has fetched its records, observed
    those with an id and counted them. *)
Lemma scope_fetch_observed state st st' :
  scope_fetch body state st = (inr tt, st') ->
  exists programs n,
    get_programs_by_state state (st_net st) = (inr programs, n)
    /\ observed announce include_details (with_id programs)
         (st_world st) (st_world st')
    /\ r_total_found (st_results st')
       = r_total_found (st_results st) + Z_len (with_id programs).
Proof.
  unfold scope_fetch. intros H. apply bind_inr in H.
  destruct H as (programs & st1 & Hc & Hloop).
  unfold call_client in Hc.
  destruct (get_programs_by_state state (st_net st)) as [r n] eqn:E.
  injection Hc as -> <-. exists programs, n. split; [reflexivity |].
  destruct (for_each_observed _ _ _ _ Hloop) as (Hobs & Hcount & _).
  split; [exact Hobs | exact Hcount].
Qed.

(** Scopes that succeed, one after the other: their records are observed
    and counted. *)
Lemma scopes_succeed_observed states : forall st,
  scopes_succeed (scope_fetch body) states st ->
  let st' := snd (scan_scopes body message states st) in
  observed announce include_details (fetched body message states st)
    (st_world st) (st_world st')
  /\ r_total_found (st_results st')
     = r_total_found (st_results st) + Z_len (fetched body message states st).
Proof.
  induction states as [| s states IH]; intros st H; cbv zeta.
  - cbn. split; [constructor | lia].
  - apply (scopes_succeed_cons body message) in H. destruct H as [Hf H].
    rewrite scan_scopes_cons. cbn [fetched].
    destruct (scope_fetch_observed _ _ _ Hf)
      as (programs & n & Hget & Hobs & Hcount).
    rewrite Hget.
    destruct (IH _ H) as (Hobs' & Hcount').
    split.
    + eapply observed_app; [exact Hobs | exact Hobs'].
    + rewrite Hcount', Hcount, Z_len_app. lia.
Qed.

(** The loop over scopes of which one fails to fetch. *)
Lemma scan_scopes_failing before failing later st e n :
  (forall state program, within same_errors (body state program)) ->
  scopes_succeed (scope_fetch body) before st ->
  let st1 := snd (scan_scopes body message before st) in
  get_programs_by_state failing (st_net st1) = (inl e, n) ->
  let st2 := after_failed_fetch (message failing e) n st1 in
  scopes_succeed (scope_fetch body) later st2 ->
  let final := snd (scan_scopes body message (before ++ failing :: later) st) in
  let records :=
    (fetched body message before st ++ fetched body message later st2)%list in
  r_errors (st_results final)
  = (r_errors (st_results st) ++ [message failing e])%list
  /\ observed announce include_details records (st_world st) (st_world final)
  /\ r_total_found (st_results final)
     = r_total_found (st_results st) + Z_len records.
Proof.
  intros body_errors Hbefore st1 Hget st2 Hlater final records.
  assert (Hstep : snd (scope_step body message failing st1) = st2).
  { rewrite (scope_step_failed _ _ _ _ _ _
               (scope_fetch_raises body _ _ _ _ Hget)).
    reflexivity. }
  assert (Hfinal : final = snd (scan_scopes body message later st2)).
  { unfold final. rewrite scan_scopes_app, scan_scopes_cons. fold st1.
    rewrite Hstep. reflexivity. }
  destruct (scopes_succeed_observed before st Hbefore) as (Ho1 & Hc1).
  destruct (scopes_succeed_observed later st2 Hlater) as (Ho2 & Hc2).
  fold st1 in Ho1, Hc1. rewrite <- Hfinal in Ho2, Hc2.
  split; [| split].
  - pose proof (scopes_succeed_errors body message body_errors later st2 Hlater)
      as E2.
    pose proof (scopes_succeed_errors body message body_errors before st Hbefore)
      as E1.
    unfold same_errors in E1, E2. rewrite <- Hfinal in E2. fold st1 in E1.
    rewrite E2. unfold st2, after_failed_fetch.
    cbn [st_results append_error r_errors]. rewrite E1. reflexivity.
  - unfold records. eapply observed_app; [exact Ho1 | exact Ho2].
  - unfold records. rewrite Hc2, Z_len_app.
    unfold st2 at 1, after_failed_fetch.
    cbn [st_results append_error r_total_found]. rewrite Hc1. lia.
Qed.

End ScopesObserved.

(** *** The two scan loops *)

Section ScanLoops.

Context {oracle : Oracle} {net : Type} {client : Client net}.

Lemma run_scan_loop (self : DailyScheduler) states (st : ScanState net) :
  for_each states (run_scan_state self) st
  = scan_scopes (run_scan_program self) run_scan_error states st.
Proof. reflexivity. Qed.

Lemma scan_states_state_quiet include_details progress_callback total idx state
    (st : ScanState net) :
  quiet progress_callback ->
  scan_states_state include_details progress_callback total (idx, state) st
  = scope_step (fun _ => scan_states_program include_details)
      scan_states_error state st.
Proof.
  intros Hq. unfold scan_states_state.
  destruct progress_callback as [callback |]; cbn [quiet] in Hq.
  - rewrite Hq. reflexivity.
  - reflexivity.
Qed.

Lemma scan_states_loop include_details progress_callback total states :
  quiet progress_callback ->
  forall start (st : ScanState net),
    for_each (enumerate states start)
      (scan_states_state include_details progress_callback total) st
    = scan_scopes (fun _ => scan_states_program include_details)
        scan_states_error states st.
Proof.
  intros Hq. induction states as [| s states IH]; intros start st.
  - reflexivity.
  - unfold enumerate. cbn [List.length seq combine for_each].
    unfold scan_scopes. cbn [for_each]. unfold bind.
    rewrite (scan_states_state_quiet _ _ _ _ _ _ Hq).
    destruct (scope_step _ _ s st) as [[e | []] st1]; [reflexivity |].
    apply (IH (S start) st1).
Qed.

End ScanLoops.

(** *** Opening and closing a scan run *)

Section ScanLogFacts.

Context {oracle : Oracle}.

Lemma start_scan_cases scan_type states w :
  (exists w',
     let opened := new_scan_log scan_type
                     (match states with
                      | [] => None
                      | _ => Some (json_text false (VList (map VStr states)))
                      end)
                     (clock_us (clock_reads w)) (disk w) in
     start_scan scan_type states w = (inr (ScanLog.id opened), w')
     /\ disk w' = append_scan_log opened (disk w))
  \/ (exists e w', start_scan scan_type states w = (inl e, w')
                   /\ disk w' = disk w).
Proof.
  destruct (start_scan scan_type states w) as [[e | scan_id] w'] eqn:H.
  - right. exists e, w'. split; [reflexivity |].
    exact (start_scan_raise _ _ _ _ _ H).
  - left. exists w'. cbn zeta. unfold start_scan in H.
    apply get_connection_return in H. destruct H as (c & Hb & Hd & _).
    apply bind_inr in Hb. destruct Hb as (now & c1 & Hnow & Hex).
    unfold tx_datetime_now in Hnow. injection Hnow as <- <-.
    unfold execute in Hex. cbn [world view bump_clock connect io_ops] in Hex.
    destruct (storage_fails (io_ops w)); [discriminate Hex |].
    cbn [insert_scan_log] in Hex. injection Hex as <- <-.
    cbn [view] in Hd. cbn [clock_reads]. split; [reflexivity | exact Hd].
Qed.

Lemma end_scan_cases scan_id status total new_count updated_count
    removed_count error_message w :
  (exists w',
     end_scan scan_id status total new_count updated_count removed_count
       error_message w = (inr tt, w')
     /\ disk w' = map_scan_logs
                    (close_scan_log status (clock_us (clock_reads w)) total
                       new_count updated_count removed_count error_message
                       scan_id) (disk w))
  \/ (exists e w',
        end_scan scan_id status total new_count updated_count removed_count
          error_message w = (inl e, w')
        /\ disk w' = disk w).
Proof.
  destruct (end_scan scan_id status total new_count updated_count
              removed_count error_message w) as [[e | []] w'] eqn:H.
  - right. exists e, w'. split; [reflexivity |].
    exact (end_scan_raise _ _ _ _ _ _ _ _ _ _ H).
  - left. exists w'. split; [reflexivity |]. unfold end_scan in H.
    apply get_connection_return in H. destruct H as (c & Hb & Hd & _).
    apply bind_inr in Hb. destruct Hb as (now & c1 & Hnow & Hex).
    unfold tx_datetime_now in Hnow. injection Hnow as <- <-.
    unfold execute in Hex. cbn [world view bump_clock connect io_ops] in Hex.
    destruct (storage_fails (io_ops w)); [discriminate Hex |].
    cbn [update_scan_log] in Hex. injection Hex as <-.
    cbn [view] in Hd. exact Hd.
Qed.

Lemma start_scan_no_fault scan_type states w :
  storage_never_fails oracle ->
  exists scan_id w', start_scan scan_type states w = (inr scan_id, w').
Proof.
  intros Hnf. unfold start_scan, _get_connection, bind, tx_datetime_now, execute.
  cbn [world view bump_clock connect io_ops]. rewrite Hnf.
  cbn [insert_scan_log world bump_io io_ops]. rewrite Hnf.
  eexists. eexists. reflexivity.
Qed.

Lemma end_scan_no_fault scan_id status total new_count updated_count
    removed_count error_message w :
  storage_never_fails oracle ->
  exists w', end_scan scan_id status total new_count updated_count
               removed_count error_message w = (inr tt, w').
Proof.
  intros Hnf. unfold end_scan, _get_connection, bind, tx_datetime_now, execute.
  cbn [world view bump_clock connect io_ops]. rewrite Hnf.
  cbn [update_scan_log world bump_io io_ops]. rewrite Hnf.
  eexists. reflexivity.
Qed.

Lemma next_rowid_above ids x : In x ids -> x < next_rowid ids.
Proof.
  unfold next_rowid. induction ids as [| y ids IH]; cbn [In fold_right].
  - contradiction.
  - intros [-> | H]; [lia |]. specialize (IH H). lia.
Qed.

(** The row a scan opens is new: no earlier row carries its id. *)
Lemma scan_log_fresh scan_type states started db :
  scan_log (ScanLog.id (new_scan_log scan_type states started db)) db = None.
Proof.
  unfold scan_log. cbn [new_scan_log ScanLog.id].
  destruct (find _ (scan_logs db)) as [r |] eqn:E; [| reflexivity].
  apply find_some in E. destruct E as [Hin Heq].
  apply Z.eqb_eq in Heq.
  pose proof (next_rowid_above (map ScanLog.id (scan_logs db)) (ScanLog.id r)
                (in_map _ _ _ Hin)). lia.
Qed.

Lemma scan_log_opened scan_type states started db :
  let opened := new_scan_log scan_type states started db in
  scan_log (ScanLog.id opened) (append_scan_log opened db) = Some opened.
Proof.
  cbn zeta. pose proof (scan_log_fresh scan_type states started db) as H.
  unfold scan_log in *. cbn [scan_logs append_scan_log].
  rewrite (find_app_none _ _ _ H). cbn [find]. rewrite Z.eqb_refl. reflexivity.
Qed.

Lemma close_scan_log_id status t a b c d err scan_id r :
  ScanLog.id (close_scan_log status t a b c d err scan_id r) = ScanLog.id r.
Proof. unfold close_scan_log. destruct (_ =? _); reflexivity. Qed.

Lemma scan_log_closed status t a b c d err scan_id db opened :
  scan_log scan_id db = Some opened ->
  scan_log scan_id (map_scan_logs (close_scan_log status t a b c d err scan_id) db)
  = Some (ScanLog.mk (ScanLog.id opened) (ScanLog.scan_type opened)
            (ScanLog.states_scanned opened) a b c d (ScanLog.started_at opened)
            (Some t) status err).
Proof.
  unfold scan_log. cbn [scan_logs map_scan_logs]. intros H.
  rewrite find_map_same.
  - rewrite H. cbn [option_map]. apply find_some in H. destruct H as [_ H].
    unfold close_scan_log. rewrite H. reflexivity.
  - intros x. rewrite close_scan_log_id. reflexivity.
Qed.

End ScanLogFacts.

Section ScanLogRows.

Context {oracle : Oracle}.

(** Closing a run leaves the rows of the other runs as they are. *)
Lemma scan_log_other_closed status t a b c d err scan_id other db :
  other <> scan_id ->
  scan_log other (map_scan_logs (close_scan_log status t a b c d err scan_id) db)
  = scan_log other db.
Proof.
  intros Hne. unfold scan_log. cbn [scan_logs map_scan_logs].
  rewrite find_map_same.
  - destruct (find _ (scan_logs db)) as [r |] eqn:E; [| reflexivity].
    apply find_some in E. destruct E as [_ E]. apply Z.eqb_eq in E.
    cbn [option_map]. unfold close_scan_log.
    destruct (Z.eqb_spec (ScanLog.id r) scan_id); [congruence | reflexivity].
  - intros x. rewrite close_scan_log_id. reflexivity.
Qed.

(** Opening a run leaves the rows of the other runs as they are. *)
Lemma scan_log_other_opened opened other db :
  other <> ScanLog.id opened ->
  scan_log other (append_scan_log opened db) = scan_log other db.
Proof.
  intros Hne. unfold scan_log. cbn [scan_logs append_scan_log].
  destruct (find (fun r => ScanLog.id r =? other) (scan_logs db)) as [r |] eqn:E.
  - apply find_app_some. exact E.
  - rewrite (find_app_none _ _ _ E). cbn [find].
    destruct (Z.eqb_spec (ScanLog.id opened) other); [congruence | reflexivity].
Qed.

(** What [start_scan] has done when it returns. *)
Lemma start_scan_opened scan_type states w scan_id w1 :
  start_scan scan_type states w = (inr scan_id, w1) ->
  exists opened,
    ScanLog.id opened = scan_id
    /\ ScanLog.status opened = "running"
    /\ scan_log scan_id (disk w) = None
    /\ scan_log scan_id (disk w1) = Some opened
    /\ forall other, other <> scan_id ->
                     scan_log other (disk w1) = scan_log other (disk w).
Proof.
  intros H.
  destruct (start_scan_cases scan_type states w)
    as [(w' & H' & Hd) | (e & w' & H' & _)]; cbn zeta in H';
    rewrite H' in H; [| discriminate H].
  injection H as <- <-.
  match type of Hd with
  | _ = append_scan_log (new_scan_log ?a ?b ?c ?d) _ =>
      exists (new_scan_log a b c d);
      split; [reflexivity |]; split; [reflexivity |];
      split; [exact (scan_log_fresh a b c d) |]; rewrite Hd;
      split; [exact (scan_log_opened a b c d) |]
  end.
  intros other Hne. apply scan_log_other_opened. exact Hne.
Qed.

(** What one [end_scan] does to the row of its run and to the others. *)
Lemma end_scan_rows scan_id status a b c err w opened :
  scan_log scan_id (disk w) = Some opened ->
  match end_scan scan_id status a b c 0 err w with
  | (inr _, w') =>
      scan_log scan_id (disk w')
      = Some (closed_row status err (clock_us (clock_reads w)) a b c opened)
  | (inl _, w') => scan_log scan_id (disk w') = Some opened
  end
  /\ forall other, other <> scan_id ->
       scan_log other (disk (snd (end_scan scan_id status a b c 0 err w)))
       = scan_log other (disk w).
Proof.
  intros Hopen.
  destruct (end_scan_cases scan_id status a b c 0 err w)
    as [(w' & H & Hd) | (e & w' & H & Hd)]; rewrite H; cbn [snd]; rewrite Hd.
  - split.
    + rewrite (scan_log_closed _ _ _ _ _ _ _ _ _ _ Hopen). reflexivity.
    + intros other Hne. apply scan_log_other_closed. exact Hne.
  - split; [exact Hopen | reflexivity].
Qed.

End ScanLogRows.

(** *** How a scan run ends *)

Section ScanRunEnds.

Context {oracle : Oracle} {net : Type} {client : Client net}.

Lemma notify_callbacks_quiet (self : DailyScheduler) r (st : ScanState net) :
  _notify_callbacks self r st = (inr tt, st).
Proof.
  unfold _notify_callbacks.
  induction (_callbacks self) as [| callback l IH]; cbn [for_each].
  - reflexivity.
  - unfold bind, try_except.
    destruct (callback r) as [e | []]; cbn; exact IH.
Qed.

Lemma send_notifications_quiet (self : DailyScheduler) r (st : ScanState net) :
  _send_notifications self r st = (inr tt, st).
Proof.
  unfold _send_notifications.
  destruct (dict_get (config self) "notification_webhook" VNone);
    try reflexivity.
  destruct (negb (String.eqb s "")); [| reflexivity].
  unfold try_except. destruct (requests_post self s r) as [e | []]; reflexivity.
Qed.

Lemma scan_log_kept scan_id (st st' : ScanState net) :
  scan_grows st st' ->
  scan_log scan_id (disk (st_world st'))
  = scan_log scan_id (disk (st_world st)).
Proof. intros [_ H]. unfold scan_log. rewrite H. reflexivity. Qed.

Lemma grows_scan_states_state include_details progress_callback total idx_state :
  within (net := net) scan_grows
    (scan_states_state include_details progress_callback total idx_state).
Proof.
  unfold scan_states_state. destruct idx_state as [idx state].
  apply within_bind; [apply scan_grows_trans | |].
  - destruct progress_callback as [callback |].
    + destruct (callback _ idx total).
      * apply within_raise. apply scan_grows_refl.
      * apply within_ret. apply scan_grows_refl.
    + apply within_ret. apply scan_grows_refl.
  - intros _. apply within_try_except; [apply scan_grows_trans | |].
    + apply (grows_scope_fetch (fun _ => scan_states_program include_details)).
      intros. apply grows_scan_states_program.
    + intros e. apply grows_update_results.
Qed.

Lemma get_states_for_today_disk (self : DailyScheduler) w r w' :
  _get_states_for_today self w = (r, w') -> disk w' = disk w.
Proof.
  unfold _get_states_for_today, bind, datetime_now.
  destruct (_ || _).
  - intros H. injection H as _ <-. reflexivity.
  - destruct (nth_error _ _) as [group_name |].
    + destruct (find _ STATE_GROUPS) as [[g group_states] |];
        intros H; injection H as _ <-; reflexivity.
    + intros H. injection H as _ <-. reflexivity.
Qed.


(** The run of the [try] block of [run_scan] and of its handler, from the
    state the loop over the scopes leaves. *)
Lemma run_scan_body_cases (self : DailyScheduler) scan_id states
    (st : ScanState net) :
  let st1 := snd (scan_scopes (run_scan_program self) run_scan_error states st) in
  run_scan_body self scan_id states st
  = match closing scan_id st1 with
    | (inr _, w2) =>
        (inr tt,
         mkScan (snd (datetime_now w2)) (st_net st1)
           (set_completed (isoformat (clock_us (clock_reads w2)))
              (Some "completed") (st_results st1))
           (st_found_ids st1))
    | (inl e, w2) =>
        match end_scan scan_id "failed" 0 0 0 0 (Some (exn_str e)) w2 with
        | (inr _, w3) =>
            (inr tt,
             mkScan w3 (st_net st1) (set_failed (exn_str e) (st_results st1))
               (st_found_ids st1))
        | (inl e', w3) =>
            (inl e', mkScan w3 (st_net st1) (st_results st1) (st_found_ids st1))
        end
    end.
Proof.
  intros st1. unfold run_scan_body, try_except, closing.
  unfold bind at 1. rewrite run_scan_loop, scan_scopes_run. fold st1.
  unfold bind at 1. unfold results at 1. unfold bind at 1.
  unfold tracker at 1. cbv zeta.
  destruct (end_scan scan_id "completed" (r_total_found (st_results st1))
              (Z_len (r_new_incentives (st_results st1)))
              (Z_len (r_updated_incentives (st_results st1))) 0 None
              (st_world st1)) as [[e | []] w2].
  - unfold bind at 1, tracker at 1. cbn [st_world].
    destruct (end_scan scan_id "failed" 0 0 0 0 (Some (exn_str e)) w2)
      as [[e' | []] w3]; reflexivity.
  - unfold bind at 1. unfold now_isoformat, bind at 1.
    unfold tracker, datetime_now. cbn [ret].
    unfold bind at 1, update_results at 1, bind at 1, results at 1.
    cbn [st_results st_world st_net st_found_ids set_completed
         r_new_incentives r_updated_incentives snd].
    destruct (r_new_incentives (st_results st1)),
             (r_updated_incentives (st_results st1));
      unfold bind, ret;
      rewrite ?notify_callbacks_quiet, ?send_notifications_quiet;
      reflexivity.
Qed.

(** The run of [scan_states] from the state in which it enters its loop. *)
Lemma scan_states_body_cases scan_id states include_details progress_callback
    total (st : ScanState net) :
  (for_each (enumerate states 1)
     (scan_states_state include_details progress_callback total) ;;;
   r <- results ;;
   tracker (end_scan scan_id "completed" (r_total_found r)
              (Z_len (r_new_incentives r)) (Z_len (r_updated_incentives r))
              0 None) ;;;
   completed_at <- now_isoformat ;;
   update_results (set_completed completed_at None)) st
  = match for_each (enumerate states 1)
            (scan_states_state include_details progress_callback total) st with
    | (inl e, st1) => (inl e, st1)
    | (inr _, st1) =>
        match closing scan_id st1 with
        | (inr _, w2) =>
            (inr tt,
             mkScan (snd (datetime_now w2)) (st_net st1)
               (set_completed (isoformat (clock_us (clock_reads w2))) None
                  (st_results st1))
               (st_found_ids st1))
        | (inl e, w2) =>
            (inl e, mkScan w2 (st_net st1) (st_results st1) (st_found_ids st1))
        end
    end.
Proof.
  unfold closing. unfold bind at 1.
  destruct (for_each (enumerate states 1)
              (scan_states_state include_details progress_callback total) st)
    as [[e | []] st1]; [reflexivity |].
  unfold bind at 1. unfold results at 1. unfold bind at 1.
  unfold tracker at 1. cbv zeta.
  destruct (end_scan scan_id "completed" (r_total_found (st_results st1))
              (Z_len (r_new_incentives (st_results st1)))
              (Z_len (r_updated_incentives (st_results st1))) 0 None
              (st_world st1)) as [[e | []] w2]; reflexivity.
Qed.

Lemma scan_log_after_scopes (self : DailyScheduler) scan_id states
    (st : ScanState net) :
  scan_log scan_id
    (disk (st_world (snd (scan_scopes (run_scan_program self) run_scan_error
                            states st))))
  = scan_log scan_id (disk (st_world st)).
Proof.
  apply scan_log_kept.
  apply (grows_scan_scopes (run_scan_program self) run_scan_error
           (grows_run_scan_program self) states st (inr tt)).
  apply scan_scopes_run.
Qed.

Lemma scan_log_after_states scan_id states include_details progress_callback
    total start (st : ScanState net) :
  scan_log scan_id
    (disk (st_world (snd (for_each (enumerate states start)
                            (scan_states_state include_details
                               progress_callback total) st))))
  = scan_log scan_id (disk (st_world st)).
Proof.
  apply scan_log_kept.
  destruct (for_each (enumerate states start)
              (scan_states_state include_details progress_callback total) st)
    as [r st1] eqn:Hloop. cbn [snd].
  refine (within_for_each scan_grows scan_grows_refl scan_grows_trans _ _ _
            _ _ _ Hloop).
  apply grows_scan_states_state.
Qed.

End ScanRunEnds.

(** *** A scope whose fetch raises *)

Section Tolerance.

Context {oracle : Oracle} {net : Type} {client : Client net}.

Lemma run_scan_tolerates (self : DailyScheduler) (scan_type : string) :
  storage_never_fails oracle ->
  tolerates_failing_scope (run_scan_program self) run_scan_error true
    (py_truthy (dict_get (config self) "include_details" VNone))
    scan_type (Some scan_type) (Some "completed")
    (fun states => run_scan self states scan_type).
Proof.
  intros Hnf before failing later w n scan_id w1 e n1 states Hstart st0
    Hbefore st1 Hget st2 Hlater records.
  destruct (scan_scopes_failing (run_scan_program self) run_scan_error true
              (py_truthy (dict_get (config self) "include_details" VNone))
              (run_scan_program_skipped self)
              (run_scan_program_dict self)
              (run_scan_program_observes self)
              before failing later st0 e n1
              (errors_run_scan_program self) Hbefore Hget Hlater)
    as (Herr & Hobs & Hcount).
  fold st1 st2 states records in Herr, Hobs, Hcount.
  set (final := snd (scan_scopes (run_scan_program self) run_scan_error
                       states st0)) in *.
  destruct (start_scan_opened _ _ _ _ _ Hstart)
    as (opened & _ & _ & _ & Hopen & _).
  assert (Hopen1 : scan_log scan_id (disk (st_world final)) = Some opened).
  { unfold final. rewrite scan_log_after_scopes. exact Hopen. }
  assert (Hrun : run_scan self states scan_type (w, n)
                 = match run_scan_body self scan_id states st0 with
                   | (inl e, st) => (inl e, (st_world st, st_net st))
                   | (inr _, st) =>
                       (inr (st_results st), (st_world st, st_net st))
                   end).
  { unfold run_scan.
    assert (Hs : match states with
                 | [] => _get_states_for_today self w
                 | _ :: _ => (inr states, w)
                 end = (inr states, w))
      by (unfold states; destruct before; reflexivity).
    rewrite Hs, Hstart. reflexivity. }
  rewrite Hrun, run_scan_body_cases. fold final. unfold closing. cbv zeta.
  pose proof (end_scan_rows scan_id "completed"
                (r_total_found (st_results final))
                (Z_len (r_new_incentives (st_results final)))
                (Z_len (r_updated_incentives (st_results final))) None
                (st_world final) opened Hopen1) as [Hrow _].
  destruct (end_scan_cases scan_id "completed"
              (r_total_found (st_results final))
              (Z_len (r_new_incentives (st_results final)))
              (Z_len (r_updated_incentives (st_results final))) 0 None
              (st_world final))
    as [(w2 & H2 & Hd2) | (e2 & w2 & H2 & _)].
  - rewrite H2 in Hrow |- *.
    do 3 eexists. exists (st_world final). eexists.
    split; [reflexivity |].
    cbn [st_results set_completed r_errors r_status r_total_found].
    split; [exact Herr |]. split; [reflexivity |].
    split; [rewrite Hcount; reflexivity |].
    split; [exact Hobs |].
    unfold datetime_now. cbn [snd disk]. rewrite Hd2.
    cbn [map_scan_logs incentives incentive_snapshots incentive_changes].
    repeat (split; [reflexivity |]).
    rewrite <- Hd2. split; [exact Hrow |].
    cbn [closed_row ScanLog.status ScanLog.total_found].
    split; [reflexivity | rewrite Hcount; reflexivity].
  - destruct (end_scan_no_fault scan_id "completed"
                (r_total_found (st_results final))
                (Z_len (r_new_incentives (st_results final)))
                (Z_len (r_updated_incentives (st_results final))) 0 None
                (st_world final) Hnf) as (w2' & H2').
    rewrite H2' in H2. discriminate H2.
Qed.

Lemma scan_states_tolerates include_details progress_callback :
  storage_never_fails oracle ->
  quiet progress_callback ->
  tolerates_failing_scope (fun _ => scan_states_program include_details)
    scan_states_error false include_details "manual" None None
    (fun states => scan_states states include_details progress_callback).
Proof.
  intros Hnf Hq before failing later w n scan_id w1 e n1 states Hstart st0
    Hbefore st1 Hget st2 Hlater records.
  destruct (scan_scopes_failing (fun _ => scan_states_program include_details)
              scan_states_error false include_details
              (fun _ => scan_states_program_skipped include_details)
              (fun _ => scan_states_program_dict include_details)
              (fun _ => scan_states_program_observes include_details)
              before failing later st0 e n1
              (fun _ => errors_scan_states_program include_details)
              Hbefore Hget Hlater)
    as (Herr & Hobs & Hcount).
  fold st1 st2 states records in Herr, Hobs, Hcount.
  set (final := snd (scan_scopes (fun _ => scan_states_program include_details)
                       scan_states_error states st0)) in *.
  destruct (start_scan_opened _ _ _ _ _ Hstart)
    as (opened & _ & _ & _ & Hopen & _).
  assert (Hloop : for_each (enumerate states 1)
                    (scan_states_state include_details progress_callback
                       (List.length states)) st0 = (inr tt, final)).
  { rewrite (scan_states_loop _ _ _ _ Hq). apply scan_scopes_run. }
  assert (Hopen1 : scan_log scan_id (disk (st_world final)) = Some opened).
  { pose proof (scan_log_after_states scan_id states include_details
                  progress_callback (List.length states) 1%nat st0) as Hk.
    rewrite Hloop in Hk. cbn [snd] in Hk. rewrite Hk. exact Hopen. }
  assert (Hrun : scan_states states include_details progress_callback (w, n)
                 = match
                     (for_each (enumerate states 1)
                        (scan_states_state include_details progress_callback
                           (List.length states)) ;;;
                      r <- results ;;
                      tracker (end_scan scan_id "completed" (r_total_found r)
                                 (Z_len (r_new_incentives r))
                                 (Z_len (r_updated_incentives r)) 0 None) ;;;
                      completed_at <- now_isoformat ;;
                      update_results (set_completed completed_at None)) st0
                   with
                   | (inl e, st) => (inl e, (st_world st, st_net st))
                   | (inr _, st) =>
                       (inr (st_results st), (st_world st, st_net st))
                   end).
  { unfold scan_states. rewrite Hstart. reflexivity. }
  rewrite Hrun, scan_states_body_cases, Hloop. unfold closing. cbv zeta.
  pose proof (end_scan_rows scan_id "completed"
                (r_total_found (st_results final))
                (Z_len (r_new_incentives (st_results final)))
                (Z_len (r_updated_incentives (st_results final))) None
                (st_world final) opened Hopen1) as [Hrow _].
  destruct (end_scan_cases scan_id "completed"
              (r_total_found (st_results final))
              (Z_len (r_new_incentives (st_results final)))
              (Z_len (r_updated_incentives (st_results final))) 0 None
              (st_world final))
    as [(w2 & H2 & Hd2) | (e2 & w2 & H2 & _)].
  - rewrite H2 in Hrow |- *.
    do 3 eexists. exists (st_world final). eexists.
    split; [reflexivity |].
    cbn [st_results set_completed r_errors r_status r_total_found].
    split; [exact Herr |]. split; [reflexivity |].
    split; [rewrite Hcount; reflexivity |].
    split; [exact Hobs |].
    unfold datetime_now. cbn [snd disk]. rewrite Hd2.
    cbn [map_scan_logs incentives incentive_snapshots incentive_changes].
    repeat (split; [reflexivity |]).
    rewrite <- Hd2. split; [exact Hrow |].
    cbn [closed_row ScanLog.status ScanLog.total_found].
    split; [reflexivity | rewrite Hcount; reflexivity].
  - destruct (end_scan_no_fault scan_id "completed"
                (r_total_found (st_results final))
                (Z_len (r_new_incentives (st_results final)))
                (Z_len (r_updated_incentives (st_results final))) 0 None
                (st_world final) Hnf) as (w2' & H2').
    rewrite H2' in H2. discriminate H2.
Qed.

End Tolerance.

(** C6: in both scan paths, when the run is opened, fetching one scope of
    the list raises and the scopes before and after it are processed
    without an exception, the scan returns its results: their errors are
    exactly one entry, which names the failing scope; every record with an
    id of the other scopes has been passed to [record_incentive], in order,
    and nothing else has written entities, snapshots or changes;
    [total_found] is the number of these records; and the run is closed as
    completed with that count, wherever the failing scope stands in the
    list.  Storage is taken not to fail and a progress callback not to
    raise. *)
Theorem scans_tolerate_failing_scope {oracle : Oracle} {net : Type}
    {client : Client net} (self : DailyScheduler) (scan_type : string)
    (include_details : bool)
    (progress_callback : option (string -> nat -> nat -> exn + unit)) :
  storage_never_fails oracle ->
  quiet progress_callback ->
  tolerates_failing_scope (run_scan_program self) run_scan_error true
    (py_truthy (dict_get (config self) "include_details" VNone))
    scan_type (Some scan_type) (Some "completed")
    (fun states => run_scan self states scan_type)
  /\ tolerates_failing_scope (fun _ => scan_states_program include_details)
       scan_states_error false include_details "manual" None None
       (fun states => scan_states states include_details progress_callback).
Proof.
  intros Hnf Hq. split.
  - apply run_scan_tolerates. exact Hnf.
  - apply scan_states_tolerates; assumption.
Qed.

Lemma scans_tolerate_failing_scope_witness :
  storage_never_fails slow_clock
  /\ @quiet None
  /\ exists res wn,
       @scan_states slow_clock unit flaky_client ["A"; "B"; "C"] false None
         (fresh_world, tt) = (inr res, wn)
       /\ r_errors res = ["B: connection refused"]
       /\ r_total_found res = 2.
Proof.
  assert (H1 : storage_never_fails slow_clock) by (intros k; reflexivity).
  split; [exact H1 |]. split; [exact I |].
  destruct (@scans_tolerate_failing_scope slow_clock unit flaky_client
              plain_scheduler "manual" false None H1 I) as [_ H].
  pose (w1 := snd (@start_scan slow_clock "manual" ["A"; "B"; "C"] fresh_world)).
  destruct (H ["A"] "B" ["C"] fresh_world tt 1 w1
              (Exception "ConnectionError" "connection refused") tt)
    as (res & w' & n' & loop_end & row & Hrun & Herr & _ & Htotal & _).
  - vm_compute. reflexivity.
  - cbn [scopes_succeed]. eexists. split; [vm_compute; reflexivity | exact I].
  - vm_compute. reflexivity.
  - cbn [scopes_succeed]. eexists. split; [vm_compute; reflexivity | exact I].
  - exists res, (w', n'). split; [exact Hrun |].
    split; [exact Herr | exact Htotal].
Defined.

(** *** How a scan run is closed *)

(** C7 (as amended): [run_scan] closes the run it has opened exactly once.
    Its loop over the scopes always returns, whatever scopes failed; the run
    is closed as completed, with the counts of the results, whenever the
    closing [end_scan] returns; it is closed as failed, with the message of
    the exception, exactly when that [end_scan] raises and the second one
    returns; when both raise the row stays as opened (running) and the
    exception leaves [run_scan].  [scan_states] closes its run as completed
    when its loop and the closing [end_scan] return, and has no failed path:
    when the progress callback or [end_scan] raises, the exception leaves it
    and the row stays as opened.  In each case the rows of the other runs
    are as they were. *)
Theorem scan_run_closing {oracle : Oracle} {net : Type} {client : Client net}
    (self : DailyScheduler) (states : list string) (scan_type : string)
    (include_details : bool)
    (progress_callback : option (string -> nat -> nat -> exn + unit))
    (w : World) (n : net) :
  (forall sts w0 scan_id w1,
     match states with
     | [] => _get_states_for_today self w
     | _ :: _ => (inr states, w)
     end = (inr sts, w0) ->
     start_scan scan_type sts w0 = (inr scan_id, w1) ->
     exists opened st1,
       scan_log scan_id (disk w) = None
       /\ scan_log scan_id (disk w1) = Some opened
       /\ ScanLog.status opened = "running"
       /\ for_each sts (run_scan_state self)
            (entering (Some scan_type) scan_id sts w1 n) = (inr tt, st1)
       /\ (forall other, other <> scan_id ->
             scan_log other
               (disk (fst (snd (run_scan self states scan_type (w, n)))))
             = scan_log other (disk w))
       /\ match closing scan_id st1 with
          | (inr _, w2) =>
              exists res,
                run_scan self states scan_type (w, n)
                = (inr res, (snd (datetime_now w2), st_net st1))
                /\ r_status res = Some "completed"
                /\ scan_log scan_id (disk w2) = Some (completed_row st1 opened)
          | (inl e, w2) =>
              match end_scan scan_id "failed" 0 0 0 0 (Some (exn_str e)) w2 with
              | (inr _, w3) =>
                  exists res,
                    run_scan self states scan_type (w, n)
                    = (inr res, (w3, st_net st1))
                    /\ r_status res = Some "failed"
                    /\ r_error res = Some (exn_str e)
                    /\ scan_log scan_id (disk w3)
                       = Some (closed_row "failed" (Some (exn_str e))
                                 (clock_us (clock_reads w2)) 0 0 0 opened)
              | (inl e', w3) =>
                  run_scan self states scan_type (w, n)
                  = (inl e', (w3, st_net st1))
                  /\ scan_log scan_id (disk w3) = Some opened
              end
          end)
  /\ (forall scan_id w1,
        start_scan "manual" states w = (inr scan_id, w1) ->
        exists opened,
          scan_log scan_id (disk w) = None
          /\ scan_log scan_id (disk w1) = Some opened
          /\ ScanLog.status opened = "running"
          /\ (forall other, other <> scan_id ->
                scan_log other
                  (disk (fst (snd (scan_states states include_details
                                     progress_callback (w, n)))))
                = scan_log other (disk w))
          /\ (quiet progress_callback ->
              exists st1,
                for_each (enumerate states 1)
                  (scan_states_state include_details progress_callback
                     (List.length states))
                  (entering None scan_id states w1 n) = (inr tt, st1))
          /\ match for_each (enumerate states 1)
                     (scan_states_state include_details progress_callback
                        (List.length states))
                     (entering None scan_id states w1 n) with
             | (inl e, st1) =>
                 scan_states states include_details progress_callback (w, n)
                 = (inl e, (st_world st1, st_net st1))
                 /\ scan_log scan_id (disk (st_world st1)) = Some opened
             | (inr _, st1) =>
                 match closing scan_id st1 with
                 | (inr _, w2) =>
                     exists res,
                       scan_states states include_details progress_callback
                         (w, n)
                       = (inr res, (snd (datetime_now w2), st_net st1))
                       /\ r_completed_at res
                          = Some (isoformat (clock_us (clock_reads w2)))
                       /\ scan_log scan_id (disk w2)
                          = Some (completed_row st1 opened)
                 | (inl e, w2) =>
                     scan_states states include_details progress_callback
                       (w, n)
                     = (inl e, (w2, st_net st1))
                     /\ scan_log scan_id (disk w2) = Some opened
                 end
             end).
Proof.
  split.
  - intros sts w0 scan_id w1 Hsts Hstart.
    assert (Hd0 : disk w0 = disk w).
    { destruct states.
      - exact (get_states_for_today_disk _ _ _ _ Hsts).
      - injection Hsts as _ <-. reflexivity. }
    destruct (start_scan_opened _ _ _ _ _ Hstart)
      as (opened & _ & Hstatus & Hfresh & Hopen & Hother).
    rewrite Hd0 in Hfresh.
    set (st0 := entering (Some scan_type) scan_id sts w1 n).
    set (st1 := snd (scan_scopes (run_scan_program self) run_scan_error sts st0)).
    exists opened, st1.
    split; [exact Hfresh |]. split; [exact Hopen |]. split; [exact Hstatus |].
    split; [rewrite run_scan_loop; apply scan_scopes_run |].
    assert (Hopen1 : scan_log scan_id (disk (st_world st1)) = Some opened).
    { unfold st1. rewrite scan_log_after_scopes. exact Hopen. }
    assert (Hother1 : forall other, other <> scan_id ->
              scan_log other (disk (st_world st1)) = scan_log other (disk w)).
    { intros other Hne. unfold st1. rewrite scan_log_after_scopes.
      change (disk (st_world st0)) with (disk w1).
      rewrite (Hother other Hne), Hd0. reflexivity. }
    assert (Hrun : run_scan self states scan_type (w, n)
                   = match run_scan_body self scan_id sts st0 with
                     | (inl e, st) => (inl e, (st_world st, st_net st))
                     | (inr _, st) =>
                         (inr (st_results st), (st_world st, st_net st))
                     end).
    { unfold run_scan. rewrite Hsts, Hstart. reflexivity. }
    rewrite Hrun, run_scan_body_cases. fold st1. unfold closing.
    pose proof (end_scan_rows scan_id "completed"
                  (r_total_found (st_results st1))
                  (Z_len (r_new_incentives (st_results st1)))
                  (Z_len (r_updated_incentives (st_results st1))) None
                  (st_world st1) opened Hopen1) as [Hrow Hrest].
    cbv zeta.
    destruct (end_scan scan_id "completed" (r_total_found (st_results st1))
                (Z_len (r_new_incentives (st_results st1)))
                (Z_len (r_updated_incentives (st_results st1))) 0 None
                (st_world st1)) as [[e | []] w2]; cbn [snd] in Hrest.
    + pose proof (end_scan_rows scan_id "failed" 0 0 0 (Some (exn_str e))
                    w2 opened Hrow) as [Hrow3 Hrest3].
      destruct (end_scan scan_id "failed" 0 0 0 0 (Some (exn_str e)) w2)
        as [[e' | []] w3]; cbn [snd fst st_world st_net] in *.
      * split.
        -- intros other Hne. rewrite (Hrest3 other Hne), (Hrest other Hne).
           exact (Hother1 other Hne).
        -- split; [reflexivity | exact Hrow3].
      * split.
        -- intros other Hne. rewrite (Hrest3 other Hne), (Hrest other Hne).
           exact (Hother1 other Hne).
        -- eexists. split; [reflexivity |].
           split; [reflexivity |]. split; [reflexivity | exact Hrow3].
    + cbn [snd fst st_world st_net]. split.
      * intros other Hne. unfold datetime_now. cbn [snd disk].
        rewrite (Hrest other Hne). exact (Hother1 other Hne).
      * eexists. split; [reflexivity |].
        split; [reflexivity | exact Hrow].
  - intros scan_id w1 Hstart.
    destruct (start_scan_opened _ _ _ _ _ Hstart)
      as (opened & _ & Hstatus & Hfresh & Hopen & Hother).
    set (st0 := entering None scan_id states w1 n).
    exists opened.
    split; [exact Hfresh |]. split; [exact Hopen |]. split; [exact Hstatus |].
    assert (Hrun : scan_states states include_details progress_callback (w, n)
                   = match
                       (for_each (enumerate states 1)
                          (scan_states_state include_details progress_callback
                             (List.length states)) ;;;
                        r <- results ;;
                        tracker (end_scan scan_id "completed" (r_total_found r)
                                   (Z_len (r_new_incentives r))
                                   (Z_len (r_updated_incentives r)) 0 None) ;;;
                        completed_at <- now_isoformat ;;
                        update_results (set_completed completed_at None)) st0
                     with
                     | (inl e, st) => (inl e, (st_world st, st_net st))
                     | (inr _, st) =>
                         (inr (st_results st), (st_world st, st_net st))
                     end).
    { unfold scan_states. rewrite Hstart. reflexivity. }
    rewrite Hrun, scan_states_body_cases.
    pose proof (scan_log_after_states scan_id states include_details
                  progress_callback (List.length states) 1%nat st0) as Hkept.
    assert (Hkept' : forall other,
              scan_log other
                (disk (st_world
                         (snd (for_each (enumerate states 1)
                                 (scan_states_state include_details
                                    progress_callback (List.length states))
                                 st0))))
              = scan_log other (disk w1)).
    { intros other. apply scan_log_after_states. }
    assert (Hquiet : quiet progress_callback ->
              exists st1,
                for_each (enumerate states 1)
                  (scan_states_state include_details progress_callback
                     (List.length states)) st0 = (inr tt, st1)).
    { intros Hq. rewrite (scan_states_loop _ _ _ _ Hq).
      eexists. apply scan_scopes_run. }
    destruct (for_each (enumerate states 1)
                (scan_states_state include_details progress_callback
                   (List.length states)) st0) as [[e | []] st1];
      cbn [snd] in Hkept, Hkept'.
    + cbn [snd fst]. split; [| split; [exact Hquiet |]].
      * intros other Hne. rewrite Hkept'. exact (Hother other Hne).
      * split; [reflexivity |]. rewrite Hkept. exact Hopen.
    + assert (Hopen1 : scan_log scan_id (disk (st_world st1)) = Some opened)
        by (rewrite Hkept; exact Hopen).
      unfold closing.
      pose proof (end_scan_rows scan_id "completed"
                    (r_total_found (st_results st1))
                    (Z_len (r_new_incentives (st_results st1)))
                    (Z_len (r_updated_incentives (st_results st1))) None
                    (st_world st1) opened Hopen1) as [Hrow Hrest].
      cbv zeta.
      destruct (end_scan scan_id "completed" (r_total_found (st_results st1))
                  (Z_len (r_new_incentives (st_results st1)))
                  (Z_len (r_updated_incentives (st_results st1))) 0 None
                  (st_world st1)) as [[e | []] w2]; cbn [snd] in Hrest;
        cbn [snd fst st_world st_net].
      * split; [| split; [exact Hquiet |]].
        -- intros other Hne. rewrite (Hrest other Hne), Hkept'.
           exact (Hother other Hne).
        -- split; [reflexivity | exact Hrow].
      * split; [| split; [exact Hquiet |]].
        -- intros other Hne. unfold datetime_now. cbn [snd disk].
           rewrite (Hrest other Hne), Hkept'. exact (Hother other Hne).
        -- eexists. split; [reflexivity |].
           split; [reflexivity | exact Hrow].
Qed.

(** With a storage failure at the closing UPDATE, [run_scan] closes its run
    as failed with the message. *)
Lemma scan_run_closing_witness :
  exists res wn,
    @run_scan failing_close unit flaky_client plain_scheduler ["A"] "manual"
      (fresh_world, tt) = (inr res, wn)
    /\ r_status res = Some "failed"
    /\ r_error res = Some "disk I/O error"
    /\ option_map ScanLog.status (scan_log 1 (disk (fst wn))) = Some "failed".
Proof.
  destruct (@scan_run_closing failing_close unit flaky_client plain_scheduler
              ["A"] "manual" false None fresh_world tt) as [H _].
  pose (w1 := snd (@start_scan failing_close "manual" ["A"] fresh_world)).
  destruct (H ["A"] fresh_world 1 w1 eq_refl eq_refl)
    as (opened & st1 & _ & Hopen & _ & Hloop & _ & Hend).
  vm_compute in Hloop. injection Hloop as <-.
  vm_compute in Hopen. injection Hopen as <-.
  vm_compute in Hend. destruct Hend as (res & Hrun & Hstatus & Herror & Hrow).
  exists res. eexists. split; [exact Hrun |].
  split; [exact Hstatus |]. split; [exact Herror |].
  vm_compute. reflexivity.
Defined.

(** C7 (as stated) fails for [scan_states]: when the UPDATE that closes the
    run raises, the exception leaves [scan_states] and the run is left with
    status running, not failed. *)
Lemma scan_run_closing_counterexample :
  let (r, wn) :=
    @scan_states failing_close unit flaky_client ["A"] false None
      (fresh_world, tt) in
  r = inl disk_io_error
  /\ map ScanLog.status (scan_logs (disk (fst wn))) = ["running"].
Proof. vm_compute. split; reflexivity. Qed.

(** Under the same storage failure [run_scan] closes its run as failed, with
    the message. *)
Example run_scan_closes_failed :
  let (r, wn) :=
    @run_scan failing_close unit flaky_client plain_scheduler ["A"] "manual"
      (fresh_world, tt) in
  match r with
  | inr res => r_status res = Some "failed"
               /\ r_error res = Some "disk I/O error"
  | inl _ => False
  end
  /\ map (fun row => (ScanLog.status row, ScanLog.error_message row))
       (scan_logs (disk (fst wn))) = [("failed", Some "disk I/O error")].
Proof. vm_compute. repeat split; reflexivity. Qed.

(** *** The latest snapshot of an entity *)

(** C4 (the code breaks it): two observations of entity "7" within one clock
    second leave two snapshots with the same [scraped_at]; the query of
    [record_incentive] (ORDER BY scraped_at DESC LIMIT 1) then returns the
    first of them, whose hash is not the entity's, while the snapshot of
    greatest id, which [get_new_incentives] selects, carries the entity's
    hash. *)
Theorem latest_snapshot_same_second :
  let w := @after fast_clock "7" payload_200
             (@after fast_clock "7" payload_100 fresh_world) in
  exists e by_time by_id,
    select_incentive "7" (disk w) = Some e
    /\ select_latest_snapshot (Incentive.id e) (disk w) = Some by_time
    /\ select_max_id_snapshot (Incentive.id e) (disk w) = Some by_id
    /\ map Snapshot.scraped_at (incentive_snapshots (disk w)) = [0; 0]
    /\ _compute_hash payload_200 = inr (Incentive.data_hash e)
    /\ _compute_hash payload_100 = inr (Snapshot.data_hash by_time)
    /\ Snapshot.data_hash by_time <> Incentive.data_hash e
    /\ Snapshot.data_hash by_id = Incentive.data_hash e.
Proof.
  vm_compute. do 3 eexists.
  repeat (split; [reflexivity |]).
  split; [discriminate | reflexivity].
Qed.

(** *** [json.loads] of what [json.dumps] writes *)

Lemma append_assoc (a b c : string) : (a ++ b) ++ c = a ++ (b ++ c).
Proof. induction a as [| x a IH]; cbn; [reflexivity | rewrite IH; reflexivity]. Qed.

Lemma append_length (a b : string) :
  String.length (a ++ b) = (String.length a + String.length b)%nat.
Proof. induction a as [| x a IH]; cbn; [reflexivity | rewrite IH; reflexivity]. Qed.

Lemma parse_chars_escape_char (c : ascii) (tail : string) :
  parse_chars (json_escape_char c ++ tail) = cons_char c (parse_chars tail).
Proof.
  destruct c as [[] [] [] [] [] [] [] []]; reflexivity.
Qed.

Lemma parse_chars_escape (s rest : string) :
  parse_chars (json_escape s ++ String dquote rest) = Some (s, rest).
Proof.
  induction s as [| c s IH]; cbn [json_escape].
  - reflexivity.
  - rewrite append_assoc, parse_chars_escape_char, IH. reflexivity.
Qed.

Lemma take_digits_uint (u : Decimal.uint) (rest : string) :
  no_digit_head rest ->
  take_digits (NilEmpty.string_of_uint u ++ rest)
  = (NilEmpty.string_of_uint u, rest).
Proof.
  intros Hrest. induction u as [| u IH | u IH | u IH | u IH | u IH | u IH
                               | u IH | u IH | u IH | u IH];
    cbn [NilEmpty.string_of_uint append];
    try (cbn [take_digits]; change (is_digit _) with true; cbv iota;
         rewrite IH; reflexivity).
  destruct rest as [| c rest]; [reflexivity |].
  cbn [take_digits]. cbn [no_digit_head] in Hrest. rewrite Hrest. reflexivity.
Qed.

(** The text of an integer: an optional sign, then the digits of a number
    that is not [Nil]. *)
Lemma str_int_digits (z : Z) :
  exists (negative : bool) (u : Decimal.uint),
    u <> Decimal.Nil
    /\ str_int z
       = (if negative then "-" else "") ++ NilEmpty.string_of_uint u
    /\ (if negative then - Z.of_uint u else Z.of_uint u) = z.
Proof.
  unfold str_int. destruct z as [| p | p]; cbn [Z.to_int NilZero.string_of_int].
  - exists false, (Decimal.D0 Decimal.Nil). repeat split. discriminate.
  - exists false, (Pos.to_uint p).
    pose proof (Unsigned.to_uint_nonnil p) as Hn.
    split; [exact Hn |]. split.
    + unfold NilZero.string_of_uint. destruct (Pos.to_uint p);
        [contradiction | reflexivity ..].
    + unfold Z.of_uint. rewrite Unsigned.of_to. reflexivity.
  - exists true, (Pos.to_uint p).
    pose proof (Unsigned.to_uint_nonnil p) as Hn.
    split; [exact Hn |]. split.
    + unfold NilZero.string_of_uint. destruct (Pos.to_uint p);
        [contradiction | reflexivity ..].
    + unfold Z.of_uint. rewrite Unsigned.of_to. reflexivity.
Qed.

Lemma nzhead_head (u v : Decimal.uint) : Decimal.nzhead u <> Decimal.D0 v.
Proof. induction u; cbn [Decimal.nzhead]; try discriminate. exact IHu. Qed.

(** The digits of a positive number do not start with a zero. *)
Lemma to_uint_head (p : positive) (u : Decimal.uint) :
  Pos.to_uint p <> Decimal.D0 u.
Proof.
  intros E.
  pose proof (DecimalPos.Unsigned.to_of (Pos.to_uint p)) as H.
  rewrite DecimalPos.Unsigned.of_to in H. cbn [N.to_uint] in H.
  rewrite E, DecimalFacts.unorm_D0 in H. unfold Decimal.unorm in H.
  destruct (Decimal.nzhead u) eqn:En; try discriminate H.
  - injection H as ->. exact (Unsigned.to_uint_nonzero p E).
  - exact (nzhead_head u _ En).
Qed.

(** The text of an integer that is not zero: an optional sign, then digits
    of which the first is not a zero. *)
Lemma str_int_nonzero (z : Z) :
  z <> 0 ->
  exists (negative : bool) (u : Decimal.uint) (c : ascii) (tl : string),
    NilEmpty.string_of_uint u = String c tl
    /\ is_digit c = true /\ c <> "0"%char
    /\ u <> Decimal.Nil
    /\ str_int z
       = (if negative then "-" else "") ++ NilEmpty.string_of_uint u
    /\ (if negative then - Z.of_uint u else Z.of_uint u) = z.
Proof.
  intros Hz. unfold str_int.
  destruct z as [| p | p]; [contradiction | |];
    cbn [Z.to_int NilZero.string_of_int];
    [exists false | exists true]; exists (Pos.to_uint p);
    pose proof (Unsigned.to_uint_nonnil p) as Hn;
    pose proof (to_uint_head p) as Hh;
    pose proof (DecimalPos.Unsigned.of_to p) as Hof;
    unfold NilZero.string_of_uint, Z.of_uint; rewrite Hof;
    destruct (Pos.to_uint p) as [| u | u | u | u | u | u | u | u | u | u];
    try contradiction; try (exfalso; exact (Hh u eq_refl));
    do 2 eexists; cbn [NilEmpty.string_of_uint];
    (split; [reflexivity |]); (split; [reflexivity |]);
    (split; [discriminate |]); (split; [discriminate |]);
    split; reflexivity.
Qed.

Lemma parse_number_str_int (z : Z) (rest : string) :
  no_digit_head rest ->
  parse_number (str_int z ++ rest) = Some (z, rest).
Proof.
  intros Hrest. destruct (Z.eq_dec z 0) as [-> | Hz]; [reflexivity |].
  destruct (str_int_nonzero z Hz)
    as (negative & u & c & tl & E & Hc & Hc0 & Hu & -> & Hv).
  assert (Hparse : NilZero.uint_of_string (NilEmpty.string_of_uint u) = Some u).
  { pose proof (NilZero.usu u Hu) as H. unfold NilZero.string_of_uint in H.
    destruct u; [contradiction | exact H ..]. }
  assert (Hminus : Ascii.eqb c "-" = false).
  { destruct (Ascii.eqb_spec c "-") as [-> |]; [discriminate Hc | reflexivity]. }
  assert (Hbody : forall sign : bool,
             match NilEmpty.string_of_uint u ++ rest with
             | String "0" rest0 => Some (0, rest0)
             | _ =>
                 let (ds, rest0) :=
                   take_digits (NilEmpty.string_of_uint u ++ rest) in
                 match NilZero.uint_of_string ds with
                 | Some u0 =>
                     let n := Z.of_uint u0 in
                     Some (if sign then - n else n, rest0)
                 | None => None
                 end
             end = Some (if sign then - Z.of_uint u else Z.of_uint u, rest)).
  { intros sign. rewrite (take_digits_uint u rest Hrest), Hparse.
    rewrite E. cbn [append]. clear - Hc Hc0.
    destruct c as [[] [] [] [] [] [] [] []]; try discriminate Hc;
      try reflexivity.
    exfalso. apply Hc0. reflexivity. }
  unfold parse_number. destruct negative.
  - cbn [append]. change (Ascii.eqb "-" "-") with true. cbv iota.
    rewrite <- Hv. exact (Hbody true).
  - change ("" ++ NilEmpty.string_of_uint u) with (NilEmpty.string_of_uint u).
    assert (Hsign : match NilEmpty.string_of_uint u ++ rest with
                    | String c0 s' =>
                        if Ascii.eqb c0 "-" then (true, s')
                        else (false, NilEmpty.string_of_uint u ++ rest)
                    | EmptyString => (false, NilEmpty.string_of_uint u ++ rest)
                    end = (false, NilEmpty.string_of_uint u ++ rest)).
    { rewrite E at 1. cbn [append]. rewrite Hminus. reflexivity. }
    rewrite Hsign, <- Hv. exact (Hbody false).
Qed.

Lemma parse_value_int (fuel : nat) (z : Z) (tail : string) :
  no_digit_head tail ->
  parse_value (S fuel) (str_int z ++ tail) = Some (VInt z, tail).
Proof.
  intros Htail.
  assert (H : parse_value (S fuel) (str_int z ++ tail)
              = match parse_number (str_int z ++ tail) with
                | Some (n, r) => Some (VInt n, r)
                | None => None
                end).
  { destruct (str_int_digits z) as (negative & u & Hu & -> & _).
    destruct negative; [reflexivity |].
    destruct u; [contradiction | reflexivity ..]. }
  rewrite H, (parse_number_str_int z tail Htail). reflexivity.
Qed.

Lemma parse_value_space (fuel : nat) (s : string) :
  parse_value fuel (String " " s) = parse_value fuel s.
Proof. destruct fuel; reflexivity. Qed.

Lemma parse_elems_space (fuel : nat) (s : string) :
  parse_elems fuel (String " " s) = parse_elems fuel s.
Proof.
  destruct fuel as [| fuel]; [reflexivity |]. cbn [parse_elems].
  rewrite parse_value_space. reflexivity.
Qed.

Lemma parse_members_space (fuel : nat) (s : string) :
  parse_members fuel (String " " s) = parse_members fuel s.
Proof. destruct fuel; reflexivity. Qed.

(** The first character of a rendered value. *)
Lemma json_dumps_head (v : value) (tail : string) :
  exists c tl,
    json_text false v ++ tail = String c tl
    /\ In c ["n"; "t"; "f"; dquote; "["; "{"; "-"; "0"; "1"; "2"; "3"; "4";
             "5"; "6"; "7"; "8"; "9"]%char.
Proof.
  destruct v as [| [] | z | s | l | d]; cbn [json_text];
    try (eexists; eexists; split; [reflexivity |]; cbn; tauto).
  destruct (str_int_digits z) as (negative & u & Hu & -> & _).
  destruct negative.
  - eexists; eexists; split; [reflexivity |]; cbn; tauto.
  - destruct u; [contradiction | ..];
      (eexists; eexists; split; [reflexivity |]; cbn; tauto).
Qed.

Lemma value_size_list (x : value) (l : list value) :
  value_size (VList (x :: l)) = (S (value_size x) + value_size (VList l))%nat.
Proof. cbn [value_size]. lia. Qed.

Lemma value_size_dict (kx : string * value) (d : list (string * value)) :
  value_size (VDict (kx :: d))
  = (S (value_size (snd kx)) + value_size (VDict d))%nat.
Proof. cbn [value_size]. lia. Qed.

Lemma value_size_pos (v : value) : (1 <= value_size v)%nat.
Proof. destruct v; cbn [value_size]; lia. Qed.

Lemma well_formed_list (l : list value) :
  well_formed (VList l) <-> Forall well_formed l.
Proof.
  induction l as [| x l IH].
  - split; [constructor | intros _; exact I].
  - change (well_formed (VList (x :: l)))
      with (well_formed x /\ well_formed (VList l)).
    rewrite IH. split.
    + intros [H1 H2]. constructor; assumption.
    + intros H. inversion H. split; assumption.
Qed.

Lemma well_formed_dict (d : list (string * value)) :
  well_formed (VDict d)
  <-> NoDup (map fst d) /\ Forall (fun kx => well_formed (snd kx)) d.
Proof.
  assert (H : forall d0 : list (string * value),
             (fix all (d1 : list (string * value)) : Prop :=
                match d1 with
                | [] => True
                | kx :: d' => well_formed (snd kx) /\ all d'
                end) d0
             <-> Forall (fun kx => well_formed (snd kx)) d0).
  { induction d0 as [| kx d0 IH].
    - split; [constructor | intros _; exact I].
    - rewrite IH. split.
      + intros [H1 H2]. constructor; assumption.
      + intros H. inversion H. split; assumption. }
  cbn [well_formed]. rewrite H. reflexivity.
Qed.

Lemma dict_set_fresh (d : dict) (k : string) (v : value) :
  ~ In k (map fst d) -> dict_set d k v = (d ++ [(k, v)])%list.
Proof.
  induction d as [| [k' v'] d IH]; intros Hk; cbn [dict_set app];
    [reflexivity |].
  cbn [map fst In] in Hk.
  destruct (String.eqb_spec k' k) as [-> | Hne]; [tauto |].
  rewrite IH by tauto. reflexivity.
Qed.

Lemma dict_of_pairs_nodup (d : list (string * value)) :
  NoDup (map fst d) -> dict_of_pairs d = d.
Proof.
  unfold dict_of_pairs.
  assert (H : forall pairs acc,
             NoDup (map fst (acc ++ pairs)%list) ->
             fold_left (fun acc0 kv => dict_set acc0 (fst kv) (snd kv))
               pairs acc = (acc ++ pairs)%list).
  { induction pairs as [| [k v] pairs IH]; intros acc Hnd; cbn [fold_left].
    - rewrite app_nil_r. reflexivity.
    - cbn [fst snd]. rewrite dict_set_fresh.
      + rewrite IH; rewrite <- app_assoc; [reflexivity | exact Hnd].
      + rewrite map_app in Hnd. cbn [map fst] in Hnd.
        apply NoDup_remove_2 in Hnd. intros Hin. apply Hnd.
        apply in_or_app. left. exact Hin. }
  intros Hnd. apply (H d []). exact Hnd.
Qed.

Lemma concat_head (x : string) (l : list string) (rest : string) :
  exists T, String.concat ", " (x :: l) ++ rest = x ++ T
            /\ (l = [] -> T = rest)
            /\ (forall y l', l = y :: l' ->
                  T = String "," (String " " (String.concat ", " (y :: l') ++ rest))).
Proof.
  destruct l as [| y l].
  - exists rest. split; [reflexivity |]. split; [reflexivity |].
    intros y l' H. discriminate H.
  - eexists. split.
    + change (String.concat ", " (x :: y :: l))
        with (x ++ ", " ++ String.concat ", " (y :: l)).
      rewrite append_assoc. reflexivity.
    + split; [intros H; discriminate H |].
      intros y' l' H. injection H as <- <-. reflexivity.
Qed.

Lemma json_roundtrip_fuel (fuel : nat) :
  (forall v tail,
     well_formed v -> (value_size v <= fuel)%nat -> no_digit_head tail ->
     parse_value fuel (json_text false v ++ tail) = Some (v, tail))
  /\ (forall x l tail,
        Forall well_formed (x :: l) ->
        (value_size (VList (x :: l)) <= S fuel)%nat ->
        parse_elems fuel
          (String.concat ", " (map (json_text false) (x :: l))
           ++ String "]" tail) = Some (x :: l, tail))
  /\ (forall kx d tail,
        Forall (fun kx0 : string * value => well_formed (snd kx0)) (kx :: d) ->
        (value_size (VDict (kx :: d)) <= S fuel)%nat ->
        parse_members fuel
          (String.concat ", "
             (map json_item
                (map (fun kv : string * value =>
                        let (k, x) := kv in (k, json_text false x))
                   (kx :: d)))
           ++ String "}" tail) = Some (kx :: d, tail)).
Proof.
  induction fuel as [| fuel (PV & PE & PM)].
  - split; [| split].
    + intros v tail _ H. pose proof (value_size_pos v). lia.
    + intros x l tail _ H. rewrite value_size_list in H.
      pose proof (value_size_pos x). pose proof (value_size_pos (VList l)). lia.
    + intros kx d tail _ H. rewrite value_size_dict in H.
      pose proof (value_size_pos (snd kx)).
      pose proof (value_size_pos (VDict d)). lia.
  - split; [| split].
    + intros v tail Hwf Hsize Htail.
      destruct v as [| [] | z | s | l | d]; try reflexivity.
      * apply parse_value_int. exact Htail.
      * cbn [json_text]. unfold json_quote. cbn [append].
        rewrite append_assoc. cbn [append].
        transitivity (match parse_chars (json_escape s ++ String dquote tail) with
                      | Some (str, r') => Some (VStr str, r')
                      | None => None
                      end); [reflexivity |].
        rewrite parse_chars_escape. reflexivity.
      * destruct l as [| x l]; [reflexivity |].
        apply well_formed_list in Hwf.
        pose proof (PE x l tail Hwf Hsize) as He.
        cbn [json_text]. cbn [append]. rewrite append_assoc. cbn [append].
        set (R := String.concat ", " (map (json_text false) (x :: l))
                  ++ String "]" tail) in *.
        assert (Hm : parse_value (S fuel) (String "[" R)
                     = match parse_elems fuel R with
                       | Some (l0, r') => Some (VList l0, r')
                       | None => None
                       end).
        { destruct (concat_head (json_text false x)
                      (map (json_text false) l) (String "]" tail))
            as (T & ET & _).
          destruct (json_dumps_head x T) as (c & tl & Ec & Hc).
          assert (ER : R = String c tl).
          { unfold R. cbn [map]. rewrite ET. exact Ec. }
          rewrite ER. clear - Hc. cbn [In] in Hc.
          repeat (destruct Hc as [<- | Hc]; [reflexivity |]). destruct Hc. }
        rewrite Hm, He. reflexivity.
      * destruct d as [| [k x] d]; [reflexivity |].
        apply well_formed_dict in Hwf. destruct Hwf as [Hnd Hwf].
        pose proof (PM (k, x) d tail Hwf Hsize) as He.
        cbn [json_text]. cbn [append]. rewrite append_assoc. cbn [append].
        set (R := String.concat ", " (map json_item _) ++ String "}" tail) in *.
        assert (Hm : parse_value (S fuel) (String "{" R)
                     = match parse_members fuel R with
                       | Some (d0, r') => Some (VDict (dict_of_pairs d0), r')
                       | None => None
                       end).
        { destruct (concat_head (json_item (k, json_text false x))
                      (map json_item
                         (map (fun kv : string * value =>
                                 let (k0, x0) := kv in
                                 (k0, json_text false x0)) d))
                      (String "}" tail)) as (T & ET & _).
          assert (ER : exists tl, R = String dquote tl).
          { unfold R. cbn [map]. rewrite ET. unfold json_item, json_quote.
            cbn [fst append]. eexists. reflexivity. }
          destruct ER as (tl & ->). reflexivity. }
        rewrite Hm, He, (dict_of_pairs_nodup _ Hnd). reflexivity.
    + intros x l tail Hwf Hsize.
      rewrite value_size_list in Hsize.
      pose proof (value_size_pos (VList l)) as Hl.
      inversion Hwf as [| ? ? Hx Hrest]; subst.
      cbn [parse_elems map].
      destruct (concat_head (json_text false x) (map (json_text false) l)
                  (String "]" tail)) as (T & ET & Hnil & Hcons).
      rewrite ET.
      destruct l as [| y l].
      * rewrite (Hnil eq_refl).
        rewrite (PV x (String "]" tail) Hx); [reflexivity | lia | reflexivity].
      * rewrite (Hcons _ _ eq_refl).
        rewrite (PV x _ Hx); [| lia | reflexivity].
        cbn [map] in *.
        transitivity
          (match parse_elems fuel
                   (String " "
                      (String.concat ", "
                         (json_text false y :: map (json_text false) l)
                       ++ String "]" tail)) with
           | Some (l0, r'') => Some (x :: l0, r'')
           | None => None
           end); [reflexivity |].
        rewrite parse_elems_space.
        rewrite (PE y l tail Hrest); [reflexivity | lia].
    + intros [k x] d tail Hwf Hsize.
      rewrite value_size_dict in Hsize. cbn [snd] in Hsize.
      pose proof (value_size_pos (VDict d)) as Hd.
      inversion Hwf as [| ? ? Hx Hrest]; subst. cbn [snd] in Hx.
      cbn [map].
      destruct (concat_head (json_item (k, json_text false x))
                  (map json_item
                     (map (fun kv : string * value =>
                             let (k0, x0) := kv in (k0, json_text false x0))
                        d))
                  (String "}" tail)) as (T & ET & Hnil & Hcons).
      rewrite ET. unfold json_item at 1, json_quote. cbn [fst snd append].
      rewrite ?append_assoc. cbn [append]. rewrite ?append_assoc.
      cbn [append].
      transitivity
        (match parse_chars
                 (json_escape k
                  ++ String dquote
                       (String ":" (String " " (json_text false x ++ T)))) with
         | Some (k0, r1) =>
             match skip_ws r1 with
             | String ":" r2 =>
                 match parse_value fuel r2 with
                 | Some (v, r3) =>
                     match skip_ws r3 with
                     | String "," r4 =>
                         match parse_members fuel r4 with
                         | Some (d0, r5) => Some ((k0, v) :: d0, r5)
                         | None => None
                         end
                     | String "}" r4 => Some ([(k0, v)], r4)
                     | _ => None
                     end
                 | None => None
                 end
             | _ => None
             end
         | None => None
         end); [reflexivity |].
      rewrite parse_chars_escape.
      transitivity
        (match parse_value fuel (String " " (json_text false x ++ T)) with
         | Some (v, r3) =>
             match skip_ws r3 with
             | String "," r4 =>
                 match parse_members fuel r4 with
                 | Some (d0, r5) => Some ((k, v) :: d0, r5)
                 | None => None
                 end
             | String "}" r4 => Some ([(k, v)], r4)
             | _ => None
             end
         | None => None
         end); [reflexivity |].
      rewrite parse_value_space.
      destruct d as [| ky d].
      * rewrite (Hnil eq_refl).
        rewrite (PV x (String "}" tail) Hx); [reflexivity | lia | reflexivity].
      * rewrite (Hcons _ _ eq_refl).
        rewrite (PV x _ Hx); [| lia | reflexivity].
        cbn [map] in *.
        transitivity
          (match parse_members fuel
                   (String " "
                      (String.concat ", "
                         (json_item
                            (let (k0, x0) := ky in (k0, json_text false x0))
                          :: map json_item
                               (map (fun kv : string * value =>
                                       let (k0, x0) := kv in
                                       (k0, json_text false x0)) d))
                       ++ String "}" tail)) with
           | Some (d0, r5) => Some ((k, x) :: d0, r5)
           | None => None
           end); [reflexivity |].
        rewrite parse_members_space.
        rewrite (PM ky d tail Hrest); [reflexivity | lia].
Qed.

Lemma append_nil_r (s : string) : s ++ "" = s.
Proof. induction s as [| c s IH]; cbn; [reflexivity | rewrite IH; reflexivity]. Qed.

Lemma str_int_length (z : Z) : (1 <= String.length (str_int z))%nat.
Proof.
  destruct (str_int_digits z) as (negative & u & Hu & -> & _).
  destruct negative; [cbn; lia |].
  destruct u; [contradiction | ..]; cbn; lia.
Qed.

Lemma json_dumps_size_fuel (n : nat) :
  forall v, (value_size v <= n)%nat ->
            (value_size v <= String.length (json_text false v))%nat.
Proof.
  induction n as [| n IH]; intros v Hn.
  - pose proof (value_size_pos v). lia.
  - destruct v as [| [] | z | s | l | d]; try (cbn; lia).
    + cbn [value_size json_text]. apply str_int_length.
    + assert (H : forall l0,
                 (value_size (VList l0) <= S n)%nat ->
                 (value_size (VList l0)
                  <= String.length
                       (String.concat ", " (map (json_text false) l0)) + 2)%nat).
      { induction l0 as [| x l0 IHl]; intros Hs; [cbn; lia |].
        rewrite value_size_list in *.
        pose proof (value_size_pos (VList l0)) as Hp.
        assert (Hx : (value_size x <= String.length (json_text false x))%nat)
          by (apply IH; lia).
        specialize (IHl ltac:(lia)).
        destruct l0 as [| y l0].
        - cbn [map String.concat]. cbn [value_size] in *. lia.
        - cbn [map] in *.
          change (String.concat ", "
                    (json_text false x :: json_text false y
                     :: map (json_text false) l0))
            with (json_text false x ++ ", "
                  ++ String.concat ", "
                       (json_text false y :: map (json_text false) l0)).
          rewrite !append_length. cbn [String.length]. lia. }
      specialize (H l Hn). cbn [json_text].
      rewrite !append_length. cbn [String.length]. lia.
    + assert (H : forall d0 : list (string * value),
                 (value_size (VDict d0) <= S n)%nat ->
                 (value_size (VDict d0)
                  <= String.length
                       (String.concat ", "
                          (map json_item
                             (map (fun kv : string * value =>
                                     let (k, x) := kv in
                                     (k, json_text false x)) d0))) + 2)%nat).
      { induction d0 as [| [k x] d0 IHd]; intros Hs; [cbn; lia |].
        rewrite value_size_dict in *. cbn [snd] in *.
        pose proof (value_size_pos (VDict d0)) as Hp.
        assert (Hx : (value_size x <= String.length (json_text false x))%nat)
          by (apply IH; lia).
        assert (Hi : (value_size x + 1
                      <= String.length (json_item (k, json_text false x)))%nat).
        { unfold json_item, json_quote. cbn [fst snd].
          cbn [append String.length]. rewrite !append_length.
          cbn [String.length]. lia. }
        specialize (IHd ltac:(lia)).
        destruct d0 as [| ky d0].
        - cbn [map String.concat]. cbn [value_size] in *. lia.
        - cbn [map] in *.
          match goal with
          | |- context [String.concat ", " (?a :: ?b :: ?r)] =>
              change (String.concat ", " (a :: b :: r))
                with (a ++ ", " ++ String.concat ", " (b :: r))
          end.
          rewrite !append_length. cbn [String.length]. lia. }
      specialize (H d Hn). cbn [json_text].
      rewrite !append_length. cbn [String.length]. lia.
Qed.


Lemma value_induction (P : value -> Prop) :
  P VNone -> (forall b, P (VBool b)) -> (forall z, P (VInt z)) ->
  (forall s, P (VStr s)) ->
  (forall l, Forall P l -> P (VList l)) ->
  (forall d, Forall (fun kx : string * value => P (snd kx)) d -> P (VDict d)) ->
  forall v, P v.
Proof.
  intros HN HB HZ HS HL HD. fix IH 1. intros [| b | z | s | l | d].
  - exact HN.
  - apply HB.
  - apply HZ.
  - apply HS.
  - apply HL. induction l as [| x l IHl]; constructor; [apply IH | exact IHl].
  - apply HD. induction d as [| [k x] d IHd]; constructor;
      [apply IH | exact IHd].
Qed.

(** The decoder finds no long integer in a value whose integers convert. *)
Lemma first_long_int_convertible (v : value) :
  ints_convertible v = true -> first_long_int v = None.
Proof.
  induction v as [| b | z | s | l IH | d IH] using value_induction;
    try reflexivity.
  - cbn [ints_convertible first_long_int]. intros ->. reflexivity.
  - cbn [ints_convertible first_long_int]. induction IH as [| x l Hx _ IHl];
      cbn [forallb fold_right]; [reflexivity |].
    intros H. apply andb_prop in H. destruct H as [H1 H2].
    rewrite (Hx H1). exact (IHl H2).
  - cbn [ints_convertible first_long_int].
    induction IH as [| [k x] d Hx _ IHd]; cbn [forallb fold_right];
      [reflexivity |].
    intros H. apply andb_prop in H. destruct H as [H1 H2].
    cbn [snd] in Hx. rewrite (Hx H1). exact (IHd H2).
Qed.

(** [json.loads] gives back every JSON value [json.dumps] has written with
    its default settings. *)
Lemma json_loads_text (v : value) :
  well_formed v -> ints_convertible v = true ->
  json_loads (json_text false v) = inr v.
Proof.
  intros Hwf Hints. unfold json_loads.
  destruct (json_roundtrip_fuel (S (String.length (json_text false v))))
    as (PV & _).
  pose proof (PV v "" Hwf) as H. rewrite append_nil_r in H.
  rewrite H.
  - cbn [skip_ws]. rewrite (first_long_int_convertible v Hints). reflexivity.
  - pose proof (json_dumps_size_fuel (value_size v) v (le_n _)). lia.
  - exact I.
Qed.














(** *** Hashes of payloads that differ in [scraped_at] *)

Lemma same_but_scraped_at_tracked p1 p2 field :
  same_but_scraped_at p1 p2 -> In field tracked_fields ->
  tracked_value p1 field = tracked_value p2 field.
Proof.
  intros Hsame Hin. unfold tracked_value, dict_get. rewrite (Hsame field).
  - reflexivity.
  - intros ->. revert Hin. unfold tracked_fields. simpl. intuition discriminate.
Qed.

Lemma flat_map_nil {A B : Type} (f : A -> list B) (l : list A) :
  (forall x, In x l -> f x = []) -> flat_map f l = [].
Proof.
  induction l as [| x l IH]; intros H; cbn [flat_map]; [reflexivity |].
  rewrite (H x), IH.
  - reflexivity.
  - intros y Hy. apply H. right. exact Hy.
  - left. reflexivity.
Qed.

Lemma same_but_scraped_at_changes p1 p2 :
  same_but_scraped_at p1 p2 -> changed_fields p1 p2 = [].
Proof.
  intros Hsame. unfold changed_fields, changed_among.
  apply flat_map_nil. intros field Hin. cbv zeta.
  rewrite (same_but_scraped_at_tracked p1 p2 field Hsame Hin).
  assert (E : option_string_eqb (tracked_value p2 field)
                (tracked_value p2 field) = true)
    by (apply option_string_eqb_eq; reflexivity).
  rewrite E. reflexivity.
Qed.

(** Two records the client builds from the same raw data at different fetch
    times are equal in every field except [scraped_at], which holds the text
    of the fetch time. *)
Lemma normalize_program_stamps raw t1 t2 p1 p2 :
  _normalize_program raw t1 = inr p1 ->
  _normalize_program raw t2 = inr p2 ->
  same_but_scraped_at p1 p2
  /\ dict_lookup p1 "scraped_at" = Some (VStr t1)
  /\ dict_lookup p2 "scraped_at" = Some (VStr t2).
Proof.
  unfold _normalize_program.
  destruct (_ && _); [| discriminate].
  intros H1 H2. injection H1 as <-. injection H2 as <-.
  split; [| split; reflexivity].
  intros field Hne. unfold normalized. cbn [dict_lookup].
  repeat match goal with
         | |- (if ?b then _ else _) = _ => destruct b; [reflexivity |]
         end.
  destruct (String.eqb_spec "scraped_at" field) as [E | E].
  - symmetry in E. contradiction.
  - reflexivity.
Qed.




(** ** Further properties *)

(** *** Reachable stores *)

Section StoreChanges.

Context {oracle : Oracle}.

Lemma mark_inactive_cases dsire_ids w r w' :
  mark_inactive dsire_ids w = (r, w') ->
  disk w' = disk w
  \/ disk w' = map_incentives (set_inactive dsire_ids) (disk w).
Proof.
  unfold mark_inactive. destruct dsire_ids as [| k ks].
  - intros H. injection H as _ <-. left. reflexivity.
  - intros H. destruct r as [e | []].
    + left. apply get_connection_raise in H; [exact H |].
      apply keeps_file_execute.
    + right. apply get_connection_return in H.
      destruct H as (c & Hbody & Hdisk & _). rewrite Hdisk.
      unfold execute, deactivate in Hbody.
      destruct (storage_fails (io_ops (world (connect w)))); [discriminate |].
      injection Hbody as <-. reflexivity.
Qed.

Lemma tracker_step_change w w' : tracker_step w w' -> store_change w (disk w').
Proof.
  intros [key data w0 r w0' H | ids w0 r w0' H | scan_type states w0 r w0' H
         | scan_id status a b c d err w0 r w0' H].
  - destruct r as [e | r].
    + rewrite (record_incentive_raise _ _ _ _ _ H). constructor.
    + destruct (record_incentive_return _ _ _ _ _ H)
        as [(Hsel & _ & name & state & pt & _ & _ & -> & _)
           | [(e & Hsel & _ & _ & -> & _)
             | (e & base & Hsel & _ & _ & _ & -> & _)]].
      * apply change_insert. exact Hsel.
      * eapply change_unchanged. exact Hsel.
      * eapply change_update. exact Hsel.
  - destruct (mark_inactive_cases _ _ _ _ H) as [-> | ->]; constructor.
  - destruct (start_scan_cases scan_type states w0)
      as [(w1 & H1 & Hd) | (e & w1 & H1 & Hd)];
      cbv zeta in *; rewrite H in H1; injection H1 as _ <-; rewrite Hd;
      constructor.
  - destruct (end_scan_cases scan_id status a b c d err w0)
      as [(w1 & H1 & Hd) | (e & w1 & H1 & Hd)];
      rewrite H in H1; injection H1 as _ <-; rewrite Hd; constructor.
Qed.

End StoreChanges.

Lemma select_max_id_snapshot_app i db db' r :
  incentive_snapshots db' = (incentive_snapshots db ++ [r])%list ->
  select_max_id_snapshot i db'
  = if Snapshot.incentive_id r =? i
    then match select_max_id_snapshot i db with
         | Some b => if Snapshot.id b <? Snapshot.id r then Some r else Some b
         | None => Some r
         end
    else select_max_id_snapshot i db.
Proof.
  intros H. unfold select_max_id_snapshot. rewrite H, fold_left_app.
  reflexivity.
Qed.

Lemma select_max_id_snapshot_same i db db' :
  incentive_snapshots db' = incentive_snapshots db ->
  select_max_id_snapshot i db' = select_max_id_snapshot i db.
Proof. intros H. unfold select_max_id_snapshot. rewrite H. reflexivity. Qed.

Lemma select_max_id_snapshot_in i db b :
  select_max_id_snapshot i db = Some b -> In b (incentive_snapshots db).
Proof.
  unfold select_max_id_snapshot.
  assert (H : forall l acc,
             fold_left
               (fun (best : option Snapshot.row) (r : Snapshot.row) =>
                  if Snapshot.incentive_id r =? i
                  then match best with
                       | Some b0 =>
                           if Snapshot.id b0 <? Snapshot.id r
                           then Some r else Some b0
                       | None => Some r
                       end
                  else best) l acc = Some b ->
             acc = Some b \/ In b l).
  { induction l as [| r l IH]; intros acc H; cbn [fold_left] in H.
    - left. exact H.
    - destruct (IH _ H) as [E | E]; [| right; right; exact E].
      destruct (Snapshot.incentive_id r =? i); [| left; exact E].
      destruct acc as [b0 |].
      + destruct (Snapshot.id b0 <? Snapshot.id r).
        * injection E as <-. right. left. reflexivity.
        * left. exact E.
      + injection E as <-. right. left. reflexivity. }
  intros E. destruct (H _ _ E) as [E' | E']; [discriminate | exact E'].
Qed.

(** A snapshot appended with the next rowid is the newest of its entity. *)
Lemma select_max_id_snapshot_new db db' r :
  incentive_snapshots db' = (incentive_snapshots db ++ [r])%list ->
  Snapshot.id r = next_rowid (map Snapshot.id (incentive_snapshots db)) ->
  select_max_id_snapshot (Snapshot.incentive_id r) db' = Some r.
Proof.
  intros H Hid. rewrite (select_max_id_snapshot_app _ db db' r H).
  rewrite Z.eqb_refl.
  destruct (select_max_id_snapshot (Snapshot.incentive_id r) db) as [b |] eqn:E;
    [| reflexivity].
  apply select_max_id_snapshot_in in E.
  assert (Snapshot.id b < Snapshot.id r).
  { rewrite Hid. apply next_rowid_above. apply in_map. exact E. }
  destruct (Z.ltb_spec (Snapshot.id b) (Snapshot.id r)); [reflexivity | lia].
Qed.

Lemma select_max_id_snapshot_other i db db' r :
  incentive_snapshots db' = (incentive_snapshots db ++ [r])%list ->
  Snapshot.incentive_id r <> i ->
  select_max_id_snapshot i db' = select_max_id_snapshot i db.
Proof.
  intros H Hne. rewrite (select_max_id_snapshot_app _ db db' r H).
  destruct (Z.eqb_spec (Snapshot.incentive_id r) i); [contradiction |].
  reflexivity.
Qed.

Lemma select_incentive_in key db e :
  select_incentive key db = Some e ->
  In e (incentives db) /\ Incentive.dsire_id e = key.
Proof.
  unfold select_incentive. intros H. apply find_some in H.
  destruct H as [Hin E]. apply String.eqb_eq in E. split; assumption.
Qed.

Lemma select_incentive_none key db :
  select_incentive key db = None ->
  ~ In key (map Incentive.dsire_id (incentives db)).
Proof.
  unfold select_incentive. intros H Hin. apply in_map_iff in Hin.
  destruct Hin as (e & E & Hin).
  pose proof (find_none _ _ H e Hin) as Hf. cbv beta in Hf.
  rewrite E, String.eqb_refl in Hf. discriminate.
Qed.

Lemma NoDup_snoc {A : Type} (l : list A) (x : A) :
  NoDup l -> ~ In x l -> NoDup (l ++ [x]).
Proof.
  intros Hl Hx. apply NoDup_app; [exact Hl | repeat constructor; intros [] | ].
  intros y Hy [<- | []]. contradiction.
Qed.

Lemma next_rowid_fresh (ids : list Z) : ~ In (next_rowid ids) ids.
Proof. intros H. apply next_rowid_above in H. lia. Qed.

Lemma changed_among_well_formed fields old_data new_data field old new :
  In (field, old, new) (changed_among fields old_data new_data) ->
  In field fields /\ old <> new.
Proof.
  unfold changed_among. intros H. apply in_flat_map in H.
  destruct H as (f & Hf & H). cbv zeta in H.
  destruct (option_string_eqb (tracked_value old_data f)
              (tracked_value new_data f)) eqn:E; [destruct H |].
  destruct H as [H | []]. injection H as <- <- <-. split; [exact Hf |].
  intros Heq. apply option_string_eqb_eq in Heq. congruence.
Qed.

Lemma set_inactive_identity keys r : same_identity r (set_inactive keys r).
Proof.
  unfold set_inactive, same_identity.
  destruct (existsb _ keys); cbn; repeat split.
Qed.

Lemma touch_last_seen_identity now i r :
  same_identity r (touch_last_seen now i r).
Proof.
  unfold touch_last_seen, same_identity.
  destruct (Incentive.id r =? i); cbn; repeat split.
Qed.

Lemma touch_hash_identity hash now i r :
  same_identity r (touch_hash hash now i r).
Proof.
  unfold touch_hash, same_identity.
  destruct (Incentive.id r =? i); cbn; repeat split.
Qed.

Lemma same_identity_refl e : same_identity e e.
Proof. unfold same_identity. repeat split. Qed.

Lemma same_identity_trans e1 e2 e3 :
  same_identity e1 e2 -> same_identity e2 e3 -> same_identity e1 e3.
Proof. unfold same_identity. intuition congruence. Qed.

Lemma invariant_map_incentives f db :
  (forall r, Incentive.id (f r) = Incentive.id r
             /\ Incentive.dsire_id (f r) = Incentive.dsire_id r
             /\ Incentive.data_hash (f r) = Incentive.data_hash r) ->
  store_invariant db -> store_invariant (map_incentives f db).
Proof.
  intros Hf (Hkey & Hid & Hhash & Hsnap & Hchg).
  unfold store_invariant, map_incentives. cbn [incentives].
  assert (Ekey : map Incentive.dsire_id (map f (incentives db))
                 = map Incentive.dsire_id (incentives db)).
  { rewrite map_map. apply map_ext. intros r. apply Hf. }
  assert (Eid : map Incentive.id (map f (incentives db))
                = map Incentive.id (incentives db)).
  { rewrite map_map. apply map_ext. intros r. apply Hf. }
  rewrite Ekey, Eid. split; [exact Hkey |]. split; [exact Hid |].
  split; [| split].
  - intros e' Hin. cbn [incentives] in Hin. apply in_map_iff in Hin.
    destruct Hin as (r & <- & Hin).
    destruct (Hhash r Hin) as (s & Hs & E). exists s.
    destruct (Hf r) as (E1 & _ & E3). rewrite E1, E3. split; [| exact E].
    rewrite <- Hs. apply select_max_id_snapshot_same. reflexivity.
  - intros s Hin. cbn [incentive_snapshots] in Hin.
    destruct (Hsnap s Hin) as (e & He & E). exists (f e). cbn [incentives].
    split; [apply in_map; exact He |]. destruct (Hf e) as (-> & _). exact E.
  - intros c Hin. cbn [incentive_changes] in Hin.
    destruct (Hchg c Hin) as ((e & He & E) & Hfield & Hne).
    split; [| split; assumption]. exists (f e). cbn [incentives].
    split; [apply in_map; exact He |]. destruct (Hf e) as (-> & _). exact E.
Qed.

Lemma invariant_same_tables db db' :
  incentives db' = incentives db ->
  incentive_snapshots db' = incentive_snapshots db ->
  incentive_changes db' = incentive_changes db ->
  store_invariant db -> store_invariant db'.
Proof.
  intros E1 E2 E3 (Hkey & Hid & Hhash & Hsnap & Hchg).
  unfold store_invariant, hash_of_newest_snapshot, snapshots_owned,
    changes_well_formed.
  rewrite E1, E2, E3. repeat (split; [assumption |]).
  split; [| split; assumption].
  intros e Hin. destruct (Hhash e Hin) as (s & Hs & E). exists s.
  split; [| exact E]. rewrite <- Hs.
  apply select_max_id_snapshot_same. exact E2.
Qed.

Section InvariantSteps.

Context {oracle : Oracle}.

Lemma invariant_after_insert key name state program_type data w :
  select_incentive key (disk w) = None ->
  store_invariant (disk w) ->
  store_invariant (store_after_insert key name state program_type data w).
Proof.
  intros Hsel (Hkey & Hid & Hhash & Hsnap & Hchg).
  unfold store_after_insert. cbv zeta.
  set (r := new_incentive key name state program_type _ _ _ (disk w)).
  set (snap := new_snapshot (Incentive.id r) _ _ _ _).
  assert (Hrid : Incentive.id r
                 = next_rowid (map Incentive.id (incentives (disk w))))
    by reflexivity.
  assert (Hold : forall e, In e (incentives (disk w)) ->
                           Incentive.id e <> Incentive.id r).
  { intros e He E. rewrite Hrid in E.
    apply (next_rowid_fresh (map Incentive.id (incentives (disk w)))).
    rewrite <- E. apply in_map. exact He. }
  unfold store_invariant, append_snapshot, append_incentive.
  cbn [incentives incentive_snapshots incentive_changes].
  rewrite !map_app. cbn [map].
  split; [| split; [| split; [| split]]].
  - apply NoDup_snoc; [exact Hkey |]. apply select_incentive_none. exact Hsel.
  - apply NoDup_snoc; [exact Hid |]. rewrite Hrid. apply next_rowid_fresh.
  - intros e Hin. cbn [incentives] in Hin. apply in_app_iff in Hin.
    destruct Hin as [Hin | [<- | []]].
    + destruct (Hhash e Hin) as (s & Hs & E). exists s. split; [| exact E].
      rewrite <- Hs.
      apply (select_max_id_snapshot_other _ (disk w) _ snap); [reflexivity |].
      cbn [snap new_snapshot Snapshot.incentive_id]. intros E'.
      apply (Hold e Hin). symmetry. exact E'.
    + exists snap. split; [| reflexivity].
      apply (select_max_id_snapshot_new (disk w) _ snap); reflexivity.
  - intros s Hin. cbn [incentive_snapshots] in Hin. apply in_app_iff in Hin.
    cbn [incentives]. destruct Hin as [Hin | [<- | []]].
    + destruct (Hsnap s Hin) as (e & He & E). exists e.
      split; [apply in_app_iff; left; exact He | exact E].
    + exists r. split; [apply in_app_iff; right; left; reflexivity |].
      reflexivity.
  - intros c Hin. cbn [incentive_changes] in Hin.
    destruct (Hchg c Hin) as ((e & He & E) & Hfield & Hne).
    split; [| split; assumption]. exists e. cbn [incentives].
    split; [apply in_app_iff; left; exact He | exact E].
Qed.

Lemma invariant_after_update key e base data w :
  select_incentive key (disk w) = Some e ->
  store_invariant (disk w) ->
  store_invariant
    (store_after_update (Incentive.id e) (changes_against base data) data w).
Proof.
  intros Hsel (Hkey & Hid & Hhash & Hsnap & Hchg).
  apply select_incentive_in in Hsel. destruct Hsel as [He _].
  unfold store_after_update. cbv zeta.
  set (i := Incentive.id e).
  set (g := fun r => touch_hash (payload_hash data)
                       (clock_us (clock_reads w)) i
                       (touch_last_seen (clock_us (clock_reads w)) i r)).
  set (snap := Snapshot.mk _ i _ _ _).
  set (rows := change_rows i _ _ _).
  assert (Hg : forall r, Incentive.id (g r) = Incentive.id r
                         /\ Incentive.dsire_id (g r) = Incentive.dsire_id r).
  { intros r. unfold g.
    rewrite touch_hash_id, touch_last_seen_id, touch_hash_key,
      touch_last_seen_key. split; reflexivity. }
  assert (Hmap : map (touch_hash (payload_hash data)
                        (clock_us (clock_reads w)) i)
                   (map (touch_last_seen (clock_us (clock_reads w)) i)
                      (incentives (disk w)))
                 = map g (incentives (disk w))).
  { rewrite map_map. reflexivity. }
  rewrite Hmap.
  assert (Hown : forall j, (exists e0, In e0 (incentives (disk w))
                                       /\ Incentive.id e0 = j) ->
                           exists e0, In e0 (map g (incentives (disk w)))
                                      /\ Incentive.id e0 = j).
  { intros j (e0 & H0 & E). exists (g e0). split; [apply in_map; exact H0 |].
    destruct (Hg e0) as (-> & _). exact E. }
  unfold store_invariant.
  cbn [incentives incentive_snapshots incentive_changes].
  assert (Ekey : map Incentive.dsire_id (map g (incentives (disk w)))
                 = map Incentive.dsire_id (incentives (disk w))).
  { rewrite map_map. apply map_ext. intros r. apply Hg. }
  assert (Eid : map Incentive.id (map g (incentives (disk w)))
                = map Incentive.id (incentives (disk w))).
  { rewrite map_map. apply map_ext. intros r. apply Hg. }
  rewrite Ekey, Eid. split; [exact Hkey |]. split; [exact Hid |].
  split; [| split].
  - intros e' Hin. cbn [incentives] in Hin. apply in_map_iff in Hin.
    destruct Hin as (r & <- & Hin). destruct (Hg r) as (-> & _).
    destruct (Z.eq_dec (Incentive.id r) i) as [E | E].
    + exists snap. split.
      * rewrite E.
        apply (select_max_id_snapshot_new (disk w) _ snap); reflexivity.
      * unfold g, touch_hash. rewrite touch_last_seen_id.
        apply Z.eqb_eq in E. rewrite E. reflexivity.
    + destruct (Hhash r Hin) as (s & Hs & Es). exists s. split.
      * rewrite <- Hs.
        apply (select_max_id_snapshot_other _ (disk w) _ snap);
          [reflexivity |].
        cbn [snap Snapshot.incentive_id]. congruence.
      * unfold g, touch_hash, touch_last_seen.
        apply Z.eqb_neq in E. rewrite E, E. exact Es.
  - intros s Hin. cbn [incentive_snapshots] in Hin. apply in_app_iff in Hin.
    cbn [incentives]. apply Hown. destruct Hin as [Hin | [<- | []]].
    + apply Hsnap. exact Hin.
    + exists e. split; [exact He | reflexivity].
  - intros c Hin. cbn [incentive_changes] in Hin. apply in_app_iff in Hin.
    cbn [incentives]. destruct Hin as [Hin | Hin].
    + destruct (Hchg c Hin) as (Ho & Hfield & Hne).
      split; [apply Hown; exact Ho | split; assumption].
    + split.
      * apply Hown. exists e. split; [exact He |].
        pose proof (change_rows_incentive i (changes_against base data)
                      (1 + clock_reads w) (incentive_changes (disk w))) as Hall.
        rewrite Forall_forall in Hall. symmetry. apply Hall. exact Hin.
      * assert (Hspec : In (spec_of_change c) (changes_against base data)).
        { rewrite <- (change_rows_specs i (changes_against base data)
                        (1 + clock_reads w) (incentive_changes (disk w))).
          apply in_map. exact Hin. }
        destruct base as [old_data |]; [| destruct Hspec].
        cbn [changes_against] in Hspec. unfold changed_fields in Hspec.
        unfold spec_of_change in Hspec.
        apply changed_among_well_formed in Hspec. exact Hspec.
Qed.

Lemma store_change_invariant w db' :
  store_change w db' -> store_invariant (disk w) -> store_invariant db'.
Proof.
  intros [| key name state pt data Hsel | key e Hsel | key e base data Hsel
         | keys | scan_type states started | status t a b c d err scan_id] Hinv.
  - exact Hinv.
  - apply invariant_after_insert; assumption.
  - unfold store_after_unchanged. apply invariant_map_incentives; [| exact Hinv].
    intros r. rewrite touch_last_seen_id, touch_last_seen_key.
    repeat split. unfold touch_last_seen.
    destruct (Incentive.id r =? Incentive.id e); reflexivity.
  - eapply invariant_after_update; eassumption.
  - apply invariant_map_incentives; [| exact Hinv].
    intros r. unfold set_inactive.
    destruct (existsb _ keys); repeat split.
  - eapply invariant_same_tables; [| | | exact Hinv]; reflexivity.
  - eapply invariant_same_tables; [| | | exact Hinv]; reflexivity.
Qed.

Lemma tracker_steps_invariant w w' :
  tracker_steps w w' -> store_invariant (disk w) -> store_invariant (disk w').
Proof.
  induction 1 as [w | w1 w2 w3 _ IH Hstep]; intros Hinv; [exact Hinv |].
  apply (store_change_invariant w2); [| apply IH; exact Hinv].
  apply tracker_step_change. exact Hstep.
Qed.

End InvariantSteps.

Lemma init_database_invariant : store_invariant _init_database.
Proof.
  unfold store_invariant, _init_database. cbn.
  split; [constructor |]. split; [constructor |].
  split; [| split]; intros x [].
Qed.

(** X1. In every store a process reaches from a new database by calls of
    [record_incentive], [mark_inactive], [start_scan] and [end_scan], whatever
    their outcomes: no two entities share an external id or a rowid, every
    entity carries the hash of its snapshot of greatest id, and every
    snapshot and change row belongs to an entity, a change row naming a
    tracked field with two different texts. *)
Theorem reachable_store_invariant {oracle : Oracle} w :
  reachable w -> store_invariant (disk w).
Proof.
  intros (k & io & Hsteps).
  apply (tracker_steps_invariant _ _ Hsteps). cbn [disk].
  apply init_database_invariant.
Qed.

Lemma reachable_store_invariant_witness :
  @reachable slow_clock world_200 /\ store_invariant (disk world_200).
Proof.
  assert (H : @reachable slow_clock world_200).
  { exists 0%nat, 0%nat.
    apply (steps_more _ world_100).
    - apply (steps_more _ fresh_world); [apply steps_none |].
      apply (step_record_incentive "7" payload_100 _ (inr (true, false))).
      vm_compute. reflexivity.
    - apply (step_record_incentive "7" payload_200 _ (inr (false, true))).
      vm_compute. reflexivity. }
  split; [exact H | exact (reachable_store_invariant world_200 H)].
Defined.

Section IdentitySteps.

Context {oracle : Oracle}.

Lemma select_map_identity key f db e :
  (forall r, same_identity r (f r)) ->
  select_incentive key db = Some e ->
  select_incentive key (map_incentives f db) = Some (f e).
Proof.
  intros Hf Hsel. unfold select_incentive, map_incentives. cbn [incentives].
  rewrite find_map_same.
  - unfold select_incentive in Hsel. rewrite Hsel. reflexivity.
  - intros r. destruct (Hf r) as (_ & -> & _). reflexivity.
Qed.

Lemma store_change_identity w db' key e :
  store_change w db' ->
  select_incentive key (disk w) = Some e ->
  exists e', select_incentive key db' = Some e' /\ same_identity e e'.
Proof.
  intros [| key0 name state pt data Hsel0 | key0 e0 Hsel0
         | key0 e0 base data Hsel0 | keys | scan_type states started
         | status t a b c d err scan_id] Hsel.
  - exists e. split; [exact Hsel | apply same_identity_refl].
  - exists e. split; [| apply same_identity_refl].
    unfold store_after_insert, select_incentive. cbv zeta.
    cbn [append_snapshot append_incentive incentives].
    apply find_app_some. exact Hsel.
  - eexists. split.
    + unfold store_after_unchanged. apply select_map_identity; [| exact Hsel].
      intros r. apply touch_last_seen_identity.
    + apply touch_last_seen_identity.
  - eexists. split.
    + unfold store_after_update, select_incentive. cbv zeta.
      cbn [incentives]. rewrite !find_map_same.
      * unfold select_incentive in Hsel. rewrite Hsel. reflexivity.
      * intros r. rewrite touch_last_seen_key. reflexivity.
      * intros r. rewrite touch_hash_key. reflexivity.
    + cbn [option_map].
      eapply same_identity_trans;
        [apply touch_last_seen_identity | apply touch_hash_identity].
  - eexists. split.
    + apply select_map_identity; [| exact Hsel].
      intros r. apply set_inactive_identity.
    + apply set_inactive_identity.
  - exists e. split; [exact Hsel | apply same_identity_refl].
  - exists e. split; [exact Hsel | apply same_identity_refl].
Qed.

Lemma store_extends_refl db : store_extends db db.
Proof.
  unfold store_extends.
  repeat split; exists []; rewrite app_nil_r; reflexivity.
Qed.

Lemma store_extends_trans db1 db2 db3 :
  store_extends db1 db2 -> store_extends db2 db3 -> store_extends db1 db3.
Proof.
  intros ((s1 & E1) & (c1 & E2) & (k1 & E3) & (i1 & E4))
         ((s2 & F1) & (c2 & F2) & (k2 & F3) & (i2 & F4)).
  unfold store_extends. rewrite F1, F2, F3, F4, E1, E2, E3, E4.
  repeat split; eexists; rewrite <- app_assoc; reflexivity.
Qed.

Lemma map_key_identity f l :
  (forall r, same_identity r (f r)) ->
  map Incentive.dsire_id (map f l) = map Incentive.dsire_id l.
Proof.
  intros Hf. rewrite map_map. apply map_ext. intros r.
  destruct (Hf r) as (_ & -> & _). reflexivity.
Qed.

Lemma store_change_extends w db' : store_change w db' -> store_extends (disk w) db'.
Proof.
  intros [| key0 name state pt data Hsel0 | key0 e0 Hsel0
         | key0 e0 base data Hsel0 | keys | scan_type states started
         | status t a b c d err scan_id].
  - apply store_extends_refl.
  - unfold store_extends, store_after_insert. cbv zeta.
    cbn [append_snapshot append_incentive incentives incentive_snapshots
           incentive_changes scan_logs].
    split; [eexists; reflexivity |].
    split; [exists []; rewrite app_nil_r; reflexivity |].
    split; [rewrite map_app; eexists; reflexivity |].
    exists []; rewrite app_nil_r; reflexivity.
  - unfold store_extends, store_after_unchanged, map_incentives.
    cbn [incentives incentive_snapshots incentive_changes scan_logs].
    rewrite map_key_identity by (intros r; apply touch_last_seen_identity).
    repeat split; exists []; rewrite app_nil_r; reflexivity.
  - unfold store_extends, store_after_update. cbv zeta.
    cbn [incentives incentive_snapshots incentive_changes scan_logs].
    rewrite map_key_identity by (intros r; apply touch_hash_identity).
    rewrite map_key_identity by (intros r; apply touch_last_seen_identity).
    split; [eexists; reflexivity |]. split; [eexists; reflexivity |].
    split; exists []; rewrite app_nil_r; reflexivity.
  - unfold store_extends, map_incentives.
    cbn [incentives incentive_snapshots incentive_changes scan_logs].
    rewrite map_key_identity by (intros r; apply set_inactive_identity).
    repeat split; exists []; rewrite app_nil_r; reflexivity.
  - unfold store_extends, append_scan_log.
    cbn [incentives incentive_snapshots incentive_changes scan_logs].
    split; [exists []; rewrite app_nil_r; reflexivity |].
    split; [exists []; rewrite app_nil_r; reflexivity |].
    split; [exists []; rewrite app_nil_r; reflexivity |].
    rewrite map_app. eexists. reflexivity.
  - unfold store_extends, map_scan_logs.
    cbn [incentives incentive_snapshots incentive_changes scan_logs].
    split; [exists []; rewrite app_nil_r; reflexivity |].
    split; [exists []; rewrite app_nil_r; reflexivity |].
    split; [exists []; rewrite app_nil_r; reflexivity |].
    exists []. rewrite app_nil_r, map_map. apply map_ext.
    intros r. apply close_scan_log_id.
Qed.

End IdentitySteps.

(** X2. Across any number of tracker calls, whatever their outcomes, an
    entity stays tracked under its external id and keeps its rowid, its
    name, state and program type columns, and its [first_seen_at] and
    [created_at]: no statement writes them after the INSERT. *)
Theorem entity_identity_kept {oracle : Oracle} w w' key e :
  tracker_steps w w' ->
  select_incentive key (disk w) = Some e ->
  exists e', select_incentive key (disk w') = Some e' /\ same_identity e e'.
Proof.
  induction 1 as [w | w1 w2 w3 _ IH Hstep]; intros Hsel.
  - exists e. split; [exact Hsel | apply same_identity_refl].
  - destruct (IH Hsel) as (e2 & Hsel2 & Hid2).
    destruct (store_change_identity w2 (disk w3) key e2
                (tracker_step_change _ _ Hstep) Hsel2) as (e3 & Hsel3 & Hid3).
    exists e3. split; [exact Hsel3 |].
    eapply same_identity_trans; eassumption.
Qed.

Lemma entity_identity_kept_witness :
  @tracker_steps slow_clock world_100 world_200
  /\ select_incentive "7" (disk world_100) = Some entity_100
  /\ exists e', select_incentive "7" (disk world_200) = Some e'
                /\ Incentive.first_seen_at e' = 0
                /\ Incentive.name e' = SqlText "X".
Proof.
  assert (H1 : @tracker_steps slow_clock world_100 world_200).
  { apply (steps_more _ world_100); [apply steps_none |].
    apply (step_record_incentive "7" payload_200 _ (inr (false, true))).
    vm_compute. reflexivity. }
  assert (H2 : select_incentive "7" (disk world_100) = Some entity_100)
    by (vm_compute; reflexivity).
  split; [exact H1 |]. split; [exact H2 |].
  destruct (@entity_identity_kept slow_clock world_100 world_200 "7"
              entity_100 H1 H2) as (e' & Hsel & Hid).
  exists e'. split; [exact Hsel |].
  destruct Hid as (_ & _ & Hname & _ & _ & Hfirst & _).
  rewrite Hname, Hfirst. split; reflexivity.
Defined.

(** X3. Across any number of tracker calls, whatever their outcomes, the
    snapshot and change tables only get rows appended, and no entity or scan
    run disappears: history is never rewritten or deleted. *)
Theorem history_append_only {oracle : Oracle} w w' :
  tracker_steps w w' -> store_extends (disk w) (disk w').
Proof.
  induction 1 as [w | w1 w2 w3 _ IH Hstep].
  - apply store_extends_refl.
  - eapply store_extends_trans; [exact IH |].
    apply store_change_extends. apply tracker_step_change. exact Hstep.
Qed.

Lemma history_append_only_witness :
  @tracker_steps slow_clock world_100 world_200
  /\ store_extends (disk world_100) (disk world_200).
Proof.
  assert (H1 : @tracker_steps slow_clock world_100 world_200).
  { apply (steps_more _ world_100); [apply steps_none |].
    apply (step_record_incentive "7" payload_200 _ (inr (false, true))).
    vm_compute. reflexivity. }
  split; [exact H1 | exact (@history_append_only slow_clock _ _ H1)].
Defined.

(** X4. The pair [record_incentive] returns tells how the entity stood
    before the call: [is_new] exactly when the external id was not tracked,
    [is_updated] exactly when it was tracked with another hash; the pair is
    never (True, True). *)
Theorem record_incentive_flags {oracle : Oracle} key data w is_new is_updated
    w' :
  record_incentive key data w = (inr (is_new, is_updated), w') ->
  (is_new = true <-> select_incentive key (disk w) = None)
  /\ (is_updated = true <->
      exists e, select_incentive key (disk w) = Some e
                /\ _compute_hash data <> inr (Incentive.data_hash e))
  /\ (is_new && is_updated = false).
Proof.
  intros H.
  pose proof (record_incentive_hash_returns _ _ _ _ _ H) as Hret.
  rewrite Hret.
  destruct (record_incentive_return _ _ _ _ _ H)
    as [(Hsel & Hr & _) | [(e & Hsel & Hh & Hr & _)
                          | (e & base & Hsel & Hh & _ & Hr & _)]];
    injection Hr as -> ->; rewrite Hsel.
  - split; [tauto |]. split; [| reflexivity].
    split; [discriminate | intros (e & E & _); discriminate].
  - split; [split; discriminate |]. split; [| reflexivity].
    split; [discriminate |].
    intros (e0 & E & Hne). injection E as <-. exfalso. apply Hne.
    rewrite Hh. reflexivity.
  - split; [split; discriminate |]. split; [| reflexivity].
    split; [| reflexivity]. intros _. exists e. split; [reflexivity |].
    intros E. injection E as E. apply Hh. symmetry. exact E.
Qed.

Lemma record_incentive_flags_witness :
  @record_incentive slow_clock "7" payload_200 world_100
  = (inr (false, true), world_200)
  /\ exists e, select_incentive "7" (disk world_100) = Some e
               /\ _compute_hash payload_200 <> inr (Incentive.data_hash e).
Proof.
  assert (H : @record_incentive slow_clock "7" payload_200 world_100
              = (inr (false, true), world_200)) by (vm_compute; reflexivity).
  split; [exact H |].
  destruct (@record_incentive_flags slow_clock _ _ _ _ _ _ H) as (_ & Hu & _).
  apply Hu. reflexivity.
Defined.

Section Inactive.

Context {oracle : Oracle}.

Lemma mark_inactive_return dsire_ids w w' :
  mark_inactive dsire_ids w = (inr tt, w') ->
  disk w' = map_incentives (set_inactive dsire_ids) (disk w).
Proof.
  unfold mark_inactive. destruct dsire_ids as [| k ks].
  - intros H. injection H as <-. unfold map_incentives.
    replace (map (set_inactive []) (incentives (disk w)))
      with (incentives (disk w)).
    + destruct (disk w); reflexivity.
    + symmetry. rewrite <- (map_id (incentives (disk w))) at 2.
      apply map_ext. intros r. reflexivity.
  - intros H. apply get_connection_return in H.
    destruct H as (c & Hbody & Hdisk & _). rewrite Hdisk.
    unfold execute, deactivate in Hbody.
    destruct (storage_fails (io_ops (world (connect w)))); [discriminate |].
    injection Hbody as <-. reflexivity.
Qed.

Lemma mark_inactive_raise dsire_ids w e w' :
  mark_inactive dsire_ids w = (inl e, w') -> disk w' = disk w.
Proof.
  unfold mark_inactive. destruct dsire_ids as [| k ks]; [discriminate |].
  intros H. apply get_connection_raise in H; [exact H |].
  apply keeps_file_execute.
Qed.

End Inactive.

(** X5. After [mark_inactive] has returned, a tracked entity is inactive when
    its external id is listed and is the row it was when it is not; the call
    changes no other column. A later observation of a listed entity finds it
    tracked (it is not new) and makes it active again. *)
Theorem mark_inactive_then_observed {oracle : Oracle} dsire_ids w w1 key e :
  mark_inactive dsire_ids w = (inr tt, w1) ->
  select_incentive key (disk w) = Some e ->
  (In key dsire_ids ->
   exists e1, select_incentive key (disk w1) = Some e1
              /\ Incentive.is_active e1 = false
              /\ same_identity e e1
              /\ Incentive.data_hash e1 = Incentive.data_hash e
              /\ Incentive.last_seen_at e1 = Incentive.last_seen_at e)
  /\ (~ In key dsire_ids -> select_incentive key (disk w1) = Some e)
  /\ (forall data r w2,
        record_incentive key data w1 = (inr r, w2) ->
        fst r = false
        /\ exists e2, select_incentive key (disk w2) = Some e2
                      /\ Incentive.is_active e2 = true
                      /\ same_identity e e2).
Proof.
  intros Hmark Hsel.
  pose proof (mark_inactive_return _ _ _ Hmark) as Hdisk.
  assert (Hsel1 : select_incentive key (disk w1)
                  = Some (set_inactive dsire_ids e)).
  { rewrite Hdisk. apply select_map_identity; [| exact Hsel].
    intros r. apply set_inactive_identity. }
  destruct (select_incentive_in _ _ _ Hsel) as [_ Hkey].
  assert (Hlisted : In key dsire_ids ->
                    existsb (String.eqb (Incentive.dsire_id e)) dsire_ids
                    = true).
  { intros Hin. apply existsb_exists. exists key.
    split; [exact Hin |]. rewrite Hkey. apply String.eqb_refl. }
  split; [| split].
  - intros Hin. exists (set_inactive dsire_ids e). split; [exact Hsel1 |].
    split; [| split; [apply set_inactive_identity |]];
      unfold set_inactive; rewrite (Hlisted Hin); cbn; auto.
  - intros Hout. rewrite Hsel1. f_equal. unfold set_inactive.
    destruct (existsb _ dsire_ids) eqn:E; [| reflexivity].
    apply existsb_exists in E. destruct E as (k & Hk & E).
    apply String.eqb_eq in E. rewrite Hkey in E. subst k. contradiction.
  - intros data [is_new is_updated] w2 Hrec. split.
    + destruct (record_incentive_return _ _ _ _ _ Hrec)
        as [(Hnone & _) | [(e0 & _ & _ & Hr & _)
                          | (e0 & base & _ & _ & _ & Hr & _)]].
      * rewrite Hsel1 in Hnone. discriminate.
      * injection Hr as -> _. reflexivity.
      * injection Hr as -> _. reflexivity.
    + destruct (record_incentive_tracked _ _ _ _ _ Hrec)
        as (e2 & Hsel2 & _ & _ & Hactive).
      exists e2. split; [exact Hsel2 |]. split; [exact Hactive |].
      assert (Hsteps : tracker_steps w w2).
      { apply (steps_more _ w1).
        - apply (steps_more _ w); [apply steps_none |].
          eapply step_mark_inactive. exact Hmark.
        - eapply step_record_incentive. exact Hrec. }
      destruct (store_change_identity w1 (disk w2) key _
                  (tracker_step_change _ _
                     (step_record_incentive _ _ _ _ _ Hrec)) Hsel1)
        as (e2' & Hsel2' & Hid).
      rewrite Hsel2 in Hsel2'. injection Hsel2' as <-.
      eapply same_identity_trans; [apply set_inactive_identity | exact Hid].
Qed.

Lemma mark_inactive_then_observed_witness :
  @mark_inactive slow_clock ["7"] world_100 = (inr tt, world_inactive)
  /\ select_incentive "7" (disk world_100) = Some entity_100
  /\ (exists e1, select_incentive "7" (disk world_inactive) = Some e1
                 /\ Incentive.is_active e1 = false)
  /\ exists e2,
       select_incentive "7"
         (disk (@after slow_clock "7" payload_100 world_inactive)) = Some e2
       /\ Incentive.is_active e2 = true.
Proof.
  assert (H1 : @mark_inactive slow_clock ["7"] world_100
               = (inr tt, world_inactive)) by (vm_compute; reflexivity).
  assert (H2 : select_incentive "7" (disk world_100) = Some entity_100)
    by (vm_compute; reflexivity).
  split; [exact H1 |]. split; [exact H2 |].
  destruct (@mark_inactive_then_observed slow_clock _ _ _ _ _ H1 H2)
    as (Hin & _ & Hlater).
  split.
  - destruct (Hin (or_introl eq_refl)) as (e1 & Hsel & Hact & _).
    exists e1. split; assumption.
  - assert (H3 : @record_incentive slow_clock "7" payload_100 world_inactive
                 = (inr (false, false),
                    @after slow_clock "7" payload_100 world_inactive))
      by (vm_compute; reflexivity).
    destruct (Hlater _ _ _ H3) as (_ & e2 & Hsel & Hact & _).
    exists e2. split; assumption.
Defined.

(** X6. [start_scan], [end_scan] and [mark_inactive] are atomic as well: a
    call that raises, at a statement or at the commit, leaves the file as it
    was. *)
Theorem scan_log_writes_atomic {oracle : Oracle} w e w' :
  (exists scan_type states, start_scan scan_type states w = (inl e, w'))
  \/ (exists scan_id status total new_count updated_count removed_count
        error_message,
        end_scan scan_id status total new_count updated_count removed_count
          error_message w = (inl e, w'))
  \/ (exists dsire_ids, mark_inactive dsire_ids w = (inl e, w')) ->
  disk w' = disk w.
Proof.
  intros [(scan_type & states & H)
         | [(scan_id & status & a & b & c & d & err & H) | (dsire_ids & H)]].
  - eapply start_scan_raise. exact H.
  - eapply end_scan_raise. exact H.
  - eapply mark_inactive_raise. exact H.
Qed.

Lemma scan_log_writes_atomic_witness :
  let w := mkWorld _init_database 0 5 in
  let w' := snd (@start_scan failing_close "daily" ["NY"] w) in
  @start_scan failing_close "daily" ["NY"] w = (inl disk_io_error, w')
  /\ disk w' = disk w.
Proof.
  cbv zeta.
  assert (H : @start_scan failing_close "daily" ["NY"]
                (mkWorld _init_database 0 5)
              = (inl disk_io_error,
                 snd (@start_scan failing_close "daily" ["NY"]
                        (mkWorld _init_database 0 5))))
    by (vm_compute; reflexivity).
  split; [exact H |].
  apply (@scan_log_writes_atomic failing_close _ disk_io_error).
  left. exists "daily", ["NY"]. exact H.
Defined.

Section ScanLogLife.

Context {oracle : Oracle}.

Lemma close_unknown_scan status t a b c d err scan_id db :
  scan_log scan_id db = None ->
  map_scan_logs (close_scan_log status t a b c d err scan_id) db = db.
Proof.
  intros Hnone. unfold map_scan_logs.
  replace (map (close_scan_log status t a b c d err scan_id) (scan_logs db))
    with (scan_logs db); [destruct db; reflexivity |].
  symmetry. rewrite <- (map_id (scan_logs db)) at 2.
  apply map_ext_in. intros r Hin. unfold close_scan_log.
  unfold scan_log in Hnone. pose proof (find_none _ _ Hnone r Hin) as Hf.
  cbv beta in Hf. rewrite Hf. reflexivity.
Qed.

End ScanLogLife.

(** X7. [start_scan] returns an id no scan run has yet and appends one row
    with it: status running, counters zero, not completed, [states_scanned]
    NULL exactly when the list of states is empty. *)
Theorem start_scan_opens_run {oracle : Oracle} scan_type states w scan_id w' :
  start_scan scan_type states w = (inr scan_id, w') ->
  scan_log scan_id (disk w) = None
  /\ exists row,
       disk w' = append_scan_log row (disk w)
       /\ scan_log scan_id (disk w') = Some row
       /\ ScanLog.id row = scan_id
       /\ ScanLog.scan_type row = scan_type
       /\ ScanLog.status row = "running"
       /\ ScanLog.completed_at row = None
       /\ ScanLog.total_found row = 0
       /\ ScanLog.new_incentives row = 0
       /\ ScanLog.updated_incentives row = 0
       /\ (ScanLog.states_scanned row = None <-> states = []).
Proof.
  intros H.
  destruct (start_scan_cases scan_type states w)
    as [(w1 & H1 & Hd) | (e & w1 & H1 & _)]; cbv zeta in *;
    rewrite H in H1; [| discriminate].
  injection H1 as -> <-.
  split; [apply (scan_log_fresh scan_type None 0 (disk w)) |].
  match type of Hd with _ = append_scan_log ?o _ => exists o end.
  split; [exact Hd |]. rewrite Hd.
  split; [apply (scan_log_opened scan_type _ _ (disk w)) |].
  cbn [new_scan_log ScanLog.id ScanLog.scan_type ScanLog.status
         ScanLog.completed_at ScanLog.total_found ScanLog.states_scanned
         ScanLog.new_incentives ScanLog.updated_incentives].
  repeat (split; [reflexivity |]).
  destruct states; split; intros E; try reflexivity; discriminate.
Qed.

Lemma start_scan_opens_run_witness :
  let w' := snd (@start_scan slow_clock "daily" ["NY"] fresh_world) in
  @start_scan slow_clock "daily" ["NY"] fresh_world = (inr 1, w')
  /\ exists row, scan_log 1 (disk w') = Some row
                 /\ ScanLog.status row = "running".
Proof.
  cbv zeta.
  assert (H : @start_scan slow_clock "daily" ["NY"] fresh_world
              = (inr 1, snd (@start_scan slow_clock "daily" ["NY"] fresh_world)))
    by (vm_compute; reflexivity).
  split; [exact H |].
  destruct (@start_scan_opens_run slow_clock _ _ _ _ _ H)
    as (_ & row & _ & Hrow & _ & _ & Hstatus & _).
  exists row. split; assumption.
Defined.

(** X8. [end_scan] with an id no scan run has changes nothing in the file,
    whether it returns or raises: the UPDATE matches no row and the call
    does not report it. *)
Theorem end_scan_unknown_run {oracle : Oracle} scan_id status total new_count
    updated_count removed_count error_message w r w' :
  scan_log scan_id (disk w) = None ->
  end_scan scan_id status total new_count updated_count removed_count
    error_message w = (r, w') ->
  disk w' = disk w.
Proof.
  intros Hnone H.
  destruct (end_scan_cases scan_id status total new_count updated_count
              removed_count error_message w)
    as [(w1 & H1 & Hd) | (e & w1 & H1 & Hd)];
    rewrite H in H1; injection H1 as _ <-; rewrite Hd; [| reflexivity].
  apply close_unknown_scan. exact Hnone.
Qed.

Lemma end_scan_unknown_run_witness :
  let w' := snd (@end_scan slow_clock 5 "completed" 3 2 1 0 None world_100) in
  scan_log 5 (disk world_100) = None
  /\ @end_scan slow_clock 5 "completed" 3 2 1 0 None world_100 = (inr tt, w')
  /\ disk w' = disk world_100.
Proof.
  cbv zeta.
  assert (H1 : scan_log 5 (disk world_100) = None) by reflexivity.
  assert (H2 : @end_scan slow_clock 5 "completed" 3 2 1 0 None world_100
               = (inr tt,
                  snd (@end_scan slow_clock 5 "completed" 3 2 1 0 None
                         world_100))) by (vm_compute; reflexivity).
  split; [exact H1 |]. split; [exact H2 |].
  exact (@end_scan_unknown_run slow_clock _ _ _ _ _ _ _ _ _ _ H1 H2).
Defined.

(** *** The states of the day *)

(** X9. Whatever the day and the configuration, [_get_states_for_today]
    returns (it raises nothing), names no state twice and names only states
    of [US_STATES]; on a weekday other than Sunday, with [scan_all_states]
    not set, the list holds the priority states and the states of the group
    whose position in [STATE_GROUPS] is the weekday, and nothing else. It
    reads the clock once and does not touch the file. *)
Theorem get_states_for_today_rotation {oracle : Oracle}
    (self : DailyScheduler) (w : World) :
  exists states w',
    _get_states_for_today self w = (inr states, w')
    /\ disk w' = disk w
    /\ clock_reads w' = S (clock_reads w)
    /\ NoDup states
    /\ incl states US_STATES
    /\ (weekday (clock_us (clock_reads w)) <> 6 ->
        py_truthy (dict_get (config self) "scan_all_states" VNone) = false ->
        exists name group,
          nth_error STATE_GROUPS
            (Z.to_nat (weekday (clock_us (clock_reads w))))
          = Some (name, group)
          /\ incl states (PRIORITY_STATES ++ group)
          /\ incl (PRIORITY_STATES ++ group) states).
Proof.
  unfold _get_states_for_today. unfold bind, datetime_now.
  pose proof (weekday_range (clock_us (clock_reads w))) as Hr.
  remember (weekday (clock_us (clock_reads w))) as d eqn:Ed. clear Ed.
  destruct (py_truthy (dict_get (config self) "scan_all_states" VNone)).
  - rewrite orb_true_r. unfold ret. eexists. eexists.
    split; [reflexivity |]. split; [reflexivity |]. split; [reflexivity |].
    split; [apply str_nodup_true; vm_compute; reflexivity |].
    split; [apply incl_refl |]. intros _ H. discriminate H.
  - rewrite orb_false_r.
    assert (Hd : d = 0 \/ d = 1 \/ d = 2 \/ d = 3 \/ d = 4 \/ d = 5 \/ d = 6)
      by lia.
    destruct Hd as [-> | [-> | [-> | [-> | [-> | [-> | ->]]]]]];
      cbn; unfold ret; eexists; eexists;
      (split; [reflexivity |]); (split; [reflexivity |]);
      (split; [reflexivity |]);
      (split; [apply str_nodup_true; vm_compute; reflexivity |]);
      (split; [apply forallb_str_in_incl; vm_compute; reflexivity |]);
      intros Hne _; try (exfalso; apply Hne; reflexivity);
      eexists; eexists; (split; [reflexivity |]);
      split; apply forallb_str_in_incl; vm_compute; reflexivity.
Qed.

(** *** The counters of a scan *)

Section ScanCounts.

Context {oracle : Oracle} {net : Type} {client : Client net}.

Lemma keeps_counts_refl (st : ScanState net) : keeps_counts st st.
Proof. intros H. exact H. Qed.

Lemma keeps_counts_trans (st1 st2 st3 : ScanState net) :
  keeps_counts st1 st2 -> keeps_counts st2 st3 -> keeps_counts st1 st3.
Proof. unfold keeps_counts. auto. Qed.

Lemma same_results_refl (st : ScanState net) : same_results st st.
Proof. reflexivity. Qed.

Lemma same_results_trans (st1 st2 st3 : ScanState net) :
  same_results st1 st2 -> same_results st2 st3 -> same_results st1 st3.
Proof. unfold same_results. congruence. Qed.

Lemma same_results_counts (st st' : ScanState net) :
  same_results st st' -> keeps_counts st st'.
Proof. unfold same_results, keeps_counts. intros ->. auto. Qed.

Lemma within_same_results_counts {A : Type} (m : Eff (ScanState net) A) :
  within same_results m -> within keeps_counts m.
Proof. intros H st r st' E. apply same_results_counts. exact (H _ _ _ E). Qed.

Lemma results_call_client {A : Type} (f : net -> (exn + A) * net) :
  within (net := net) same_results (call_client f).
Proof.
  intros st r st'. unfold call_client. destruct (f (st_net st)) as [r0 n].
  intros H. injection H as _ <-. reflexivity.
Qed.

Lemma results_tracker {A : Type} (m : M A) :
  within (net := net) same_results (tracker m).
Proof.
  intros st r st'. unfold tracker. destruct (m (st_world st)) as [r0 w].
  intros H. injection H as _ <-. reflexivity.
Qed.

Lemma results_add_found_id k :
  within (net := net) same_results (add_found_id k).
Proof. intros st r st' H. injection H as _ <-. reflexivity. Qed.

Lemma results_now_isoformat : within (net := net) same_results now_isoformat.
Proof.
  unfold now_isoformat.
  apply within_bind; [apply same_results_trans | apply results_tracker |].
  intros a. apply within_ret. apply same_results_refl.
Qed.

Lemma results_with_details key program :
  within same_results (with_details key program).
Proof.
  unfold with_details.
  apply within_bind; [apply same_results_trans | apply results_call_client |].
  intros [d |]; apply within_ret; apply same_results_refl.
Qed.

Lemma counts_update_results f :
  (forall r, counts_bounded r -> counts_bounded (f r)) ->
  within (net := net) keeps_counts (update_results f).
Proof.
  intros Hf st r st' H. injection H as _ <-. intros Hb. cbn [st_results].
  apply Hf. exact Hb.
Qed.

Lemma counts_append_error msg r :
  counts_bounded r -> counts_bounded (append_error msg r).
Proof. intros H. exact H. Qed.

Lemma counts_set_completed at_ status r :
  counts_bounded r -> counts_bounded (set_completed at_ status r).
Proof. intros H. exact H. Qed.

Lemma counts_set_failed msg r :
  counts_bounded r -> counts_bounded (set_failed msg r).
Proof. intros H. exact H. Qed.

(** What the end of a program step does to the counters, for the pairs
    [record_incentive] returns. *)
Lemma counts_after_flags (is_new is_updated : bool) (x y : value) r :
  is_new && is_updated = false ->
  counts_bounded r ->
  counts_bounded
    (count_found
       ((if is_updated then append_updated y else fun r => r)
          ((if is_new then append_new x else fun r => r) r))).
Proof.
  unfold counts_bounded, Z_len.
  destruct is_new, is_updated; intros Hb H; try discriminate Hb;
    cbn [count_found append_new append_updated r_new_incentives
           r_updated_incentives r_total_found];
    rewrite ?length_app; cbn [List.length]; lia.
Qed.

Lemma tracker_record_flags key data (st : ScanState net) is_new is_updated st' :
  tracker (record_incentive key data) st = (inr (is_new, is_updated), st') ->
  is_new && is_updated = false.
Proof.
  unfold tracker.
  destruct (record_incentive key data (st_world st)) as [r w] eqn:E.
  intros H. injection H as -> _.
  destruct (record_incentive_return _ _ _ _ _ E)
    as [(_ & Hr & _) | [(e & _ & _ & Hr & _) | (e & base & _ & _ & _ & Hr & _)]];
    injection Hr as -> ->; reflexivity.
Qed.

Lemma bind_cases {S A B : Type} (m : Eff S A) (k : A -> Eff S B) s r s' :
  bind m k s = (r, s') ->
  (exists e, m s = (inl e, s') /\ r = inl e)
  \/ exists a s1, m s = (inr a, s1) /\ k a s1 = (r, s').
Proof.
  unfold bind. destruct (m s) as [[e | a] s1]; intros H.
  - left. exists e. injection H as <- <-. split; reflexivity.
  - right. exists a, s1. split; [reflexivity | exact H].
Qed.

Lemma counts_run_scan_program self state program :
  within keeps_counts (run_scan_program self state program).
Proof.
  intros st r st' H. unfold run_scan_program in H.
  destruct program as [| b | z | s | l | d]; cbn [program_id] in H;
    try (unfold bind, raise in H; injection H as _ <-;
         apply keeps_counts_refl).
  destruct (ints_convertible (dict_get d "id" (VStr "")));
    [| unfold bind, raise in H; injection H as _ <-;
       apply keeps_counts_refl].
  unfold bind at 1 in H. unfold ret at 1 in H.
  destruct (String.eqb (py_str (dict_get d "id" (VStr ""))) "");
    [injection H as _ <-; apply keeps_counts_refl |].
  set (key := py_str (dict_get d "id" (VStr ""))) in *.
  apply bind_cases in H. destruct H as [(e & H & _) | (u & st1 & H1 & H)].
  { apply same_results_counts. exact (results_add_found_id _ _ _ _ H). }
  pose proof (results_add_found_id _ _ _ _ H1) as R1.
  apply bind_cases in H. destruct H as [(e & H & _) | (prog & st2 & H2 & H)].
  { apply same_results_counts. eapply same_results_trans; [exact R1 |].
    destruct (py_truthy _) in H.
    - exact (results_with_details _ _ _ _ _ H).
    - injection H as _ <-. reflexivity. }
  assert (R2 : same_results st1 st2).
  { destruct (py_truthy _) in H2.
    - exact (results_with_details _ _ _ _ _ H2).
    - injection H2 as _ <-. reflexivity. }
  apply bind_cases in H.
  destruct H as [(e & H & _) | ([is_new is_updated] & st3 & H3 & H)].
  { apply same_results_counts.
    eapply same_results_trans; [exact R1 |].
    eapply same_results_trans; [exact R2 |].
    exact (results_tracker _ _ _ _ H). }
  pose proof (results_tracker _ _ _ _ H3) as R3.
  pose proof (tracker_record_flags _ _ _ _ _ _ H3) as Hflags.
  intros Hb.
  assert (Hb3 : counts_bounded (st_results st3)).
  { unfold same_results in R1, R2, R3. rewrite R3, R2, R1. exact Hb. }
  clear - H Hflags Hb3.
  destruct is_new, is_updated; try discriminate Hflags;
    unfold bind, now_isoformat, tracker, datetime_now, update_results, ret
      in H;
    cbn in H; injection H as _ <-; cbn [st_results].
  - apply (counts_after_flags true false _ VNone); [reflexivity | exact Hb3].
  - apply (counts_after_flags false true VNone); [reflexivity | exact Hb3].
  - apply (counts_after_flags false false VNone VNone);
      [reflexivity | exact Hb3].
Qed.

Lemma counts_scan_states_program include_details program :
  within keeps_counts (scan_states_program include_details program).
Proof.
  intros st r st' H. unfold scan_states_program in H.
  destruct program as [| b | z | s | l | d]; cbn [program_id] in H;
    try (unfold bind, raise in H; injection H as _ <-;
         apply keeps_counts_refl).
  destruct (ints_convertible (dict_get d "id" (VStr "")));
    [| unfold bind, raise in H; injection H as _ <-;
       apply keeps_counts_refl].
  unfold bind at 1 in H. unfold ret at 1 in H.
  destruct (String.eqb (py_str (dict_get d "id" (VStr ""))) "");
    [injection H as _ <-; apply keeps_counts_refl |].
  set (key := py_str (dict_get d "id" (VStr ""))) in *.
  apply bind_cases in H. destruct H as [(e & H & _) | (prog & st2 & H2 & H)].
  { apply same_results_counts.
    destruct include_details.
    - exact (results_with_details _ _ _ _ _ H).
    - injection H as _ <-. reflexivity. }
  assert (R2 : same_results st st2).
  { destruct include_details.
    - exact (results_with_details _ _ _ _ _ H2).
    - injection H2 as _ <-. reflexivity. }
  apply bind_cases in H.
  destruct H as [(e & H & _) | ([is_new is_updated] & st3 & H3 & H)].
  { apply same_results_counts.
    eapply same_results_trans; [exact R2 |].
    exact (results_tracker _ _ _ _ H). }
  pose proof (results_tracker _ _ _ _ H3) as R3.
  pose proof (tracker_record_flags _ _ _ _ _ _ H3) as Hflags.
  intros Hb.
  assert (Hb3 : counts_bounded (st_results st3)).
  { unfold same_results in R2, R3. rewrite R3, R2. exact Hb. }
  clear - H Hflags Hb3.
  destruct is_new, is_updated; try discriminate Hflags;
    unfold bind, update_results, ret in H;
    cbn in H; injection H as _ <-; cbn [st_results].
  - apply (counts_after_flags true false _ VNone); [reflexivity | exact Hb3].
  - apply (counts_after_flags false true VNone); [reflexivity | exact Hb3].
  - apply (counts_after_flags false false VNone VNone);
      [reflexivity | exact Hb3].
Qed.

End ScanCounts.

Section ScanRunCounts.

Context {oracle : Oracle} {net : Type} {client : Client net}.

Lemma counts_quiet (m : Eff (ScanState net) unit) :
  (forall st, m st = (inr tt, st)) -> within keeps_counts m.
Proof.
  intros Hm st r st' H. rewrite Hm in H. injection H as _ <-.
  apply keeps_counts_refl.
Qed.

Lemma counts_run_scan_state self state :
  within keeps_counts (run_scan_state self state).
Proof.
  unfold run_scan_state, run_scan_fetch.
  apply within_try_except; [apply keeps_counts_trans | |].
  - apply within_bind; [apply keeps_counts_trans | |].
    + apply within_same_results_counts. apply results_call_client.
    + intros programs.
      apply within_for_each;
        [apply keeps_counts_refl | apply keeps_counts_trans |].
      intros program. apply counts_run_scan_program.
  - intros e. apply counts_update_results. intros r Hr. exact Hr.
Qed.

Lemma counts_scan_states_state include_details progress_callback total
    idx_state :
  within keeps_counts
    (scan_states_state include_details progress_callback total idx_state).
Proof.
  unfold scan_states_state, scan_states_fetch. destruct idx_state as [idx state].
  apply within_bind; [apply keeps_counts_trans | |].
  - destruct progress_callback as [callback |];
      [destruct (callback _ idx total) as [e | u] |];
      first [apply within_raise | apply within_ret]; apply keeps_counts_refl.
  - intros _.
    apply within_try_except; [apply keeps_counts_trans | |].
    + apply within_bind; [apply keeps_counts_trans | |].
      * apply within_same_results_counts. apply results_call_client.
      * intros programs.
        apply within_for_each;
          [apply keeps_counts_refl | apply keeps_counts_trans |].
        intros program. apply counts_scan_states_program.
    + intros e. apply counts_update_results. intros r Hr. exact Hr.
Qed.

Lemma counts_run_scan_body self scan_id states :
  within keeps_counts (run_scan_body self scan_id states).
Proof.
  unfold run_scan_body.
  apply within_try_except; [apply keeps_counts_trans | |].
  - apply within_bind; [apply keeps_counts_trans | |].
    { apply within_for_each;
        [apply keeps_counts_refl | apply keeps_counts_trans |].
      intros state. apply counts_run_scan_state. }
    intros _. apply within_bind; [apply keeps_counts_trans | |].
    { apply within_results. apply keeps_counts_refl. }
    intros r. apply within_bind; [apply keeps_counts_trans | |].
    { apply within_same_results_counts. apply results_tracker. }
    intros _. apply within_bind; [apply keeps_counts_trans | |].
    { apply within_same_results_counts. apply results_now_isoformat. }
    intros completed_at. apply within_bind; [apply keeps_counts_trans | |].
    { apply counts_update_results. intros r0 Hr. exact Hr. }
    intros _. apply within_bind; [apply keeps_counts_trans | |].
    { apply within_results. apply keeps_counts_refl. }
    intros r1.
    destruct (r_new_incentives r1), (r_updated_incentives r1);
      try (apply within_ret; apply keeps_counts_refl);
      (apply within_bind; [apply keeps_counts_trans | |];
       [apply counts_quiet; apply notify_callbacks_quiet
       | intros _; apply counts_quiet; apply send_notifications_quiet]).
  - intros e. apply within_bind; [apply keeps_counts_trans | |].
    { apply within_same_results_counts. apply results_tracker. }
    intros _. apply counts_update_results. intros r Hr. exact Hr.
Qed.

Lemma counts_bounded_initial scan_id scan_type states started_at :
  counts_bounded
    (mkResults scan_id scan_type states started_at [] [] 0 [] None None None).
Proof. unfold counts_bounded. cbn. lia. Qed.

End ScanRunCounts.

(** X10. In the results a scan returns, from [DailyScheduler.run_scan] or
    from [ScanRunner.scan_states], the records listed as new and those listed
    as updated are together at most [total_found]: each record with an id
    that the tracker accepts is counted once, and enters at most one of the
    two lists, the tracker never answering (True, True). *)
Theorem scan_counts_bounded {oracle : Oracle} {net : Type}
    {client : Client net} (wn wn' : World * net) (res : Results) :
  (exists self states scan_type,
     run_scan self states scan_type wn = (inr res, wn'))
  \/ (exists states include_details progress_callback,
        scan_states states include_details progress_callback wn
        = (inr res, wn')) ->
  Z_len (r_new_incentives res) + Z_len (r_updated_incentives res)
  <= r_total_found res.
Proof.
  intros [(self & states & scan_type & H)
         | (states & include_details & progress_callback & H)].
  - unfold run_scan in H. destruct wn as [w n].
    destruct (match states with
              | [] => _get_states_for_today self w
              | _ :: _ => (inr states, w)
              end) as [[e | states'] w1]; [discriminate |].
    destruct (start_scan scan_type states' w1) as [[e | scan_id] w2];
      [discriminate |].
    destruct (datetime_now w2) as [started_at w3].
    match type of H with
    | match run_scan_body _ _ _ ?st with _ => _ end = _ =>
        destruct (run_scan_body self scan_id states' st) as [[e | u] st']
          eqn:E; [discriminate |];
        pose proof (counts_run_scan_body self scan_id states' _ _ _ E) as Hk
    end.
    injection H as <- _. apply Hk. apply counts_bounded_initial.
  - unfold scan_states in H. destruct wn as [w n].
    destruct (start_scan "manual" states w) as [[e | scan_id] w2];
      [discriminate |].
    destruct (datetime_now w2) as [started_at w3]. cbv zeta in H.
    match type of H with
    | match ?body ?st with _ => _ end = _ =>
        assert (Hw : within keeps_counts body);
        [| destruct (body st) as [[e | u] st'] eqn:E; [discriminate |];
           pose proof (Hw _ _ _ E) as Hk ]
    end.
    + apply within_bind; [apply keeps_counts_trans | |].
      { apply within_for_each;
          [apply keeps_counts_refl | apply keeps_counts_trans |].
        intros x. apply counts_scan_states_state. }
      intros _. apply within_bind; [apply keeps_counts_trans | |].
      { apply within_results. apply keeps_counts_refl. }
      intros r. apply within_bind; [apply keeps_counts_trans | |].
      { apply within_same_results_counts. apply results_tracker. }
      intros _. apply within_bind; [apply keeps_counts_trans | |].
      { apply within_same_results_counts. apply results_now_isoformat. }
      intros completed_at. apply counts_update_results. intros r0 Hr. exact Hr.
    + injection H as <- _. apply Hk. apply counts_bounded_initial.
Qed.

Lemma scan_counts_bounded_witness :
  let out := @run_scan slow_clock unit flaky_client plain_scheduler
               ["A"; "B"; "C"] "manual" (fresh_world, tt) in
  match fst out with
  | inr res =>
      r_total_found res = 2
      /\ Z_len (r_new_incentives res) + Z_len (r_updated_incentives res)
         <= r_total_found res
  | inl _ => False
  end.
Proof.
  cbv zeta.
  destruct (@run_scan slow_clock unit flaky_client plain_scheduler
              ["A"; "B"; "C"] "manual" (fresh_world, tt)) as [r wn'] eqn:E.
  assert (Hr : exists res, r = inr res /\ r_total_found res = 2).
  { vm_compute in E. injection E as <- _. eexists. split; reflexivity. }
  destruct Hr as (res & -> & Htotal). cbn [fst]. split; [exact Htotal |].
  apply (@scan_counts_bounded slow_clock unit flaky_client
           (fresh_world, tt) wn' res).
  left. exists plain_scheduler, ["A"; "B"; "C"], "manual". exact E.
Defined.

(** *** The form of a hash *)





(** *** Records of the client *)

Lemma normalize_program_shape (key : string)
    (v1 v2 v3 v4 v5 v6 v7 v8 v9 v10 v11 v12 v13 v14 v15 : value)
    (t1 t2 : string) :
  normalized
    [ ("id", VStr key); ("name", v1); ("state", v2); ("program_type", v3);
      ("implementing_sector", v4); ("eligible_sectors", v5);
      ("technologies", v6); ("incentive_amount", v7); ("start_date", v8);
      ("end_date", v9); ("date_enacted", v10); ("description", v11);
      ("contact", v12); ("website", v13); ("url", v14); ("last_updated", v15);
      ("scraped_at", VStr t1) ] t2
  = [ ("id", VStr key); ("name", v1); ("state", v2); ("program_type", v3);
      ("implementing_sector", v4); ("eligible_sectors", v5);
      ("technologies", v6); ("incentive_amount", v7); ("start_date", v8);
      ("end_date", v9); ("date_enacted", v10); ("description", v11);
      ("contact", v12); ("website", v13); ("url", v14); ("last_updated", v15);
      ("scraped_at", VStr t2) ].
Proof. reflexivity. Qed.

(** X12. When [_normalize_program] returns a record, normalising that record
    again changes nothing but the fetch time; a normalisation of the same
    upstream record at another time returns as well and agrees with it on
    every tracked field, so the tracker's comparison of the two reports no
    change; [scraped_at] holds the text of the fetch time; and the [id] of
    the record is a [str], the text the scans use as the external id. *)
Theorem normalize_program_stable (raw : dict) (t1 t2 : string) (p1 : dict) :
  _normalize_program raw t1 = inr p1 ->
  _normalize_program p1 t2 = _normalize_program raw t2
  /\ (exists p2, _normalize_program raw t2 = inr p2
                 /\ changed_fields p1 p2 = [])
  /\ dict_lookup p1 "scraped_at" = Some (VStr t1)
  /\ exists key,
       dict_lookup p1 "id" = Some (VStr key)
       /\ py_str (dict_get p1 "id" (VStr "")) = key.
Proof.
  intros H.
  assert (H2 : _normalize_program raw t2 = inr (normalized raw t2)).
  { unfold _normalize_program in *. destruct (_ && _); [reflexivity |].
    discriminate H. }
  destruct (normalize_program_stamps raw t1 t2 p1 _ H H2) as (Hsame & Ht1 & _).
  assert (E : p1 = normalized raw t1).
  { unfold _normalize_program in H. destruct (_ && _); [| discriminate H].
    injection H as <-. reflexivity. }
  split; [| split; [| split]].
  - rewrite H2, E. unfold _normalize_program.
    change (ints_convertible
              (dict_get (normalized raw t1) "id"
                 (dict_get (normalized raw t1) "program_id" (VStr "")))
            && ints_convertible (dict_get (normalized raw t1) "id" (VStr "")))
      with true.
    cbv iota. apply f_equal. unfold normalized at 2 3.
    apply normalize_program_shape.
  - exists (normalized raw t2). split; [exact H2 |].
    apply same_but_scraped_at_changes. exact Hsame.
  - exact Ht1.
  - rewrite E. eexists. split; reflexivity.
Qed.

Lemma normalize_program_stable_witness :
  _normalize_program [("id", VStr "7"); ("name", VStr "X")] monday
  = inr (stamped monday)
  /\ _normalize_program (stamped monday) tuesday = inr (stamped tuesday)
  /\ dict_lookup (stamped monday) "scraped_at" = Some (VStr monday).
Proof.
  assert (H : _normalize_program [("id", VStr "7"); ("name", VStr "X")] monday
              = inr (stamped monday)) by reflexivity.
  split; [exact H |].
  destruct (normalize_program_stable _ monday tuesday _ H) as (H1 & _ & H3 & _).
  split; [rewrite H1; reflexivity | exact H3].
Defined.

(** *** Snapshots decode to their payloads *)

(** X13. [json.loads] gives back every JSON value that [json.dumps] has
    written with its default settings: the text of a snapshot decodes to the
    payload it was written from. *)
Theorem json_loads_dumps (v : value) (s : string) :
  well_formed v -> json_dumps false v = inr s -> json_loads s = inr v.
Proof.
  intros Hwf H. unfold json_dumps in H.
  destruct (ints_convertible v) eqn:Hints; [| discriminate H].
  injection H as <-. exact (json_loads_text v Hwf Hints).
Qed.

Lemma json_loads_dumps_witness :
  well_formed (VDict payload_100)
  /\ json_dumps false (VDict payload_100)
     = inr (Snapshot.data_json snapshot_100)
  /\ json_loads (Snapshot.data_json snapshot_100) = inr (VDict payload_100).
Proof.
  assert (H1 : well_formed (VDict payload_100)).
  { apply well_formed_dict. split.
    - apply str_nodup_true. reflexivity.
    - repeat constructor. }
  assert (H2 : json_dumps false (VDict payload_100)
               = inr (Snapshot.data_json snapshot_100)) by reflexivity.
  split; [exact H1 |]. split; [exact H2 |].
  exact (json_loads_dumps _ _ H1 H2).
Defined.

(** *** Two observations of one entity *)

Section TwoObservations.

Context {oracle : Oracle}.

Lemma filter_none {A : Type} (p : A -> bool) (l : list A) :
  (forall x, In x l -> p x = false) -> filter p l = [].
Proof.
  induction l as [| x l IH]; intros H; cbn [filter]; [reflexivity |].
  rewrite (H x (or_introl eq_refl)). apply IH.
  intros y Hy. apply H. right. exact Hy.
Qed.

(** After the first observation of an entity in a store that satisfies the
    invariant, the snapshot the next update is compared with is the one just
    written. *)
Lemma latest_snapshot_after_insert key name state program_type data w :
  store_invariant (disk w) ->
  let db' := store_after_insert key name state program_type data w in
  let i := next_rowid (map Incentive.id (incentives (disk w))) in
  exists snap,
    select_latest_snapshot i db' = Some snap
    /\ Snapshot.data_json snap = json_text false (VDict data).
Proof.
  intros (_ & _ & _ & Hsnap & _). cbv zeta.
  unfold select_latest_snapshot, store_after_insert. cbv zeta.
  cbn [append_snapshot append_incentive incentive_snapshots].
  rewrite filter_app.
  assert (Hnone : filter
                    (fun r : Snapshot.row =>
                       Snapshot.incentive_id r
                       =? next_rowid (map Incentive.id (incentives (disk w))))
                    (incentive_snapshots (disk w)) = []).
  { apply filter_none. intros s Hin.
    destruct (Hsnap s Hin) as (e & He & E). rewrite <- E.
    apply Z.eqb_neq. intros Heq.
    apply (next_rowid_fresh (map Incentive.id (incentives (disk w)))).
    rewrite <- Heq. apply in_map. exact He. }
  rewrite Hnone. cbn [app filter new_snapshot Snapshot.incentive_id
                        new_incentive Incentive.id].
  rewrite Z.eqb_refl. eexists. split; [reflexivity |]. reflexivity.
Qed.

Lemma diff_base_after_insert key name state program_type data w :
  store_invariant (disk w) ->
  well_formed (VDict data) ->
  ints_convertible (VDict data) = true ->
  diff_base (next_rowid (map Incentive.id (incentives (disk w))))
    (store_after_insert key name state program_type data w)
  = inr (Some data).
Proof.
  intros Hinv Hwf Hints.
  destruct (latest_snapshot_after_insert key name state program_type data w
              Hinv) as (snap & Hsel & Hjson).
  cbv zeta in Hsel. unfold diff_base. rewrite Hsel, Hjson.
  rewrite (json_loads_text _ Hwf Hints). reflexivity.
Qed.

End TwoObservations.

(** X14. In a store that satisfies the invariant, under an environment
    without storage failure: the first observation of an untracked external
    id, with a payload that [_compute_hash] hashes and SQLite accepts,
    returns (True, False); a second observation, with a payload that
    [_compute_hash] hashes, then returns (False, True) exactly when the two
    hashes differ, and in that case the change rows it appends are those of
    the tracked fields whose texts differ between the two payloads, in the
    order of the tracked-field list: the first snapshot decodes to the first
    payload. The store satisfies the invariant afterwards. *)
Theorem two_observations {oracle : Oracle} key p1 p2 h1 h2 w :
  storage_never_fails oracle ->
  store_invariant (disk w) ->
  select_incentive key (disk w) = None ->
  well_formed (VDict p1) ->
  _compute_hash p1 = inr h1 ->
  _compute_hash p2 = inr h2 ->
  insertable p1 = true ->
  exists w1 w2 rows,
    record_incentive key p1 w = (inr (true, false), w1)
    /\ record_incentive key p2 w1 = (inr (false, negb (h1 =? h2)%string), w2)
    /\ incentive_changes (disk w2) = (incentive_changes (disk w1) ++ rows)%list
    /\ map spec_of_change rows
       = (if (h1 =? h2)%string then [] else changed_fields p1 p2)
    /\ store_invariant (disk w2).
Proof.
  intros Hnf Hinv Hnone Hwf Hh1 Hh2 Hins.
  pose proof Hh2 as Hh2'.
  apply compute_hash_inr in Hh1, Hh2.
  destruct Hh1 as [Hints1 ->]. destruct Hh2 as [Hints2 ->].
  destruct (insertable_binds p1 Hins) as (name & state & pt & Hn & Hnn & Hs & Hp).
  pose proof (record_incentive_new Hnf key p1 w name state pt Hints1 Hnone
                Hn Hnn Hs Hp) as Hfirst.
  match type of Hfirst with _ = (_, ?x) => set (w1 := x) in * end.
  pose proof (select_after_insert key name state pt p1 w Hnone) as Hsel.
  match type of Hsel with _ = Some ?x => set (e := x) in * end.
  assert (Hsel1 : select_incentive key (disk w1) = Some e) by exact Hsel.
  assert (Hbase : diff_base (Incentive.id e) (disk w1) = inr (Some p1)).
  { exact (diff_base_after_insert key name state pt p1 w Hinv Hwf Hints1). }
  assert (Hinv1 : store_invariant (disk w1)).
  { apply (store_change_invariant w); [| exact Hinv].
    apply change_insert. exact Hnone. }
  exists w1.
  destruct (String.eqb_spec (payload_hash p1) (payload_hash p2)) as [E | E].
  - assert (Hsame : _compute_hash p2 = inr (Incentive.data_hash e))
      by (rewrite Hh2'; unfold e; cbn [new_incentive Incentive.data_hash];
          rewrite E; reflexivity).
    pose proof (record_incentive_same_hash Hnf key p2 w1 e Hsel1 Hsame)
      as Hsecond.
    eexists. exists []. split; [exact Hfirst |]. split; [exact Hsecond |].
    cbn [disk negb]. split.
    + unfold store_after_unchanged, map_incentives. cbn [incentive_changes].
      rewrite app_nil_r. reflexivity.
    + split; [reflexivity |].
      apply (store_change_invariant w1); [| exact Hinv1].
      eapply change_unchanged. exact Hsel1.
  - assert (Hh : Incentive.data_hash e <> payload_hash p2) by exact E.
    pose proof (record_incentive_new_hash Hnf key p2 w1 e (Some p1)
                  Hints2 Hsel1 Hh Hbase) as Hsecond.
    cbn zeta in Hsecond. cbn [changes_against] in Hsecond.
    eexists. eexists. split; [exact Hfirst |]. split; [exact Hsecond |].
    cbn [disk negb]. split.
    + unfold store_after_update. cbv zeta. cbn [incentive_changes]. reflexivity.
    + split; [apply change_rows_specs |].
      apply (store_change_invariant w1); [| exact Hinv1].
      apply (change_update w1 key e (Some p1) p2 Hsel1).
Qed.

Lemma two_observations_witness :
  storage_never_fails slow_clock
  /\ store_invariant (disk fresh_world)
  /\ select_incentive "7" (disk fresh_world) = None
  /\ well_formed (VDict payload_100)
  /\ _compute_hash payload_100 = inr (payload_hash payload_100)
  /\ _compute_hash payload_200 = inr (payload_hash payload_200)
  /\ insertable payload_100 = true
  /\ exists w1 w2 rows,
       @record_incentive slow_clock "7" payload_100 fresh_world
       = (inr (true, false), w1)
       /\ @record_incentive slow_clock "7" payload_200 w1
          = (inr (false, true), w2)
       /\ map spec_of_change rows
          = [("incentive_amount", Some "$100", Some "$200")].
Proof.
  assert (H1 : storage_never_fails slow_clock) by (intros k; reflexivity).
  assert (H2 : store_invariant (disk fresh_world))
    by apply init_database_invariant.
  assert (H3 : select_incentive "7" (disk fresh_world) = None) by reflexivity.
  assert (H4 : well_formed (VDict payload_100)).
  { apply well_formed_dict. split.
    - apply str_nodup_true. reflexivity.
    - repeat constructor. }
  assert (H5 : _compute_hash payload_100 = inr (payload_hash payload_100))
    by (vm_compute; reflexivity).
  assert (H6 : _compute_hash payload_200 = inr (payload_hash payload_200))
    by (vm_compute; reflexivity).
  assert (H7 : insertable payload_100 = true) by reflexivity.
  repeat (split; [assumption |]).
  destruct (@two_observations slow_clock "7" payload_100 payload_200 _ _
              fresh_world H1 H2 H3 H4 H5 H6 H7)
    as (w1 & w2 & rows & Hfirst & Hsecond & _ & Hrows & _).
  assert (Hne : (payload_hash payload_100 =? payload_hash payload_200)%string
                = false) by (vm_compute; reflexivity).
  rewrite Hne in Hsecond, Hrows.
  exists w1, w2, rows. split; [exact Hfirst |]. split; [exact Hsecond |].
  rewrite Hrows. vm_compute. reflexivity.
Defined.
